(** * Pedurma footnote reconstruction: a shallow embedding

    The module [reconstruction.py] works on Python [str] values, i.e.
    sequences of Unicode code points, and drives almost all of its
    decisions through the [re] module.  Strings are modelled as lists of
    code points ([N]); the regular expressions of the source are kept as
    syntax trees and run by a backtracking matcher with the priorities of
    Python's engine (leftmost match, greedy and lazy quantifiers, numbered
    groups).  Exceptions raised by the source are explicit results. *)

From Stdlib Require Import List NArith ZArith Bool Lia Arith.
From Stdlib Require Import String Ascii Permutation DecimalPos.
Import ListNotations.

Set Implicit Arguments.
Local Open Scope N_scope.

(** ** Code points and strings *)

Definition char := N.
Definition pystr := list char.

Fixpoint of_string (s : string) : pystr :=
  match s with
  | EmptyString => []
  | String a s' => N_of_ascii a :: of_string s'
  end.

(** ASCII literal of the source, as a list of code points. *)
Notation "'py' s" := (of_string s%string) (at level 9, s at level 0, only parsing).

Fixpoint str_eqb (a b : pystr) : bool :=
  match a, b with
  | [], [] => true
  | x :: a', y :: b' => (x =? y) && str_eqb a' b'
  | _, _ => false
  end.

(** Named code points used by the source. *)
Module U.
Definition nl : char := 0x0A.
Definition space : char := 0x20.
Definition hash : char := 0x23.
Definition lparen : char := 0x28.
Definition rparen : char := 0x29.
Definition comma : char := 0x2C.
Definition minus : char := 0x2D.
Definition colon : char := 0x3A.
Definition semi : char := 0x3B.
Definition lt : char := 0x3C.
Definition gt : char := 0x3E.
Definition at_sign : char := 0x40.
Definition copyright : char := 0xA9.
Definition registered : char := 0xAE.
Definition ldquote : char := 0x201C.
Definition bullet : char := 0x2022.
Definition yig_mgo : char := 0x0F04.      (* ༄ *)
Definition yig_mgo2 : char := 0x0F05.     (* ༅ *)
Definition tseg : char := 0x0F0B.         (* ་ *)
Definition shad : char := 0x0F0D.         (* ། *)
Definition ter_tsheg : char := 0x0F14.    (* ༔ *)
Definition tib0 : char := 0x0F20.         (* ༠ *)
Definition tib9 : char := 0x0F29.         (* ༩ *)
Definition nga : char := 0x0F44.          (* ང *)
Definition circ1 : char := 0x2460.        (* ① *)
Definition circ9 : char := 0x2468.        (* ⑨ *)
Definition circ10 : char := 0x2469.       (* ⑩ *)
Definition circ20 : char := 0x2473.       (* ⑳ *)
Definition circ0 : char := 0x24EA.        (* ⓪ *)
End U.

(** Unicode general category Nd, as ten-glyph blocks given by their first
    code point (Unicode 14 character database, which [re] consults for
    [\d]); the digit value of a glyph is its offset in its block. *)
Definition nd_blocks : list N :=
  [0x30; 0x660; 0x6F0; 0x7C0; 0x966; 0x9E6; 0xA66; 0xAE6; 0xB66; 0xBE6;
   0xC66; 0xCE6; 0xD66; 0xDE6; 0xE50; 0xED0; 0xF20; 0x1040; 0x1090; 0x17E0;
   0x1810; 0x1946; 0x19D0; 0x1A80; 0x1A90; 0x1B50; 0x1BB0; 0x1C40; 0x1C50;
   0xA620; 0xA8D0; 0xA900; 0xA9D0; 0xA9F0; 0xAA50; 0xABF0; 0xFF10; 0x104A0;
   0x10D30; 0x11066; 0x110F0; 0x11136; 0x111D0; 0x112F0; 0x11450; 0x114D0;
   0x11650; 0x116C0; 0x11730; 0x118E0; 0x11950; 0x11C50; 0x11D50; 0x11DA0;
   0x16A60; 0x16AC0; 0x16B50; 0x1D7CE; 0x1D7D8; 0x1D7E2; 0x1D7EC; 0x1D7F6;
   0x1E140; 0x1E2F0; 0x1E950; 0x1FBF0].

Definition in_range (lo hi c : char) : bool := (lo <=? c) && (c <=? hi).

Definition is_decimal (c : char) : bool :=
  existsb (fun b => in_range b (b + 9) c) nd_blocks.

(** [str.isspace] on one code point, which is also [\s] of [re]. *)
Definition is_space (c : char) : bool :=
  in_range 0x09 0x0D c || in_range 0x1C 0x20 c || (c =? 0x85) || (c =? 0xA0)
  || (c =? 0x1680) || in_range 0x2000 0x200A c || (c =? 0x2028)
  || (c =? 0x2029) || (c =? 0x202F) || (c =? 0x205F) || (c =? 0x3000).

(** ** Exceptions *)

(** The exceptions the module can raise.  [PageNotFound] is the condition
    the specification names for a missing page boundary; no function of
    the module raises it. *)
Inductive exn :=
| IndexError | AttributeError | ValueError | NameError | TypeError | PageNotFound.

Inductive res (A : Type) :=
| Ok (a : A)
| Raise (e : exn).
Arguments Ok {A} a.
Arguments Raise {A} e.

Definition bind {A B} (m : res A) (f : A -> res B) : res B :=
  match m with
  | Ok a => f a
  | Raise e => Raise e
  end.

Notation "x <- m ;; k" := (bind m (fun x => k))
  (at level 61, m at next level, right associativity).
Notation "' p <- m ;; k" := (bind m (fun x => match x with p => k end))
  (at level 61, p pattern, m at next level, right associativity).

(** ** Regular expressions *)

Module Re.

Inductive regex :=
| Eps
| Cls (p : char -> bool)
| Seq (a b : regex)
| Alt (a b : regex)
| Star (greedy : bool) (a : regex)
| Grp (n : nat) (a : regex).

(** Derived forms, as [sre_parse] reads them. *)
Definition Chr (c : char) : regex := Cls (N.eqb c).
Definition Range (lo hi : char) : regex := Cls (in_range lo hi).
Definition Dot : regex := Cls (fun c => negb (c =? U.nl)).
Definition Digit : regex := Cls is_decimal.
Definition NonDigit : regex := Cls (fun c => negb (is_decimal c)).
Definition NonSpace : regex := Cls (fun c => negb (is_space c)).
Definition Plus (greedy : bool) (a : regex) : regex := Seq a (Star greedy a).
Definition Opt (a : regex) : regex := Alt a Eps.

Fixpoint Lit (s : pystr) : regex :=
  match s with
  | [] => Eps
  | c :: s' => Seq (Chr c) (Lit s')
  end.

Definition caps := list (nat * pystr).

Fixpoint group (n : nat) (c : caps) : pystr :=
  match c with
  | [] => []
  | (m, t) :: c' => if Nat.eqb n m then t else group n c'
  end.

(** The loop of a quantifier [a*] or [a*?] around its body.  A round of
    the body that consumes nothing ends the loop, so [fuel] need not
    exceed the number of characters left. *)
Section StarLoop.
Context {A : Type}.
Variable body : pystr -> caps -> (pystr -> caps -> option A) -> option A.
Variable greedy : bool.
Variable k : pystr -> caps -> option A.

Fixpoint star_loop (fuel : nat) (s : pystr) (c : caps) {struct fuel} : option A :=
  let again :=
    fun (_ : unit) =>
      match fuel with
      | O => None
      | S f =>
          body s c (fun s' c' =>
            if (List.length s' <? List.length s)%nat
            then star_loop f s' c' else None)
      end in
  if greedy then
    match again tt with
    | Some v => Some v
    | None => k s c
    end
  else
    match k s c with
    | Some v => Some v
    | None => again tt
    end.
End StarLoop.

(** Backtracking matcher in continuation-passing style: [k] receives the
    unread suffix and the groups closed so far; the first success in
    priority order is the answer. *)
Fixpoint bt {A : Type} (r : regex) (s : pystr) (c : caps)
         (k : pystr -> caps -> option A) {struct r} : option A :=
  match r with
  | Eps => k s c
  | Cls p =>
      match s with
      | x :: s' => if p x then k s' c else None
      | [] => None
      end
  | Seq a b => bt a s c (fun s' c' => bt b s' c' k)
  | Alt a b =>
      match bt a s c k with
      | Some v => Some v
      | None => bt b s c k
      end
  | Star greedy a =>
      star_loop (fun s0 c0 k0 => bt a s0 c0 k0) greedy k (List.length s) s c
  | Grp n a =>
      bt a s c (fun s' c' =>
        k s' ((n, firstn (List.length s - List.length s') s) :: c'))
  end.

(** A match object: [m[0]] and the groups. *)
Record rmatch := { m_text : pystr; m_caps : caps }.

Definition m_group (n : nat) (m : rmatch) : pystr := group n (m_caps m).

Definition match_at (r : regex) (s : pystr) : option rmatch :=
  bt r s [] (fun s' c =>
    Some {| m_text := firstn (List.length s - List.length s') s; m_caps := c |}).

(** [re.search]: the match at the leftmost position that has one. *)
Fixpoint search (r : regex) (s : pystr) : option rmatch :=
  match match_at r s with
  | Some m => Some m
  | None =>
      match s with
      | [] => None
      | _ :: s' => search r s'
      end
  end.

Definition found (r : regex) (s : pystr) : bool :=
  match search r s with Some _ => true | None => false end.

(** The scan shared by [finditer], [findall], [sub] and [split]: the
    input cut into non-overlapping matches and the characters between
    them.  [skip] counts the characters still covered by the last match.
    None of the patterns of this module matches the empty string; an
    empty match is recorded and the scan moves on by one character. *)
Inductive tok :=
| Gap (c : char)
| Hit (m : rmatch).

Fixpoint scan (r : regex) (s : pystr) (skip : nat) : list tok :=
  match s with
  | [] =>
      match skip with
      | O => match match_at r [] with Some m => [Hit m] | None => [] end
      | S _ => []
      end
  | x :: s' =>
      match skip with
      | S n => scan r s' n
      | O =>
          match match_at r s with
          | Some m =>
              match List.length (m_text m) with
              | O => Hit m :: Gap x :: scan r s' 0
              | S n => Hit m :: scan r s' n
              end
          | None => Gap x :: scan r s' 0
          end
      end
  end.

Fixpoint hits (l : list tok) : list rmatch :=
  match l with
  | [] => []
  | Gap _ :: l' => hits l'
  | Hit m :: l' => m :: hits l'
  end.

Definition finditer (r : regex) (s : pystr) : list rmatch := hits (scan r s 0).

(** [re.findall] for a pattern without groups. *)
Definition findall (r : regex) (s : pystr) : list pystr :=
  map m_text (finditer r s).

(** [re.sub] with the replacement computed from the match. *)
Fixpoint subst (repl : rmatch -> pystr) (l : list tok) : pystr :=
  match l with
  | [] => []
  | Gap c :: l' => c :: subst repl l'
  | Hit m :: l' => repl m ++ subst repl l'
  end.

Definition sub (r : regex) (repl : rmatch -> pystr) (s : pystr) : pystr :=
  subst repl (scan r s 0).

(** [re.split]: the pieces between matches; [grps] lists the groups of
    the pattern, whose texts are interleaved with the pieces. *)
Fixpoint pieces (grps : list nat) (acc : pystr) (l : list tok) : list pystr :=
  match l with
  | [] => [rev acc]
  | Gap c :: l' => pieces grps (c :: acc) l'
  | Hit m :: l' => rev acc :: map (fun g => m_group g m) grps ++ pieces grps [] l'
  end.

Definition split (r : regex) (grps : list nat) (s : pystr) : list pystr :=
  pieces grps [] (scan r s 0).

End Re.

(** ** Python string operations used by the module *)

Module Py.

Definition truthy (s : pystr) : bool :=
  match s with [] => false | _ => true end.

(** [s[0]] and [s[-1]]. *)
Definition first_char (s : pystr) : res char :=
  match s with
  | [] => Raise IndexError
  | c :: _ => Ok c
  end.

Definition last_char (s : pystr) : res char :=
  match rev s with
  | [] => Raise IndexError
  | c :: _ => Ok c
  end.

(** [s[-k:]] for a literal [k > 0] and [s[:-k]] for a literal [k > 0]. *)
Definition take_last (k : nat) (s : pystr) : pystr :=
  skipn (List.length s - k) s.

Definition drop_last (k : nat) (s : pystr) : pystr :=
  firstn (List.length s - k) s.

(** [s[:-n]] for a computed [n >= 0]: the bound [-0] is [0], so that
    [s[:-0]] is the empty string. *)
Definition slice_to_neg (n : nat) (s : pystr) : pystr :=
  match n with
  | O => []
  | S _ => firstn (List.length s - n) s
  end.

Fixpoint is_prefix (p s : pystr) : bool :=
  match p, s with
  | [], _ => true
  | x :: p', y :: s' => (x =? y) && is_prefix p' s'
  | _ :: _, [] => false
  end.

(** [old in s]. *)
Fixpoint contains (old s : pystr) : bool :=
  is_prefix old s ||
  match s with
  | [] => false
  | _ :: s' => contains old s'
  end.

Definition budget_left (cnt : option nat) : bool :=
  match cnt with Some O => false | _ => true end.

Definition budget_pred (cnt : option nat) : option nat :=
  match cnt with Some n => Some (Nat.pred n) | None => None end.

Fixpoint replace_scan (old new : pystr) (cnt : option nat) (s : pystr)
         (skip : nat) : pystr :=
  match s with
  | [] => []
  | x :: s' =>
      match skip with
      | S n => replace_scan old new cnt s' n
      | O =>
          if budget_left cnt && is_prefix old s
          then new ++ replace_scan old new (budget_pred cnt) s' (List.length old - 1)
          else x :: replace_scan old new cnt s' 0
      end
  end.

Fixpoint replace_empty (new : pystr) (cnt : option nat) (s : pystr) : pystr :=
  if budget_left cnt then
    new ++ match s with
           | [] => []
           | x :: s' => x :: replace_empty new (budget_pred cnt) s'
           end
  else s.

(** [s.replace(old, new)] ([cnt = None]) and [s.replace(old, new, n)]. *)
Definition replace (old new : pystr) (cnt : option nat) (s : pystr) : pystr :=
  match old with
  | [] => replace_empty new cnt s
  | _ :: _ => replace_scan old new cnt s 0
  end.

(** [s.split(sep)] for a one-character separator. *)
Fixpoint split (sep : char) (s : pystr) : list pystr :=
  match s with
  | [] => [[]]
  | x :: s' =>
      if x =? sep then [] :: split sep s'
      else match split sep s' with
           | p :: ps => (x :: p) :: ps
           | [] => [[x]]
           end
  end.

(** List indexing [l[i]] for [i >= 0] and [l[-1]]. *)
Definition index {A} (l : list A) (i : nat) : res A :=
  match nth_error l i with
  | Some a => Ok a
  | None => Raise IndexError
  end.

Definition index_last {A} (l : list A) : res A :=
  match rev l with
  | [] => Raise IndexError
  | a :: _ => Ok a
  end.

Definition is_linebreak (c : char) : bool :=
  in_range 0x0A 0x0D c || in_range 0x1C 0x1E c || (c =? 0x85)
  || (c =? 0x2028) || (c =? 0x2029).

(** [s.splitlines()]; [after_cr] is set right after a carriage return,
    whose following line feed belongs to the same line break. *)
Fixpoint splitlines_from (acc : pystr) (after_cr : bool) (s : pystr) : list pystr :=
  match s with
  | [] => match acc with [] => [] | _ :: _ => [rev acc] end
  | x :: s' =>
      if after_cr && (x =? 0x0A) then splitlines_from acc false s'
      else if is_linebreak x then rev acc :: splitlines_from [] (x =? 0x0D) s'
      else splitlines_from (x :: acc) false s'
  end.

Definition splitlines (s : pystr) : list pystr := splitlines_from [] false s.

Fixpoint lstrip (s : pystr) : pystr :=
  match s with
  | x :: s' => if is_space x then lstrip s' else s
  | [] => []
  end.

Definition strip (s : pystr) : pystr := rev (lstrip (rev (lstrip s))).

(** [str(n)] for a non-negative [int]. *)
Fixpoint uint_chars (u : Decimal.uint) : pystr :=
  match u with
  | Decimal.Nil => []
  | Decimal.D0 u => 0x30 :: uint_chars u
  | Decimal.D1 u => 0x31 :: uint_chars u
  | Decimal.D2 u => 0x32 :: uint_chars u
  | Decimal.D3 u => 0x33 :: uint_chars u
  | Decimal.D4 u => 0x34 :: uint_chars u
  | Decimal.D5 u => 0x35 :: uint_chars u
  | Decimal.D6 u => 0x36 :: uint_chars u
  | Decimal.D7 u => 0x37 :: uint_chars u
  | Decimal.D8 u => 0x38 :: uint_chars u
  | Decimal.D9 u => 0x39 :: uint_chars u
  end.

Definition str_of_N (n : N) : pystr := uint_chars (N.to_uint n).

(** [d.get(key)] on a literal dict with string keys. *)
Fixpoint dict_get (d : list (pystr * pystr)) (key : pystr) : option pystr :=
  match d with
  | [] => None
  | (k, v) :: d' => if str_eqb k key then Some v else dict_get d' key
  end.

(** Digit value of a decimal glyph, as [int] reads it. *)
Definition digit_value (c : char) : option N :=
  match find (fun b => in_range b (b + 9) c) nd_blocks with
  | Some b => Some (c - b)
  | None => None
  end.

Fixpoint digits_value (acc : N) (seen : bool) (s : pystr) : option N :=
  match s with
  | [] => if seen then Some acc else None
  | x :: s' =>
      match digit_value x with
      | Some d => digits_value (10 * acc + d) true s'
      | None =>
          (* one underscore may separate two digits *)
          if (x =? 0x5F) && seen then
            match s' with
            | y :: _ =>
                match digit_value y with
                | Some _ => digits_value acc true s'
                | None => None
                end
            | [] => None
            end
          else None
      end
  end.

(** The blanks that [int] skips around a number: those of [str.isspace]
    save the separators U+001C to U+001F, which make it fail. *)
Definition int_blank (c : char) : bool :=
  is_space c && negb (in_range 0x1C 0x1F c).

Fixpoint int_lstrip (s : pystr) : pystr :=
  match s with
  | x :: s' => if int_blank x then int_lstrip s' else s
  | [] => []
  end.

Definition int_strip (s : pystr) : pystr := rev (int_lstrip (rev (int_lstrip s))).

(** [int(s)] in base ten. *)
Definition int (s : pystr) : res Z :=
  let t := int_strip s in
  let '(neg, body) :=
    match t with
    | 0x2D :: t' => (true, t')
    | 0x2B :: t' => (false, t')
    | _ => (false, t)
    end in
  match digits_value 0 false body with
  | Some n => Ok (if neg then (- Z.of_N n)%Z else Z.of_N n)
  | None => Raise ValueError
  end.

(** [s.translate(str.maketrans(xs, ys, zs))]. *)
Fixpoint trans_lookup (xs ys : pystr) (c : char) : char :=
  match xs, ys with
  | x :: xs', y :: ys' => if x =? c then y else trans_lookup xs' ys' c
  | _, _ => c
  end.

Definition translate (xs ys zs : pystr) (s : pystr) : pystr :=
  map (trans_lookup xs ys) (filter (fun c => negb (existsb (N.eqb c) zs)) s).

(** [zip_longest(a, b, fillvalue=fill)] and [zip(a, b)] on lists. *)
Fixpoint zip_longest {A} (fill : A) (a b : list A) {struct a} : list (A * A) :=
  match a with
  | [] => map (fun y => (fill, y)) b
  | x :: a' =>
      match b with
      | [] => (x, fill) :: zip_longest fill a' []
      | y :: b' => (x, y) :: zip_longest fill a' b'
      end
  end.

End Py.

Import Re.

(** Sequence of several sub-patterns. *)
Fixpoint Seqs (l : list regex) : regex :=
  match l with
  | [] => Eps
  | [r] => r
  | r :: l' => Seq r (Seqs l')
  end.

(** ** Classified diffs

    A raw diff is the list [[op, text]]; a classified diff is the list
    [[op, text, tag]] with the tag a plain string. *)

Record raw_diff := mkDiff { d_op : Z; d_text : pystr }.
Record entry := mkEntry { e_op : Z; e_text : pystr; e_tag : pystr }.

Definition set_d_text (t : pystr) (d : raw_diff) : raw_diff := mkDiff (d_op d) t.
Definition set_e_text (t : pystr) (e : entry) : entry := mkEntry (e_op e) t (e_tag e).

(** [result[-1][1] = f(result[-1][1])]. *)
Definition upd_last_text (f : pystr -> pystr) (result : list entry) : res (list entry) :=
  match rev result with
  | [] => Raise IndexError
  | e :: rest => Ok (rev rest ++ [set_e_text (f (e_text e)) e])
  end.

(** [diffs[j][1] = f(diffs[j][1])]. *)
Fixpoint upd_diff_text (j : nat) (f : pystr -> pystr) (diffs : list raw_diff) : res (list raw_diff) :=
  match diffs, j with
  | [], _ => Raise IndexError
  | d :: ds, O => Ok (set_d_text (f (d_text d)) d :: ds)
  | d :: ds, S j' => ds' <- upd_diff_text j' f ds ;; Ok (d :: ds')
  end.

(** ** Noise filter and marker extraction *)

Definition rm_noise_patterns : list regex :=
  [Chr U.nl; Plus true (Chr U.space); Plus false (Chr U.tseg)].

Definition rm_noise (diff : pystr) : pystr :=
  fold_left
    (fun result pattern =>
       match search pattern diff with
       | Some noise => Py.replace (m_text noise) [] None result
       | None => result
       end)
    rm_noise_patterns diff.

(** The pattern [{vol_num}\S*?(\d+)]. *)
Definition pg_no_pattern (vol_num : N) : regex :=
  Seqs [Lit (Py.str_of_N vol_num); Star false NonSpace; Grp 1 (Plus true Digit)].

Definition get_pg_ann (diff : pystr) (vol_num : N) : res pystr :=
  match search (pg_no_pattern vol_num) diff with
  | None => Raise AttributeError
  | Some pg_pat =>
      let pg_num := m_group 1 pg_pat in
      Ok (py "<p" ++ Py.str_of_N vol_num ++ py "-" ++ pg_num ++ py ">")
  end.

Definition abs_marker_patterns : list regex :=
  [Plus true (Range U.circ1 U.circ0); Plus true (Range U.tib0 U.tib9);
   Plus true (Range 0x30 0x39)].

Definition get_abs_marker (diff : pystr) : pystr :=
  fold_left
    (fun marker_ pattern =>
       match search pattern diff with
       | Some marker => marker_ ++ m_text marker
       | None => marker_
       end)
    abs_marker_patterns [].

(** The explicit marker tag [<m...>] with a lazy payload group, and a
    whole line that holds the placeholder [#], as one group. *)
Definition excep_marker_patterns : list regex :=
  [Seqs [Lit (py "<m"); Grp 1 (Plus false Dot); Chr U.gt];
   Grp 1 (Seqs [Star true Dot; Chr U.hash; Star true Dot])].

Definition get_excep_marker (diff : pystr) : pystr :=
  fold_left
    (fun marker_ pattern =>
       match search pattern diff with
       | Some marker => m_group 1 marker
       | None => marker_
       end)
    excep_marker_patterns [].

(** ** Script classifiers *)

Definition punct_list : list pystr :=
  [[U.tseg]; [U.shad]; [U.ter_tsheg]; [U.colon]; [U.shad; U.space; U.shad];
   [U.yig_mgo]; [U.yig_mgo2]].

Definition is_punct (char : pystr) : bool := existsb (str_eqb char) punct_list.

Definition vowels : list char := [0x0F74; 0x0F72; 0x0F7A; 0x0F7C].

Definition isvowel (char : pystr) : bool :=
  fold_left (fun flag pattern => if found (Chr pattern) char then true else flag)
            vowels false.

Definition is_midsyl (left_diff right_diff : pystr) : bool :=
  if Py.truthy left_diff then
    let right_diff_text := Py.replace [U.nl] [] None right_diff in
    let left_diff_text := Py.replace [U.nl] [] None left_diff in
    if negb (Py.truthy right_diff_text) || negb (Py.truthy left_diff_text) then false
    else
      match Py.last_char left_diff_text, Py.first_char right_diff_text with
      | Ok l, Ok r => negb (is_punct [l]) && negb (is_punct [r])
      | _, _ => false
      end
  else false.

Definition tag_marker : pystr := py "marker".

(** The backward walk [i = -1, -2, ...] over [result]; running off the
    front of the list is an [IndexError]. *)
Fixpoint double_mid_syl_marker_from (rev_result : list entry) : res bool :=
  match rev_result with
  | [] => Raise IndexError
  | e :: rest =>
      if is_punct (e_text e) then Ok true
      else if str_eqb (e_tag e) tag_marker then Ok false
      else double_mid_syl_marker_from rest
  end.

Definition double_mid_syl_marker (result : list entry) : res bool :=
  double_mid_syl_marker_from (rev result).

(** The pattern [(་|།)] of both [re.split] calls. *)
Definition syl_sep : regex := Grp 1 (Alt (Chr U.tseg) (Chr U.shad)).

(** [f"{marker_type}"] for the optional argument. *)
Definition fmt_marker_type (marker_type : option pystr) : pystr :=
  match marker_type with
  | Some t => t
  | None => py "None"
  end.

(** The step shared by both vowel branches of [handle_mid_syl]. *)
Definition move_first_syl (result : list entry) (diffs : list raw_diff) (i : nat)
           (right_diff_text : pystr) (new : entry) : res (list entry * list raw_diff) :=
  let syls := split syl_sep [1%nat] right_diff_text in
  first_syl <- Py.index syls 0 ;;
  result1 <- upd_last_text (fun t => t ++ first_syl) result ;;
  diffs1 <- upd_diff_text (i + 1) (skipn (List.length first_syl)) diffs ;;
  Ok (result1 ++ [new], diffs1).

Definition handle_mid_syl (result : list entry) (diffs : list raw_diff) (left_diff : raw_diff)
           (i : nat) (diff : raw_diff) (right_diff_text : pystr)
           (marker_type : option pystr) : res (list entry * list raw_diff) :=
  dm <- double_mid_syl_marker result ;;
  if dm : bool then
    let diff_ := rm_noise (d_text diff) in
    let new := mkEntry 1 diff_ (fmt_marker_type marker_type) in
    l_last <- Py.last_char (d_text left_diff) ;;
    if l_last =? U.space then
      let lasttwo := Py.take_last 2 (d_text left_diff) in
      result1 <- upd_last_text (Py.drop_last 2) result ;;
      diffs1 <- upd_diff_text (i + 1) (fun t => lasttwo ++ t) diffs ;;
      Ok (result1 ++ [new], diffs1)
    else
      r_first <- Py.first_char right_diff_text ;;
      if r_first =? U.space then Ok (result ++ [new], diffs)
      else if isvowel [l_last] then move_first_syl result diffs i right_diff_text new
      else if isvowel [r_first] then move_first_syl result diffs i right_diff_text new
      else if negb (d_op left_diff =? 1)%Z then
        let lastsyl := last (Py.split U.tseg (d_text left_diff)) [] in
        result1 <- upd_last_text (Py.slice_to_neg (List.length lastsyl)) result ;;
        diffs1 <- upd_diff_text (i + 1) (fun t => lastsyl ++ t) diffs ;;
        Ok (result1 ++ [new], diffs1)
      else Ok (result, diffs)
  else Ok (result, diffs).

Definition tseg_shifter (result : list entry) (diffs : list raw_diff)
           (left_diff_text : pystr) (i : nat) (right_diff_text : pystr)
  : res (list entry * list raw_diff) :=
  r_first <- Py.first_char right_diff_text ;;
  if (r_first =? U.tseg) && negb (is_punct left_diff_text) then
    result1 <- upd_last_text (fun t => t ++ [U.tseg]) result ;;
    diffs1 <- upd_diff_text (i + 1) (skipn 1) diffs ;;
    Ok (result1, diffs1)
  else Ok (result, diffs).

Definition get_marker (diff : pystr) : pystr :=
  if Py.truthy (get_abs_marker diff) then get_abs_marker diff
  else if Py.truthy (get_excep_marker diff) then get_excep_marker diff
  else [].

(** ** Numeral resolver *)

Definition circle_num : list (pystr * pystr) :=
  [([0x24EA], py "0"); ([0x2460], py "1"); ([0x2461], py "2");
   ([0x2462], py "3"); ([0x2463], py "4"); ([0x2464], py "5");
   ([0x2465], py "6"); ([0x2466], py "7"); ([0x2467], py "8");
   ([0x2468], py "9"); ([0x2469], py "10"); ([0x246A], py "11");
   ([0x246B], py "12"); ([0x246C], py "13"); ([0x246D], py "14");
   ([0x246E], py "15"); ([0x246F], py "16"); ([0x2470], py "17");
   ([0x2471], py "18"); ([0x2472], py "19"); ([0x2473], py "20")].

(** The result is a string or, for a glyph of the range that the table
    lacks, Python's [None]. *)
Definition is_circle_number (footnotes_marker : pystr) : option pystr :=
  match search (Range U.circ1 U.circ0) footnotes_marker with
  | Some number => Py.dict_get circle_num (m_text number)
  | None => Some []
  end.

Definition tib_num : list (pystr * pystr) :=
  [([0x0F20], py "0"); ([0x0F21], py "1"); ([0x0F22], py "2");
   ([0x0F23], py "3"); ([0x0F24], py "4"); ([0x0F25], py "5");
   ([0x0F26], py "6"); ([0x0F27], py "7"); ([0x0F28], py "8");
   ([0x0F29], py "9")].

(** The guard pattern: digits, then non-blank characters, then digits. *)
Definition two_numbers : regex :=
  Seqs [Plus true Digit; Plus true NonSpace; Grp 1 (Plus true Digit)].

(** [value += tib_num.get(number[0])] with an absent key adds [None] to a
    string, a [TypeError]. *)
Definition translate_tib_number (footnotes_marker : pystr) : res pystr :=
  if found two_numbers footnotes_marker then Ok []
  else
    fold_left
      (fun acc number =>
         value <- acc ;;
         if found (Range U.tib0 U.tib9) (m_text number) then
           match Py.dict_get tib_num (m_text number) with
           | Some v => Ok (value ++ v)
           | None => Raise TypeError
           end
         else Ok (value ++ m_text number))
      (finditer Digit footnotes_marker) (Ok []).

Definition get_value (footnotes_marker : pystr) : res pystr :=
  match is_circle_number footnotes_marker with
  | Some ((_ :: _) as value) => Ok value
  | _ =>
      value <- translate_tib_number footnotes_marker ;;
      if Py.truthy value then Ok value else Ok []
  end.

(** ** Body reassembly *)

(** The boundary token [<p\S+?>] and any tag [<.+?>]. *)
Definition page_ann_re : regex := Seqs [Lit (py "<p"); Plus false NonSpace; Chr U.gt].
Definition tag_re : regex := Seqs [Chr U.lt; Plus false Dot; Chr U.gt].

(** [s[1:-1]] *)
Definition inner (s : pystr) : pystr := firstn (List.length s - 2) (tl s).

(** The numbering loop, which [reformatting_body] and
    [postprocess_footnotes] both run over one page: the markers are found
    in the page as it was on entry, and each is replaced at its first
    occurrence in the page as rewritten so far. *)
Definition number_markers (page : pystr) : pystr :=
  fold_left
    (fun page '(i, marker) =>
       let repl := py "<" ++ Py.str_of_N (N.of_nat i) ++ py "," ++ inner (m_text marker) ++ py ">" in
       Py.replace (m_text marker) repl (Some 1%nat) page)
    (combine (seq 1 (List.length (finditer tag_re page))) (finditer tag_re page))
    page.

Definition reformatting_body (text : pystr) : pystr :=
  let page_anns := findall page_ann_re text in
  let pages := split page_ann_re [] text in
  fold_left
    (fun result '(page, ann) => result ++ number_markers page ++ ann)
    (Py.zip_longest [] pages page_anns) [].

(** ** Marker-noise stripper *)

Definition rm_marker_patterns : list regex :=
  [Chr U.copyright; Chr U.registered; Chr U.ldquote; Chr U.bullet;
   Range U.tib0 U.tib9;
   Cls (fun c => in_range 0x61 0x7A c || in_range 0x41 0x5A c);
   Chr U.rparen; Chr U.lparen; Plus true (Chr U.space); Chr U.at_sign;
   Plus false (Chr U.tseg); Lit [U.shad; U.space; U.shad]; Digit;
   Chr U.shad; Lit [U.yig_mgo; U.yig_mgo2]].

Definition rm_marker (diff : pystr) : pystr :=
  fold_left
    (fun result pattern =>
       if found pattern diff then sub pattern (fun _ => []) result else result)
    rm_marker_patterns diff.

(** ** Footnote reassembly *)

Definition circled : regex := Range U.circ1 U.circ0.
Definition tag_tail : regex := Seq (Chr U.gt) (Plus true Dot).
Definition numbered_head : regex := Seqs [Lit (U.nl :: py "<"); Plus true Digit; Chr U.comma].

(** The rewrite rules: a pattern and the groups its template chains. *)
Definition demultiply_patterns : list (regex * list nat) :=
  [(Seqs [Grp 1 numbered_head; Grp 2 circled; Grp 3 circled; Grp 4 circled;
          Grp 5 circled; Grp 6 circled; Grp 7 tag_tail],
    [1; 2; 7; 1; 3; 7; 1; 4; 7; 1; 5; 7; 1; 6; 7]%nat);
   (Seqs [Grp 1 (Lit (U.nl :: py "<m")); Grp 2 (Range U.circ1 U.circ9);
          Grp 3 (Range U.circ1 U.circ9); Grp 4 tag_tail],
    [1; 2; 4; 1; 3; 4]%nat);
   (Seqs [Grp 1 numbered_head; Grp 2 circled; Grp 3 circled; Grp 4 circled;
          Grp 5 circled; Grp 6 tag_tail],
    [1; 2; 6; 1; 3; 6; 1; 4; 6; 1; 5; 6]%nat);
   (Seqs [Grp 1 numbered_head; Grp 2 circled; Grp 3 circled; Grp 4 circled;
          Grp 5 tag_tail],
    [1; 2; 5; 1; 3; 5; 1; 4; 5]%nat);
   (Seqs [Grp 1 numbered_head; Grp 2 circled; Grp 3 circled; Grp 4 tag_tail],
    [1; 2; 4; 1; 3; 4]%nat)].

Definition expand (template : list nat) (m : rmatch) : pystr :=
  List.concat (map (fun g => m_group g m) template).

Definition demultiply_diffs (text : pystr) : pystr :=
  fold_left (fun text p => sub (fst p) (expand (snd p)) text) demultiply_patterns text.

Definition reformat_footnotes (text : pystr) : pystr :=
  let text := Py.replace [U.nl] [] None text in
  let text := sub (Grp 1 (Plus true (Chr U.lt))) (fun m => U.nl :: m_group 1 m) text in
  demultiply_diffs text.

(** The page reference [<r.+?>]; a tag followed by one more character. *)
Definition page_ref_re : regex := Seqs [Lit (py "<r"); Plus false Dot; Chr U.gt].
Definition noted_tag_re : regex := Seq tag_re (Grp 1 (Plus false Dot)).

Definition tib_digits_1_to_0 : pystr :=
  [0x0F21; 0x0F22; 0x0F23; 0x0F24; 0x0F25; 0x0F26; 0x0F27; 0x0F28; 0x0F29; 0x0F20].

(** One page of the footnote table: renumber, cut into stripped lines,
    drop the empty lines and the bare tags. *)
Definition page_footnotes (page : pystr) : list pystr :=
  let page := number_markers page in
  let marker_list := map Py.strip (Py.splitlines page) in
  filter
    (fun marker =>
       Py.truthy marker &&
       (found noted_tag_re marker || negb (Py.contains [U.lt] marker)))
    marker_list.

(** The dict [footnote_result], in insertion order. *)
Fixpoint number_pages (walker : Z) (pages : list pystr) : list (Z * list pystr) :=
  match pages with
  | [] => []
  | page :: rest => (walker, page_footnotes page) :: number_pages (walker + 1) rest
  end.

Definition postprocess_footnotes (footnotes : pystr) (vol_num : N)
  : res (list (Z * list pystr)) :=
  let page_refs := findall page_ref_re footnotes in
  let pages := tl (split page_ref_re [] footnotes) in
  first_ref <- Py.index page_refs 0 ;;
  start <- Py.int (Py.translate tib_digits_1_to_0 (py "1234567890") (py "<r>") first_ref) ;;
  Ok (number_pages start (map fst (Py.zip_longest [] pages page_refs))).

(** ** Page merger *)

(** A marker that holds a boundary token: [<p.+>], greedy. *)
Definition page_tag_re : regex := Seqs [Lit (py "<p"); Plus true Dot; Chr U.gt].

(** [try: xs[1] except Exception: ""]. *)
Definition second_or_empty (xs : list pystr) : pystr := nth 1 xs [].

(** The two replacements computed for one (marker, footnote) pair. *)
Definition merge_repl (marker : rmatch) (foot_note : pystr) : res (pystr * pystr) :=
  if found page_tag_re (m_text marker) then Ok (m_text marker, m_text marker)
  else
    let marker_parts := Py.split U.comma (inner (m_text marker)) in
    body_incremental <- Py.index marker_parts 0 ;;
    body_value <- Py.index marker_parts 1 ;;
    let footnotes_parts := Py.split U.gt foot_note in
    part0 <- Py.index footnotes_parts 0 ;;
    head <- Py.index (Py.split U.comma part0) 0 ;;
    let footnotes_incremental := tl head in
    let footnotes_value := second_or_empty (Py.split U.comma part0) in
    let note := second_or_empty footnotes_parts in
    Ok (py "<" ++ body_incremental ++ py "," ++ body_value ++ py ";"
           ++ footnotes_incremental ++ py "," ++ footnotes_value ++ py ","
           ++ note ++ py ">",
        py "<" ++ note ++ py ">").

Definition merge_step (acc : res (pystr * pystr)) (pair : rmatch * pystr)
  : res (pystr * pystr) :=
  '(with_marker, without_marker) <- acc ;;
  '(repl1, repl2) <- merge_repl (fst pair) (snd pair) ;;
  Ok (Py.replace (m_text (fst pair)) repl1 (Some 1%nat) with_marker,
      Py.replace (m_text (fst pair)) repl2 (Some 1%nat) without_marker).

Definition merge_footnotes_per_page (page : pystr) (foot_notes : list pystr)
  : res (pystr * pystr) :=
  let markers := finditer tag_re page in
  fold_left merge_step (combine markers foot_notes) (Ok (page, page)).

(** ** Page number *)

Definition page_num_re (vol : N) : regex :=
  Seqs [Lit (py "<p"); Lit (Py.str_of_N vol); Chr U.minus; Grp 1 (Plus true Digit);
        Chr U.gt].

Definition get_page_num (body_text : pystr) (vol_num : N) : res Z :=
  match search (page_num_re vol_num) body_text with
  | None => Raise AttributeError
  | Some pg_pat => Py.int (m_group 1 pg_pat)
  end.

(** ** Body diff classifier *)

Definition tag_page : pystr := py "pedurma-page".

Definition double_marker_handler (result : list entry) : list entry :=
  if (3 <? List.length result)%nat then
    match rev result with
    | cur :: prev1 :: prev2 :: _ =>
        if str_eqb (e_tag cur) tag_marker
           && (str_eqb (e_tag prev2) tag_marker
               && existsb (str_eqb (e_text prev1)) [[U.nl]; [U.space]; []; [U.shad]])
        then removelast result
        else result
    | _ => result
    end
  else result.

(** The page-number pattern: the volume, an optional tseg, one non-digit,
    an optional tseg, digits. *)
Definition page_pattern (vol_num : N) : regex :=
  Seqs [Lit (Py.str_of_N vol_num); Opt (Chr U.tseg); NonDigit; Opt (Chr U.tseg);
        Plus true Digit].

Definition ske : pystr := [0x0F66; 0x0F90; 0x0F7A].
Definition zhabs_kyu : pystr := [0x0F74].

(** The loop state of [filter_diffs].  [left_diff] and [right_diff] are
    names bound to elements of [diffs], so they are kept as positions and
    read through the current [diffs]; [left_diff] starts as the literal
    [[0, ""]] and [right_diff] starts unbound. *)
Record fstate := mkF {
  st_result : list entry;
  st_diffs : list raw_diff;
  st_left : option nat;
  st_right : option nat
}.

Definition deref_left (st : fstate) : raw_diff :=
  match st_left st with
  | None => mkDiff 0 []
  | Some j => nth j (st_diffs st) (mkDiff 0 [])
  end.

Definition deref_right (st : fstate) : res raw_diff :=
  match st_right st with
  | None => Raise NameError
  | Some j => Py.index (st_diffs st) j
  end.

(** [tseg_shifter(...)] followed by [result.append([1, diff_, "marker"])]. *)
Definition shift_and_mark (result : list entry) (diffs : list raw_diff)
           (left_diff_text : pystr) (i : nat) (right_diff_text diff_ : pystr)
  : res (list entry * list raw_diff) :=
  '(result1, diffs1) <- tseg_shifter result diffs left_diff_text i right_diff_text ;;
  Ok (result1 ++ [mkEntry 1 diff_ tag_marker], diffs1).

(** One [OnlySource] diff that is not a page number.  The boolean tells
    whether the iteration reaches [double_marker_handler] ([continue]
    leaves before it). *)
Definition classify_source (st : fstate) (i : nat) (diff : raw_diff)
  : res (list entry * list raw_diff * bool) :=
  let result := st_result st in
  let diffs := st_diffs st in
  let diff_text := d_text diff in
  let left_diff := deref_left st in
  let left_diff_type := d_op left_diff in
  let left_diff_text := d_text left_diff in
  right_diff <- deref_right st ;;
  let right_diff_type := d_op right_diff in
  let right_diff_text := d_text right_diff in
  let diff_ := rm_noise diff_text in
  let repaired (r : res (list entry * list raw_diff)) :=
    '(result1, diffs1) <- r ;; Ok (result1, diffs1, true) in
  let mid := handle_mid_syl result diffs left_diff i diff right_diff_text (Some tag_marker) in
  let shifted := shift_and_mark result diffs left_diff_text i right_diff_text diff_ in
  if (left_diff_type =? 0)%Z && (right_diff_type =? 0)%Z then
    if is_midsyl left_diff_text right_diff_text && Py.truthy (get_marker diff_text)
    then repaired mid
    else if Py.truthy (get_marker diff_text) then repaired shifted
    else if Py.truthy diff_ then
      if (existsb (N.eqb U.nga) (Py.take_last 3 left_diff_text) && str_eqb diff_ ske)
         || str_eqb diff_ zhabs_kyu
      then Ok (result, diffs, false)
      else if is_midsyl left_diff_text right_diff_text then repaired mid
      else repaired shifted
    else Ok (result, diffs, true)
  else if (right_diff_type =? 1)%Z then
    if is_midsyl left_diff_text right_diff_text && Py.truthy (get_marker diff_text)
    then repaired mid
    else if Py.truthy (get_marker diff_text) then repaired shifted
    else if Py.truthy diff_
            && existsb (str_eqb right_diff_text) [[U.nl]; [U.space]; [U.tseg]]
    then
      if existsb (N.eqb U.nga) (Py.take_last 2 left_diff_text) && str_eqb diff_ ske
      then Ok (result, diffs, false)
      else if is_midsyl left_diff_text right_diff_text then repaired mid
      else repaired shifted
    else Ok (result, diffs, true)
  else Ok (result, diffs, true).

Definition filter_step (vol_num : N) (st : fstate) (i : nat) : res fstate :=
  diff <- Py.index (st_diffs st) i ;;
  let plain := mkF (st_result st ++ [mkEntry (d_op diff) (d_text diff) []])
                   (st_diffs st) (st_left st) (st_right st) in
  if (d_op diff =? 0)%Z then Ok plain
  else if (d_op diff =? 1)%Z then Ok plain
  else if (d_op diff =? -1)%Z then
    if found (page_pattern vol_num) (d_text diff) then
      Ok (mkF (st_result st ++ [mkEntry 1 (d_text diff) tag_page])
              (st_diffs st) (st_left st) (st_right st))
    else
      let left := if (0 <? i)%nat then Some (i - 1)%nat else st_left st in
      let right := if (i <? List.length (st_diffs st) - 1)%nat then Some (i + 1)%nat
                   else st_right st in
      let st1 := mkF (st_result st) (st_diffs st) left right in
      '(result1, diffs1, handled) <- classify_source st1 i diff ;;
      Ok (mkF (if handled : bool then double_marker_handler result1 else result1)
              diffs1 left right)
  else Ok st.

Definition filter_diffs (diffs_list : list raw_diff) (vol_num : N) : res (list entry) :=
  st <- fold_left (fun acc i => st <- acc ;; filter_step vol_num st i)
                  (seq 0 (List.length diffs_list))
                  (Ok (mkF [] diffs_list None None)) ;;
  Ok (st_result st).


(** ** Declarative reading of the patterns *)

(** [matches r s s'] : the pattern [r] can read a prefix of [s] and leave
    [s'], whatever the priorities. *)
Inductive matches : regex -> pystr -> pystr -> Prop :=
| M_eps s : matches Eps s s
| M_cls (p : char -> bool) x s : p x = true -> matches (Cls p) (x :: s) s
| M_seq a b s s1 s2 :
    matches a s s1 -> matches b s1 s2 -> matches (Seq a b) s s2
| M_alt_l a b s s1 : matches a s s1 -> matches (Alt a b) s s1
| M_alt_r a b s s1 : matches b s s1 -> matches (Alt a b) s s1
| M_star_stop g a s : matches (Star g a) s s
| M_star_more g a s s1 s2 :
    matches a s s1 -> (List.length s1 < List.length s)%nat ->
    matches (Star g a) s1 s2 -> matches (Star g a) s s2
| M_grp n a s s1 : matches a s s1 -> matches (Grp n a) s s1.

#[local] Hint Constructors matches : core.

Definition loop_of {A} (a : regex) :=
  @star_loop A (fun s0 c0 k0 => bt a s0 c0 k0).


(** ** Notions of the specification *)

(** The glyphs the specification renders a value with: the circled
    numerals 0 to 20 and the Tibetan digits 0 to 9. *)
Definition circled_glyph (n : nat) : char :=
  match n with
  | O => U.circ0
  | S k => U.circ1 + N.of_nat k
  end.

Definition tibetan_digit (d : nat) : char := U.tib0 + N.of_nat d.


(** The decimal reading of a run of digit values, glyph by glyph. *)
Definition decimal_of_run (ds : list nat) : pystr :=
  List.concat (map (fun d => Py.str_of_N (N.of_nat d)) ds).

Definition tibetan_run (ds : list nat) : pystr := map tibetan_digit ds.

(** The composite tag of the demultiply example and its three lines. *)
Definition composite_tag : pystr :=
  py "<12," ++ [0x2460; 0x2461; 0x2462] ++ py ">note".

Definition single_tag (glyph : char) : pystr := py "<12," ++ [glyph] ++ py ">note".

Definition three_lines : list pystr :=
  [single_tag 0x2460; single_tag 0x2461; single_tag 0x2462].

(** Lines joined by a newline, and each led by a newline. *)
Definition join_lines (ls : list pystr) : pystr :=
  match ls with
  | [] => []
  | l :: rest => l ++ List.concat (map (fun x => U.nl :: x) rest)
  end.

Definition led_lines (ls : list pystr) : pystr :=
  List.concat (map (fun x => U.nl :: x) ls).

(** The footnote list padded with empty strings up to the number of
    marker tokens of the page, as the specification describes a shorter
    list. *)
Definition pad_notes (page : pystr) (foot_notes : list pystr) : list pystr :=
  foot_notes ++ repeat [] (List.length (finditer tag_re page) - List.length foot_notes).

(** The stages of [reconstruct_footnote] that follow the formatter:
    [new_text] is what the annotation transfer, the footnote classifier
    and [format_diff] hand over. *)
Definition reconstruct_footnote_from (new_text : pystr) (vol_num : N)
  : res (list (Z * list pystr)) :=
  postprocess_footnotes (reformat_footnotes new_text) vol_num.

(** The replacement that deletes a match, and one round of the loop of
    [rm_marker]. *)
Definition del : rmatch -> pystr := fun _ => [].

Definition rm_step (diff result : pystr) (pattern : regex) : pystr :=
  if found pattern diff then sub pattern del result else result.

(** A pattern that reads one or more characters of a class [p] and
    nothing else. *)
Definition class_like (p : char -> bool) (r : regex) : Prop :=
  (forall s s', matches r s s' ->
     exists q, s = q ++ s' /\ q <> [] /\ forallb p q = true) /\
  (forall x s, p x = true -> exists s', matches r (x :: s) s').

Definition glyph_pair : pystr := [U.yig_mgo; U.yig_mgo2].

(** The character classes that the one-class patterns of [rm_marker]
    delete, in the order of the patterns. *)
Definition rm_classes : list (char -> bool) :=
  [N.eqb U.copyright; N.eqb U.registered; N.eqb U.ldquote; N.eqb U.bullet;
   in_range U.tib0 U.tib9;
   (fun c => in_range 0x61 0x7A c || in_range 0x41 0x5A c);
   N.eqb U.rparen; N.eqb U.lparen; N.eqb U.space; N.eqb U.at_sign;
   N.eqb U.tseg; is_decimal; N.eqb U.shad].

Definition stripped (u : pystr) : Prop :=
  Forall (fun c => existsb (fun p => p c) rm_classes = false) u.

(** The boundary token as the specification writes it, with the volume
    and the page in decimal, and as [get_pg_ann] writes it. *)
Definition spec_page_token (vol page : N) : pystr :=
  py "<" ++ Py.str_of_N vol ++ py "-" ++ Py.str_of_N page ++ py ">".

Definition page_token (vol page : N) : pystr :=
  py "<p" ++ Py.str_of_N vol ++ py "-" ++ Py.str_of_N page ++ py ">".

(** The text of a page-number diff: the volume, a hyphen, the page. *)
Definition page_diff_text (vol page : N) : pystr :=
  Py.str_of_N vol ++ py "-" ++ Py.str_of_N page.






(** A mid-syllable call and a tseg-shift call as [filter_diffs] makes
    them: a circled one between a syllable that ends in a vowel sign and
    the rest of that syllable, and a circled one before a tseg. *)
Definition midsyl_diffs : list raw_diff :=
  [mkDiff 0 [U.shad]; mkDiff 0 [0x0F40; 0x0F72]; mkDiff (-1) [U.circ1];
   mkDiff 0 [0x0F66; U.tseg; 0x0F41]].

Definition tseg_diffs : list raw_diff :=
  [mkDiff 0 [0x0F40]; mkDiff (-1) [U.circ1]; mkDiff 0 [U.tseg; 0x0F41]].

(** A rendered page-boundary token of a volume somewhere in a text, with
    any non-empty run of decimal glyphs as page number, and a
    page-reference token [<r...>] somewhere in a text. *)
Definition has_page_token (vol : N) (text : pystr) : Prop :=
  exists pre n post,
    n <> [] /\ forallb is_decimal n = true /\
    text = pre ++ py "<p" ++ Py.str_of_N vol ++ py "-" ++ n ++ py ">" ++ post.

Definition has_page_ref (text : pystr) : Prop :=
  exists pre q post,
    q <> [] /\ forallb (fun c => negb (c =? U.nl)) q = true /\
    text = pre ++ py "<r" ++ q ++ py ">" ++ post.

(** * The rest of the module *)

(** ** Header of the Google OCR *)

(** [a{1,n}], greedy: one [a], then up to [n - 1] more. *)
Fixpoint Upto (more : nat) (a : regex) : regex :=
  match more with
  | O => a
  | S k => Seq a (Opt (Upto k a))
  end.

(** Four newlines (the fourth up to eighteen times), a line, and up to
    four short lines. *)
Definition header_pattern : regex :=
  Seqs [Lit [U.nl; U.nl; U.nl]; Upto 17 (Chr U.nl); Plus true Dot; Chr U.nl;
        Opt (Grp 1 (Seq (Upto 29 Dot) (Chr U.nl)));
        Opt (Grp 2 (Seq (Upto 14 Dot) (Chr U.nl)));
        Opt (Grp 3 (Seq (Upto 14 Dot) (Chr U.nl)));
        Opt (Grp 4 (Seq (Upto 14 Dot) (Chr U.nl)))].

Definition rm_google_ocr_header (text : pystr) : pystr :=
  sub header_pattern (fun _ => [U.nl; U.nl; U.nl]) text.

(** ** Note or marker *)

Definition is_note_patterns : list regex :=
  [Range U.circ1 U.circ20; Range U.tib0 U.tib9; Chr U.rparen; Chr U.lparen;
   Digit; Chr U.circ0].

Definition is_note (diff : pystr) : bool :=
  fold_left (fun flag pattern => if found pattern diff then false else flag)
            is_note_patterns true.

(** ** Formatter *)

Definition tag_pg_ref : pystr := py "pg_ref".

(** What one classified diff adds to the formatted text. *)
Definition format_piece (vol_num : N) (e : entry) : res pystr :=
  let diff_type := e_op e in
  let diff_text := e_text e in
  let diff_tag := e_tag e in
  if (diff_type =? 1)%Z || (diff_type =? 0)%Z then
    if Py.truthy diff_tag then
      page <- (if str_eqb diff_tag tag_page then get_pg_ann diff_text vol_num
               else Ok []) ;;
      if str_eqb diff_tag tag_marker then
        if Py.truthy (get_abs_marker diff_text) then
          let marker := get_abs_marker diff_text in
          value <- get_value marker ;;
          Ok (page ++ py "<" ++ value ++ py "," ++ marker ++ py ">")
        else if Py.truthy (get_excep_marker diff_text) then
          let marker := get_excep_marker diff_text in
          Ok (page ++ py "<" ++ marker ++ py ">")
        else Ok (page ++ py "<" ++ diff_text ++ py ">")
      else if str_eqb diff_tag tag_pg_ref then Ok (page ++ diff_text)
      else Ok page
    else Ok diff_text
  else Ok [].

Definition format_diff (filter_diffs : list entry) (vol_num : N) : res pystr :=
  fold_left
    (fun acc e => result <- acc ;; piece <- format_piece vol_num e ;; Ok (result ++ piece))
    filter_diffs (Ok []).

(** ** Footnote diff classifier *)

(** Two decimal glyphs in a row, and the characters that the marker of a
    4 loses: all but [4], the bar and the newline. *)
Definition two_digits : regex := Seq Digit Digit.
Definition not_four : regex :=
  Cls (fun c => negb ((c =? 0x34) || (c =? 0x7C) || (c =? U.nl))).

(** The loop state: the entries kept so far and the positions that the
    names [left_diff] and [right_diff] are bound to ([left_diff] starts as
    the literal [[0, "", ""]], [right_diff] unbound). *)
Record nstate := mkN {
  ns_filtered : list entry;
  ns_left : option nat;
  ns_right : option nat
}.

Definition footnote_step (diffs : list entry) (st : nstate) (i : nat) : res nstate :=
  diff <- Py.index diffs i ;;
  let diff_text := e_text diff in
  if (e_op diff =? 0)%Z then Ok (mkN (ns_filtered st ++ [diff]) (ns_left st) (ns_right st))
  else if (e_op diff =? 1)%Z then
    let left := if (0 <? i)%nat then Some (i - 1)%nat else ns_left st in
    let right := if (i <? List.length diffs - 1)%nat then Some (i + 1)%nat
                 else ns_right st in
    let left_diff :=
      match left with
      | None => mkEntry 0 [] []
      | Some j => nth j diffs (mkEntry 0 [] [])
      end in
    let left_diff_tag := e_tag left_diff in
    if negb (str_eqb left_diff_tag tag_marker) && negb (str_eqb left_diff_tag tag_page) then
      if existsb (N.eqb 0x34) diff_text then
        right_diff <- match right with
                      | None => Raise NameError
                      | Some j => Py.index diffs j
                      end ;;
        let right_diff_text := rm_noise (e_text right_diff) in
        if found two_digits diff_text || negb (Py.truthy right_diff_text)
        then Ok (mkN (ns_filtered st) left right)
        else
          let clean_diff := sub not_four del diff_text in
          Ok (mkN (ns_filtered st ++ [mkEntry 0 clean_diff tag_marker]) left right)
      else
        (* the stripped text is bound to a local name and not used *)
        let diff_text := rm_marker diff_text in
        Ok (mkN (ns_filtered st ++ [diff]) left right)
    else Ok (mkN (ns_filtered st) left right)
  else Ok (mkN (ns_filtered st ++ [diff]) (ns_left st) (ns_right st)).

Definition filter_footnotes_diffs (diffs_list : list entry) (vol_num : N)
  : res (list entry) :=
  st <- fold_left (fun acc i => st <- acc ;; footnote_step diffs_list st i)
                  (seq 0 (List.length diffs_list))
                  (Ok (mkN [] None None)) ;;
  Ok (ns_filtered st).

(** ** The two reconstructions behind their engines

    [reconstruct_body] after the diff engine, and [reconstruct_footnote]
    after the annotation transfer: the argument is the list of diffs that
    the engine returned. *)
Definition reconstruct_body_from (diffs_list : list raw_diff) (vol_num : N) : res pystr :=
  filtered_diffs <- filter_diffs diffs_list vol_num ;;
  new_text <- format_diff filtered_diffs vol_num ;;
  Ok (reformatting_body new_text).

Definition reconstruct_footnote_of (diffs_list : list entry) (vol_num : N)
  : res (list (Z * list pystr)) :=
  filtered_diffs <- filter_footnotes_diffs diffs_list vol_num ;;
  new_text <- format_diff filtered_diffs vol_num ;;
  reconstruct_footnote_from new_text vol_num.

(** ** Notions used to state the further properties *)

(** An entry that the backward walk of [double_mid_syl_marker] passes:
    its text is no punctuation and its tag is not the marker tag. *)
Definition passed_entry (e : entry) : Prop :=
  is_punct (e_text e) = false /\ str_eqb (e_tag e) tag_marker = false.

(** A diff that [filter_diffs] settles without looking at its
    neighbours: equal or target-only ([plain_diff]), or a source-only
    page number; and the entry it becomes. *)
Definition plain_diff (d : raw_diff) : Prop := d_op d = 0%Z \/ d_op d = 1%Z.

Definition settled_diff (vol_num : N) (d : raw_diff) : Prop :=
  plain_diff d \/
  (d_op d = (-1)%Z /\ found (page_pattern vol_num) (d_text d) = true).

Definition untagged (d : raw_diff) : entry := mkEntry (d_op d) (d_text d) [].

Definition settled_entry (d : raw_diff) : entry :=
  if (d_op d =? -1)%Z then mkEntry 1 (d_text d) tag_page else untagged d.

Definition copied_op (e : entry) : bool := (e_op e =? 1)%Z || (e_op e =? 0)%Z.

(** The glyphs that make an absolute marker: the circled range, the
    Tibetan digits and the ASCII digits. *)
Definition abs_class (c : char) : bool :=
  in_range U.circ1 U.circ0 c || in_range U.tib0 U.tib9 c || in_range 0x30 0x39 c.

(** A decimal glyph as [translate_tib_number] writes it: a Tibetan digit
    as its ASCII digit, any other glyph as it is. *)
Definition tib_to_ascii (c : char) : char :=
  if in_range U.tib0 U.tib9 c then c - U.tib0 + 0x30 else c.

(** The text of the first match of a pattern, or the empty string. *)
Definition first_run (r : regex) (diff : pystr) : pystr :=
  match search r diff with
  | Some m => m_text m
  | None => []
  end.

(** The tags after which the footnote classifier takes no insert, and
    an entry whose text holds the digit 4. *)
Definition blocks_insert (left_tag : pystr) : bool :=
  str_eqb left_tag tag_marker || str_eqb left_tag tag_page.

Definition has_four (e : entry) : bool := existsb (N.eqb 0x34) (e_text e).

(** The tag of the entry before the current one; the empty tag of the
    literal [[0, "", ""]] at the front. *)
Definition last_tag (pre : list entry) : pystr := e_tag (last pre (mkEntry 0 [] [])).

(** The entries of a list save the inserts that follow a marker or a
    page entry. *)
Fixpoint kept_after (left_tag : pystr) (diffs : list entry) : list entry :=
  match diffs with
  | [] => []
  | d :: rest =>
      (if (e_op d =? 1)%Z && blocks_insert left_tag then [] else [d])
      ++ kept_after (e_tag d) rest
  end.

(** A marker entry made of a 4: equal op, marker tag, and a text of
    [4], [|] and newline only. *)
Definition four_marker (e : entry) : Prop :=
  e_op e = 0%Z /\ e_tag e = tag_marker /\
  Forall (fun c => c = 0x34 \/ c = 0x7C \/ c = U.nl) (e_text e).

(** The text of a tag: not empty, no [>] and no newline inside. *)
Definition tag_body (body : pystr) : Prop :=
  body <> [] /\ Forall (fun c => c <> U.gt /\ c <> U.nl) body.

(** A tag text that begins with the letter [p] of a page boundary. *)
Definition starts_with_p (body : pystr) : Prop := exists rest : pystr, body = 0x70 :: rest.

(** A field of a tag: no angle bracket, no comma and no newline. *)
Definition field (s : pystr) : Prop :=
  Forall (fun c => c <> U.lt /\ c <> U.gt /\ c <> U.comma /\ c <> U.nl) s.

(** The glyphs that make a text a marker for [is_note]: a circled
    numeral, a decimal digit or a parenthesis. *)
Definition marker_glyph (c : char) : bool :=
  in_range U.circ1 U.circ20 c || (c =? U.circ0) || is_decimal c
  || (c =? U.rparen) || (c =? U.lparen).

(** An entry as the body classifier makes them: equal or insert, with no
    tag, the marker tag or the page tag. *)
Definition body_entry (e : entry) : Prop :=
  (e_op e = 0%Z \/ e_op e = 1%Z) /\
  (e_tag e = [] \/ e_tag e = tag_marker \/ e_tag e = tag_page).

(** A numbered footnote tag at the start of a line: newline, [<], the
    number, a comma, the glyphs, [>] and the note. *)
Definition numbered_tag (digits glyphs note : pystr) : pystr :=
  U.nl :: U.lt :: digits ++ U.comma :: glyphs ++ U.gt :: note.

(** A text in which the boundary token of a page occurs. *)
Definition holds_token (vol page : N) (s : pystr) : Prop :=
  exists a b, s = a ++ page_token vol page ++ b.
(** * Properties *)

Lemma str_eqb_spec a b : str_eqb a b = true <-> a = b.
Proof.
  revert b; induction a as [|x a IH]; intros [|y b]; simpl; split;
    try congruence; try discriminate.
  - rewrite andb_true_iff, N.eqb_eq, IH. intros [-> ->]; reflexivity.
  - intros E; inversion E; subst. now rewrite N.eqb_refl, (proj2 (IH b) eq_refl).
Qed.

Lemma str_eqb_refl a : str_eqb a a = true.
Proof. now apply str_eqb_spec. Qed.


(** ** The matcher against a declarative reading of the patterns *)

Lemma matches_suffix r s s' : matches r s s' -> exists p, s = p ++ s'.
Proof.
  induction 1.
  - exists []; reflexivity.
  - exists [x]; reflexivity.
  - destruct IHmatches1 as [p1 ->], IHmatches2 as [p2 ->].
    exists (p1 ++ p2). now rewrite app_assoc.
  - assumption.
  - assumption.
  - exists []; reflexivity.
  - destruct IHmatches1 as [p1 ->], IHmatches2 as [p2 ->].
    exists (p1 ++ p2). now rewrite app_assoc.
  - assumption.
Qed.

Lemma bt_star {A} g a s c (k : pystr -> caps -> option A) :
  bt (Star g a) s c k = loop_of a g k (List.length s) s c.
Proof. reflexivity. Qed.

(** Soundness: a success of the matcher follows a declarative match. *)
Lemma bt_sound r :
  forall A s c (k : pystr -> caps -> option A) v,
    bt r s c k = Some v ->
    exists s' c', matches r s s' /\ k s' c' = Some v.
Proof.
  induction r as [|p|a IHa b IHb|a IHa b IHb|g a IHa|n a IHa]; intros A s c k v H.
  - simpl in H. eauto.
  - simpl in H. destruct s as [|x s]; [discriminate|].
    destruct (p x) eqn:Hp; [|discriminate]. eauto.
  - simpl in H. apply IHa in H. destruct H as (s1 & c1 & M1 & H).
    apply IHb in H. destruct H as (s2 & c2 & M2 & H). eauto.
  - simpl in H. destruct (bt a s c k) eqn:Ha.
    + inversion H; subst. apply IHa in Ha.
      destruct Ha as (s1 & c1 & M1 & Hk). eauto.
    + apply IHb in H. destruct H as (s1 & c1 & M1 & Hk). eauto.
  - rewrite bt_star in H. unfold loop_of in H.
    remember (List.length s) as fuel eqn:E. clear E.
    revert s c v H.
    induction fuel as [|f IHf]; intros s c v H.
    + simpl in H. destruct g.
      * eauto.
      * destruct (k s c) eqn:Hk; [inversion H; subst; eauto | discriminate].
    + simpl in H.
      assert (Hmore : forall w,
                 bt a s c (fun s' c' =>
                   if (List.length s' <? List.length s)%nat
                   then star_loop (fun s0 c0 k0 => bt a s0 c0 k0) g k f s' c'
                   else None) = Some w ->
                 exists s' c', matches (Star g a) s s' /\ k s' c' = Some w).
      { intros w Hw. apply IHa in Hw. destruct Hw as (s1 & c1 & M1 & Hw).
        destruct (List.length s1 <? List.length s)%nat eqn:Hlt; [|discriminate].
        apply Nat.ltb_lt in Hlt. apply IHf in Hw.
        destruct Hw as (s2 & c2 & M2 & Hk). eauto. }
      destruct g.
      * match type of H with
        | match ?e with _ => _ end = _ => destruct e eqn:He
        end.
        -- inversion H; subst. now apply Hmore.
        -- eauto.
      * destruct (k s c) eqn:Hk.
        -- inversion H; subst. eauto.
        -- now apply Hmore.
  - simpl in H. apply IHa in H. destruct H as (s1 & c1 & M1 & Hk). eauto.
Qed.

(** Completeness: where a declarative match exists and the continuation
    accepts its end, the matcher succeeds. *)
Lemma bt_complete_gen r s s' :
  matches r s s' ->
  (forall A c (k : pystr -> caps -> option A),
      (forall c', k s' c' <> None) -> bt r s c k <> None) /\
  (forall g a, r = Star g a ->
     forall A c (k : pystr -> caps -> option A) fuel,
       (List.length s <= fuel)%nat ->
       (forall c', k s' c' <> None) -> loop_of a g k fuel s c <> None).
Proof.
  induction 1 as [s|p x s Hp|a b s s1 s2 _ [IH1 _] _ [IH2 _]
                 |a b s s1 _ [IH _]|a b s s1 _ [IH _]
                 |g a s|g a s s1 s2 _ [IHa _] Hlt _ [_ IHs]
                 |n a s s1 _ [IH _]].
  - split; [|discriminate]. intros A c k Hk. simpl. apply Hk.
  - split; [|discriminate]. intros A c k Hk. simpl. rewrite Hp. apply Hk.
  - split; [|discriminate]. intros A c k Hk. simpl.
    apply IH1. intros c'. apply IH2. exact Hk.
  - split; [|discriminate]. intros A c k Hk. simpl.
    destruct (bt a s c k) eqn:E; [discriminate|].
    exfalso. revert E. now apply IH.
  - split; [|discriminate]. intros A c k Hk. simpl.
    destruct (bt a s c k) eqn:E; [discriminate|]. now apply IH.
  - assert (G : forall A c (k : pystr -> caps -> option A) fuel,
               (forall c', k s c' <> None) -> loop_of a g k fuel s c <> None).
    { intros A c k fuel Hk. unfold loop_of.
      destruct fuel; simpl; destruct g;
        repeat match goal with
               | |- context [match ?e with _ => _ end] => destruct e eqn:?
               end; try discriminate; try apply Hk.
      all: exfalso; eapply Hk; eassumption. }
    split.
    + intros A c k Hk. rewrite bt_star. now apply G.
    + intros g' a' E A c k fuel _ Hk. inversion E; subst. now apply G.
  - assert (G : forall A c (k : pystr -> caps -> option A) fuel,
               (List.length s <= fuel)%nat ->
               (forall c', k s2 c' <> None) -> loop_of a g k fuel s c <> None).
    { intros A c k fuel Hf Hk. unfold loop_of.
      destruct fuel as [|f]; [lia|]. simpl.
      assert (Hmore :
                bt a s c (fun s' c' =>
                  if (List.length s' <? List.length s)%nat
                  then star_loop (fun s0 c0 k0 => bt a s0 c0 k0) g k f s' c'
                  else None) <> None).
      { apply IHa. intros c'.
        apply Nat.ltb_lt in Hlt. rewrite Hlt.
        apply Nat.ltb_lt in Hlt.
        apply (IHs g a eq_refl A c' k f); [lia | exact Hk]. }
      destruct g.
      - match goal with
        | |- context [match ?e with _ => _ end] => destruct e eqn:He
        end; [discriminate | contradiction].
      - destruct (k s c); [discriminate | exact Hmore]. }
    split.
    + intros A c k Hk. rewrite bt_star. apply G; [lia | exact Hk].
    + intros g' a' E A c k fuel Hf Hk. inversion E; subst. now apply G.
  - split; [|discriminate]. intros A c k Hk. simpl.
    apply IH. intros c'. apply Hk.
Qed.

Lemma bt_complete r s s' A c (k : pystr -> caps -> option A) :
  matches r s s' -> (forall c', k s' c' <> None) -> bt r s c k <> None.
Proof. intros M. now apply (proj1 (bt_complete_gen M)). Qed.

Lemma match_at_complete r s s' : matches r s s' -> match_at r s <> None.
Proof.
  intros M. unfold match_at. eapply bt_complete; [exact M|]. discriminate.
Qed.

Lemma match_at_sound r s m :
  match_at r s = Some m ->
  exists p s', s = p ++ s' /\ matches r s s' /\ m_text m = p.
Proof.
  unfold match_at. intros H. apply bt_sound in H.
  destruct H as (s' & c' & M & E). inversion E; subst; clear E.
  destruct (matches_suffix M) as [p ->]. exists p, s'. simpl.
  repeat split; try assumption.
  rewrite length_app, Nat.add_sub. now rewrite firstn_app, firstn_all, Nat.sub_diag, app_nil_r.
Qed.

(** [re.search] succeeds exactly when some suffix has a match. *)
Lemma found_iff r s :
  found r s = true <-> exists pre t s', s = pre ++ t /\ matches r t s'.
Proof.
  unfold found. split.
  - induction s as [|x s IH]; simpl.
    + destruct (match_at r []) eqn:E; [|discriminate]. intros _.
      apply match_at_sound in E. destruct E as (p & s' & E & M & _).
      exists [], [], s'. split; [reflexivity | exact M].
    + destruct (match_at r (x :: s)) eqn:E.
      * intros _. apply match_at_sound in E. destruct E as (p & s' & _ & M & _).
        exists [], (x :: s), s'. split; [reflexivity | exact M].
      * intros H. destruct (IH H) as (pre & t & s' & -> & M).
        exists (x :: pre), t, s'. split; [reflexivity | exact M].
  - intros (pre & t & s' & -> & M).
    induction pre as [|x pre IH]; simpl.
    + destruct t as [|y t]; simpl;
        destruct (match_at r _) eqn:E; try reflexivity;
        exfalso; revert E; eapply match_at_complete; eassumption.
    + destruct (match_at r (x :: pre ++ t)); [reflexivity | exact IH].
Qed.

Lemma search_none_cons r x s :
  search r (x :: s) = None -> match_at r (x :: s) = None /\ search r s = None.
Proof.
  simpl. destruct (match_at r (x :: s)); [discriminate|]. now split.
Qed.

(** Without a match for [re.search] the scan finds no match either. *)
Lemma scan_no_hit r s :
  search r s = None -> forall skip, hits (scan r s skip) = [].
Proof.
  induction s as [|x s IH]; intros H skip.
  - simpl in *. destruct skip; [|reflexivity].
    destruct (match_at r []); [discriminate | reflexivity].
  - apply search_none_cons in H. destruct H as [Hm Hs].
    simpl. destruct skip; [|now apply IH].
    rewrite Hm. simpl. now apply IH.
Qed.

Lemma findall_not_found r s : found r s = false -> findall r s = [].
Proof.
  unfold found, findall, finditer. destruct (search r s) eqn:E; [discriminate|].
  intros _. now rewrite (scan_no_hit _ _ E).
Qed.



(** ** Numeral resolution *)

Lemma below_cases (P : nat -> Prop) (b n : nat) :
  (n < b)%nat -> Forall P (seq 0 b) -> P n.
Proof.
  intros Hn HF. rewrite Forall_forall in HF. apply HF.
  apply in_seq. lia.
Qed.

Lemma circled_resolves n :
  (n <= 20)%nat ->
  is_circle_number [circled_glyph n] = Some (Py.str_of_N (N.of_nat n)) /\
  get_value [circled_glyph n] = Ok (Py.str_of_N (N.of_nat n)).
Proof.
  intros Hn. pattern n. apply below_cases with (b := 21%nat); [lia|].
  repeat (constructor; [vm_compute; split; reflexivity|]). constructor.
Qed.

Lemma tibetan_resolves d :
  (d <= 9)%nat ->
  translate_tib_number [tibetan_digit d] = Ok (Py.str_of_N (N.of_nat d)) /\
  get_value [tibetan_digit d] = Ok (Py.str_of_N (N.of_nat d)).
Proof.
  intros Hd. pattern d. apply below_cases with (b := 10%nat); [lia|].
  repeat (constructor; [vm_compute; split; reflexivity|]). constructor.
Qed.

(** C6. Resolving the rendered form of a value recovers the value: for
    every circled numeral 0 to 20, [get_value] (through
    [is_circle_number]) returns its decimal string, and for every single
    Tibetan digit 0 to 9, [get_value] (through [translate_tib_number])
    returns its decimal string. *)
Theorem numeral_round_trip :
  (forall n, (n <= 20)%nat ->
     is_circle_number [circled_glyph n] = Some (Py.str_of_N (N.of_nat n)) /\
     get_value [circled_glyph n] = Ok (Py.str_of_N (N.of_nat n))) /\
  (forall d, (d <= 9)%nat ->
     translate_tib_number [tibetan_digit d] = Ok (Py.str_of_N (N.of_nat d)) /\
     get_value [tibetan_digit d] = Ok (Py.str_of_N (N.of_nat d))).
Proof. split; [exact circled_resolves | exact tibetan_resolves]. Qed.

Lemma numeral_round_trip_witness :
  get_value [circled_glyph 20] = Ok (py "20") /\
  get_value [tibetan_digit 7] = Ok (py "7").
Proof.
  split.
  - refine (proj2 (proj1 numeral_round_trip 20%nat _)). lia.
  - refine (proj2 (proj2 numeral_round_trip 7%nat _)). lia.
Defined.

(** ** Tibetan digit runs *)

Lemma tibetan_digit_class d :
  (d <= 9)%nat ->
  is_decimal (tibetan_digit d) = true /\ is_space (tibetan_digit d) = false.
Proof.
  intros Hd. pattern d. apply below_cases with (b := 10%nat); [lia|].
  repeat (constructor; [vm_compute; split; reflexivity|]). constructor.
Qed.

(** Three digits in a row already satisfy the guard: the middle one is
    read as the non-blank stretch. *)
Lemma three_digits_guarded a b c rest :
  is_decimal a = true -> is_space b = false -> is_decimal c = true ->
  found two_numbers (a :: b :: c :: rest) = true.
Proof.
  intros Ha Hb Hc. apply found_iff.
  exists [], (a :: b :: c :: rest), rest. split; [reflexivity|].
  unfold two_numbers, Seqs, Plus, Digit, NonSpace.
  apply M_seq with (s1 := b :: c :: rest).
  { apply M_seq with (s1 := b :: c :: rest); [now apply M_cls | apply M_star_stop]. }
  apply M_seq with (s1 := c :: rest).
  { apply M_seq with (s1 := c :: rest); [apply M_cls; now rewrite Hb | apply M_star_stop]. }
  apply M_grp.
  apply M_seq with (s1 := rest); [now apply M_cls | apply M_star_stop].
Qed.

Lemma long_run_rejected ds :
  Forall (fun d => (d <= 9)%nat) ds -> (3 <= List.length ds)%nat ->
  translate_tib_number (tibetan_run ds) = Ok [].
Proof.
  intros HF Hlen.
  destruct ds as [|a [|b [|c rest]]]; simpl in Hlen; try lia.
  inversion HF as [|? ? Ha HF1]; subst.
  inversion HF1 as [|? ? Hb HF2]; subst.
  inversion HF2 as [|? ? Hc _]; subst.
  unfold translate_tib_number, tibetan_run. cbn [map].
  rewrite three_digits_guarded; [reflexivity| | |].
  - apply (tibetan_digit_class Ha).
  - apply (tibetan_digit_class Hb).
  - apply (tibetan_digit_class Hc).
Qed.

Lemma short_run_translated ds :
  Forall (fun d => (d <= 9)%nat) ds -> (List.length ds <= 2)%nat ->
  translate_tib_number (tibetan_run ds) = Ok (decimal_of_run ds).
Proof.
  intros HF Hlen.
  destruct ds as [|a [|b [|c rest]]]; simpl in Hlen; try lia.
  - reflexivity.
  - inversion HF as [|? ? Ha _]; subst.
    pattern a. apply below_cases with (b := 10%nat); [lia|].
    repeat (constructor; [vm_compute; reflexivity|]). constructor.
  - inversion HF as [|? ? Ha HF1]; subst.
    inversion HF1 as [|? ? Hb _]; subst.
    pattern a. apply below_cases with (b := 10%nat); [lia|].
    repeat (constructor;
            [pattern b; apply below_cases with (b := 10%nat); [lia|];
             repeat (constructor; [vm_compute; reflexivity|]); constructor|]).
    constructor.
Qed.

(** C7, as stated, fails: the run of the three Tibetan digits 1, 2, 3 is
    one contiguous run without any other text, and it is rejected instead
    of being translated to 123. *)
Lemma tib_run_of_three_rejected :
  let marker := tibetan_run [1; 2; 3]%nat in
  marker = [0x0F21; 0x0F22; 0x0F23] /\
  translate_tib_number marker = Ok [] /\
  translate_tib_number marker <> Ok (decimal_of_run [1; 2; 3]%nat).
Proof. vm_compute. repeat split; discriminate. Qed.

(** C7, amended. For a marker text that is one contiguous run of Tibetan
    digit glyphs, [translate_tib_number] returns the concatenation of the
    glyphs' decimal values when the run has at most two glyphs; a run of
    three or more glyphs already meets the guard (a digit, a non-blank
    stretch, a digit) and is rejected with the empty result. *)
Theorem tib_run_translation ds :
  Forall (fun d => (d <= 9)%nat) ds ->
  ((List.length ds <= 2)%nat ->
     translate_tib_number (tibetan_run ds) = Ok (decimal_of_run ds)) /\
  ((3 <= List.length ds)%nat ->
     translate_tib_number (tibetan_run ds) = Ok []).
Proof.
  intros HF. split; intros Hlen.
  - now apply short_run_translated.
  - now apply long_run_rejected.
Qed.

Lemma tib_run_translation_witness :
  translate_tib_number (tibetan_run [4; 2]%nat) = Ok (py "42") /\
  translate_tib_number (tibetan_run [1; 0; 8; 9]%nat) = Ok [].
Proof.
  split.
  - refine (proj1 (tib_run_translation (ds := [4; 2]%nat) _) _).
    + repeat constructor.
    + simpl; lia.
  - refine (proj2 (tib_run_translation (ds := [1; 0; 8; 9]%nat) _) _).
    + repeat constructor.
    + simpl; lia.
Defined.

(** ** Demultiply *)

(** C8, as stated, fails: every rewrite rule of [demultiply_diffs] starts
    at a newline, so the bare composite tag is returned as it came and is
    not expanded into the three lines. *)
Lemma bare_composite_not_expanded :
  demultiply_diffs composite_tag = composite_tag /\
  demultiply_diffs composite_tag <> join_lines three_lines /\
  demultiply_diffs composite_tag <> led_lines three_lines.
Proof. vm_compute. repeat split; discriminate. Qed.

(** C8, amended. The composite tag is expanded once the line-split step
    has put a newline before it: [reformat_footnotes] applied to
    [<12,①②③>note], and [demultiply_diffs] applied to that text led by a
    newline, both give the three tags [<12,①>note], [<12,②>note],
    [<12,③>note] in that order, each led by a newline and carrying the
    shared prefix and suffix. *)
Theorem demultiply_after_line_split :
  reformat_footnotes composite_tag = led_lines three_lines /\
  demultiply_diffs (U.nl :: composite_tag) = led_lines three_lines /\
  Py.splitlines (reformat_footnotes composite_tag) = [] :: three_lines.
Proof. vm_compute. repeat split. Qed.

(** ** Per-page marker numbering *)

(** C2 on a page whose second tag reads like the first one once numbered:
    the second replacement lands on the first tag again, so the page ends
    with the indices 2 and 1 in that order and the second tag is left
    without a number of its own. *)
Theorem renumbering_hits_earlier_tag :
  findall tag_re (py "<a><1,a>") = [py "<a>"; py "<1,a>"] /\
  reformatting_body (py "<a><1,a>") = py "<2,1,a><1,a>" /\
  reformatting_body (py "<a><1,a>") <> py "<1,a><2,1,a>".
Proof. vm_compute. repeat split; discriminate. Qed.

(** ** Page merger and lists of unequal length *)

Lemma combine_cut {A B} (l : list A) (l' : list B) :
  combine (firstn (Nat.min (List.length l) (List.length l')) l)
          (firstn (Nat.min (List.length l) (List.length l')) l') = combine l l'.
Proof.
  revert l'; induction l as [|x l IH]; intros [|y l']; simpl; try reflexivity.
  now rewrite IH.
Qed.

Lemma combine_cut_right {A B} (l : list A) (l' : list B) :
  combine l (firstn (List.length l) l') = combine l l'.
Proof.
  revert l'; induction l as [|x l IH]; intros [|y l']; simpl; try reflexivity.
  now rewrite IH.
Qed.

(** C3, as stated, fails: with one footnote for two marker tokens the
    second token is left as it was in both outputs; the merge with the
    list padded by an empty footnote would have replaced it. *)
Lemma unpaired_marker_left_alone :
  let page := py "a<1,x>b<2,y>c" in
  let foot_notes := [py "<1,x>n"] in
  merge_footnotes_per_page page foot_notes
    = Ok (py "a<1,x;1,x,n>b<2,y>c", py "a<n>b<2,y>c") /\
  pad_notes page foot_notes = [py "<1,x>n"; []] /\
  merge_footnotes_per_page page (pad_notes page foot_notes)
    = Ok (py "a<1,x;1,x,n>b<2,y;,,>c", py "a<n>b<>c") /\
  merge_footnotes_per_page page foot_notes
    <> merge_footnotes_per_page page (pad_notes page foot_notes).
Proof. vm_compute. repeat split; discriminate. Qed.

(** ** Patterns that delete characters *)

Lemma filter_all {A} (f : A -> bool) (l : list A) :
  (forall x, In x l -> f x = true) -> filter f l = l.
Proof.
  induction l as [|x l IH]; intros H; simpl; [reflexivity|].
  rewrite (H x (or_introl eq_refl)). f_equal. apply IH.
  intros y Hy. apply H. now right.
Qed.

Lemma class_like_cls p : class_like p (Cls p).
Proof.
  split.
  - intros s s' M. inversion M as [|? x ? Hx| | | | | |]; subst. exists [x]. simpl.
    rewrite Hx. repeat split; congruence.
  - intros x s Hp. exists s. now constructor.
Qed.

Lemma star_cls_consumes g p s s' :
  matches (Star g (Cls p)) s s' -> exists q, s = q ++ s' /\ forallb p q = true.
Proof.
  remember (Star g (Cls p)) as r eqn:E. intros M.
  induction M; try discriminate.
  - exists []. split; reflexivity.
  - inversion E; subst. clear IHM1.
    destruct (IHM2 eq_refl) as (q & -> & Hq).
    inversion M1 as [|? x ? Hx| | | | | |]; subst.
    exists (x :: q). simpl. rewrite Hq. split; [reflexivity|].
    now rewrite Hx.
Qed.

Lemma class_like_plus g p : class_like p (Plus g (Cls p)).
Proof.
  split.
  - intros s s' M. unfold Plus in M.
    inversion M as [| |? ? ? s1 ? M1 M2| | | | |]; subst.
    inversion M1 as [|? x ? Hx| | | | | |]; subst.
    destruct (star_cls_consumes M2) as (q & -> & Hq).
    exists (x :: q). simpl. rewrite Hx, Hq. repeat split; congruence.
  - intros x s Hp. exists s. unfold Plus.
    apply M_seq with (s1 := s); [now constructor | constructor].
Qed.

Section ClassLike.
  Variables (p : char -> bool) (r : regex).
  Hypothesis Hr : class_like p r.

Lemma class_match_some s m :
  match_at r s = Some m ->
  exists n, List.length (m_text m) = S n /\ (S n <= List.length s)%nat /\
            forallb p (firstn (S n) s) = true.
Proof.
  intros H. apply match_at_sound in H.
  destruct H as (q0 & s' & -> & M & ->).
  destruct (proj1 Hr _ _ M) as (q & E & Hne & Hq).
  apply app_inv_tail in E. subst q0.
  destruct q as [|x q]; [congruence|].
  exists (List.length q). split; [reflexivity|].
  split; [rewrite length_app; simpl; lia|].
  change (S (List.length q)) with (List.length (x :: q)).
  now rewrite firstn_app, firstn_all, Nat.sub_diag, app_nil_r.
Qed.

Lemma class_match_none x s : match_at r (x :: s) = None -> p x = false.
Proof.
  intros H. destruct (p x) eqn:Hp; [|reflexivity].
  destruct (proj2 Hr x s Hp) as [s' M].
  exfalso. revert H. eapply match_at_complete; eassumption.
Qed.

Lemma class_scan s :
  forall skip, forallb p (firstn skip s) = true ->
    subst del (scan r s skip) = filter (fun c => negb (p c)) s.
Proof.
  induction s as [|x s IH]; intros skip Hskip.
  - simpl. destruct skip; [|reflexivity].
    destruct (match_at r []) eqn:E; [|reflexivity].
    apply class_match_some in E. destruct E as (n & _ & E & _). simpl in E. lia.
  - simpl. destruct skip as [|n].
    + destruct (match_at r (x :: s)) eqn:E.
      * apply class_match_some in E. destruct E as (n & Hlen & _ & Hall).
        rewrite Hlen. simpl in Hall. apply andb_true_iff in Hall.
        destruct Hall as [Hx Hall]. rewrite Hx. simpl.
        now apply IH.
      * apply class_match_none in E. rewrite E. simpl. f_equal. now apply IH.
    + simpl in Hskip. apply andb_true_iff in Hskip. destruct Hskip as [Hx Hall].
      rewrite Hx. simpl. now apply IH.
Qed.

(** Deleting the matches of such a pattern deletes the characters of its
    class. *)
Lemma class_sub s : sub r del s = filter (fun c => negb (p c)) s.
Proof. unfold sub. now apply class_scan. Qed.

Lemma class_found s : found r s = existsb p s.
Proof.
  destruct (existsb p s) eqn:E.
  - apply existsb_exists in E. destruct E as (x & Hin & Hp).
    apply in_split in Hin. destruct Hin as (pre & post & ->).
    apply found_iff. destruct (proj2 Hr x post Hp) as [s' M].
    now exists pre, (x :: post), s'.
  - destruct (found r s) eqn:F; [|reflexivity].
    apply found_iff in F. destruct F as (pre & t & s' & -> & M).
    destruct (proj1 Hr _ _ M) as (q & -> & Hne & Hq).
    destruct q as [|x q]; [congruence|]. simpl in Hq.
    apply andb_true_iff in Hq. destruct Hq as [Hx _].
    rewrite existsb_app in E. simpl in E. rewrite Hx in E.
    rewrite orb_true_r in E. discriminate.
Qed.

Lemma rm_step_class diff result :
  Forall (fun c => In c diff) result ->
  rm_step diff result r = filter (fun c => negb (p c)) result.
Proof.
  intros Hin. unfold rm_step. rewrite class_found.
  destruct (existsb p diff) eqn:E; [apply class_sub|].
  symmetry. apply filter_all.
  intros c Hc. rewrite Forall_forall in Hin.
  destruct (p c) eqn:Hp; [|reflexivity].
  assert (existsb p diff = true) by (apply existsb_exists; exists c; auto).
  congruence.
Qed.

Lemma rm_step_class_clean diff result :
  Forall (fun c => In c diff) result ->
  Forall (fun c => p c = false) (rm_step diff result r).
Proof.
  intros Hin. rewrite rm_step_class by assumption.
  apply Forall_forall. intros c Hc. apply filter_In in Hc.
  destruct Hc as [_ Hc]. now apply negb_true_iff in Hc.
Qed.

Lemma rm_step_class_id diff result :
  Forall (fun c => p c = false) result -> rm_step diff result r = result.
Proof.
  intros Hc. unfold rm_step. destruct (found r diff); [|reflexivity].
  rewrite class_sub. apply filter_all.
  rewrite Forall_forall in Hc. intros c Hin. now rewrite (Hc c Hin).
Qed.

End ClassLike.

(** ** Literal patterns *)

Lemma matches_lit l s s' : matches (Lit l) s s' <-> s = l ++ s'.
Proof.
  revert s; induction l as [|c l IH]; intros s; simpl; split.
  - intros M. now inversion M.
  - intros ->. constructor.
  - intros M. inversion M as [| |? ? ? s1 ? M1 M2| | | | |]; subst.
    inversion M1 as [|? x ? Hx| | | | | |]; subst.
    apply N.eqb_eq in Hx. subst x. f_equal. now apply IH.
  - intros ->. apply M_seq with (s1 := l ++ s').
    + constructor. apply N.eqb_refl.
    + now apply IH.
Qed.

Lemma is_prefix_iff l s : Py.is_prefix l s = true <-> exists s', s = l ++ s'.
Proof.
  revert s; induction l as [|c l IH]; intros s; simpl.
  - split; [intros _; now exists s | reflexivity].
  - destruct s as [|x s].
    + split; [discriminate | intros [s' E]; discriminate].
    + rewrite andb_true_iff, N.eqb_eq, IH. split.
      * intros [-> [s' ->]]. now exists s'.
      * intros [s' E]. inversion E; subst. split; [reflexivity | now exists s'].
Qed.

Lemma contains_iff l s :
  Py.contains l s = true <-> exists pre s', s = pre ++ l ++ s'.
Proof.
  induction s as [|x s IH]; simpl.
  - rewrite orb_false_r, is_prefix_iff. split.
    + intros [s' E]. now exists [], s'.
    + intros (pre & s' & E). destruct pre; [now exists s' | discriminate].
  - rewrite orb_true_iff, is_prefix_iff, IH. split.
    + intros [[s' E] | (pre & s' & ->)].
      * now exists [], s'.
      * now exists (x :: pre), s'.
    + intros (pre & s' & E). destruct pre as [|y pre].
      * left. now exists s'.
      * right. inversion E; subst. now exists pre, s'.
Qed.

Lemma found_lit l s : found (Lit l) s = Py.contains l s.
Proof.
  destruct (Py.contains l s) eqn:E.
  - apply contains_iff in E. destruct E as (pre & s' & ->).
    apply found_iff. exists pre, (l ++ s'), s'. split; [reflexivity|].
    now apply matches_lit.
  - destruct (found (Lit l) s) eqn:F; [|reflexivity].
    apply found_iff in F. destruct F as (pre & t & s' & -> & M).
    apply matches_lit in M. subst t.
    assert (Py.contains l (pre ++ l ++ s') = true)
      by (apply contains_iff; now exists pre, s').
    congruence.
Qed.

Lemma contains_In l s c : Py.contains l s = true -> In c l -> In c s.
Proof.
  intros H Hc. apply contains_iff in H. destruct H as (pre & s' & ->).
  apply in_or_app. right. apply in_or_app. now left.
Qed.

(** ** The scan when matches are deleted *)

Lemma scan_not_found r f s :
  search r s = None -> forall skip, subst f (scan r s skip) = skipn skip s.
Proof.
  induction s as [|x s IH]; intros H skip.
  - simpl in *. destruct skip; [|reflexivity].
    destruct (match_at r []); [discriminate | reflexivity].
  - apply search_none_cons in H. destruct H as [Hm Hs].
    simpl. destruct skip; [|now apply IH].
    rewrite Hm. simpl. f_equal. now apply (IH Hs 0%nat).
Qed.

Lemma sub_not_found r f s : found r s = false -> sub r f s = s.
Proof.
  unfold found, sub. destruct (search r s) eqn:E; [discriminate|].
  intros _. now rewrite (scan_not_found _ f _ E).
Qed.

Lemma scan_del_keeps (P : char -> Prop) r s :
  Forall P s -> forall skip, Forall P (subst del (scan r s skip)).
Proof.
  induction 1 as [|x s Hx Hs IH]; intros skip.
  - simpl. destruct skip; [|constructor].
    destruct (match_at r []); constructor.
  - simpl. destruct skip; [|apply IH].
    destruct (match_at r (x :: s)) as [m|].
    + destruct (List.length (m_text m)); simpl.
      * constructor; [assumption | apply IH].
      * apply IH.
    + simpl. constructor; [assumption | apply IH].
Qed.

Lemma scan_del_length r s :
  forall skip, (List.length (subst del (scan r s skip)) <= List.length s)%nat.
Proof.
  induction s as [|x s IH]; intros skip.
  - simpl. destruct skip; [|simpl; lia].
    destruct (match_at r []); simpl; lia.
  - simpl. destruct skip.
    + destruct (match_at r (x :: s)) as [m|].
      * destruct (List.length (m_text m)); simpl.
        -- specialize (IH 0%nat). lia.
        -- specialize (IH n). lia.
      * simpl. specialize (IH 0%nat). lia.
    + specialize (IH skip). lia.
Qed.

(** Deleting the matches of a pattern that never matches the empty
    string shortens every text in which the pattern is found. *)
Lemma sub_del_shorter r s :
  (forall t m, match_at r t = Some m -> m_text m <> []) ->
  found r s = true ->
  (List.length (sub r del s) < List.length s)%nat.
Proof.
  intros Hne. unfold found, sub.
  induction s as [|x s IH]; simpl.
  - destruct (match_at r []) as [m|] eqn:E; [|discriminate].
    intros _. exfalso. apply (Hne _ _ E).
    apply match_at_sound in E. destruct E as (q & s' & E & _ & ->).
    symmetry in E. now apply app_eq_nil in E.
  - destruct (match_at r (x :: s)) as [m|] eqn:E.
    + intros _. destruct (List.length (m_text m)) eqn:L.
      * exfalso. apply (Hne _ _ E). now apply length_zero_iff_nil.
      * pose proof (scan_del_length r s n). simpl. lia.
    + intros H. specialize (IH H). simpl. lia.
Qed.

Lemma rm_step_keeps (P : char -> Prop) diff result r :
  Forall P result -> Forall P (rm_step diff result r).
Proof.
  intros H. unfold rm_step. destruct (found r diff); [|assumption].
  now apply scan_del_keeps.
Qed.

Lemma rm_fold_keeps (P : char -> Prop) diff pats :
  forall result, Forall P result -> Forall P (fold_left (rm_step diff) pats result).
Proof.
  induction pats as [|r pats IH]; intros result H; simpl; [assumption|].
  apply IH. now apply rm_step_keeps.
Qed.

(** After the loop no character of a class that one of the patterns
    deletes is left. *)
Lemma rm_fold_clean diff p r pats :
  class_like p r -> In r pats ->
  forall result, Forall (fun c => In c diff) result ->
    Forall (fun c => p c = false) (fold_left (rm_step diff) pats result).
Proof.
  intros Hr. induction pats as [|r0 pats IH]; intros Hin result Hres; [contradiction|].
  simpl. destruct Hin as [-> | Hin].
  - apply rm_fold_keeps. now apply rm_step_class_clean.
  - apply IH; [assumption|]. now apply rm_step_keeps.
Qed.

Lemma rm_marker_fold diff : rm_marker diff = fold_left (rm_step diff) rm_marker_patterns diff.
Proof. reflexivity. Qed.

(** ** The marker-noise stripper applied twice *)

Ltac pick_pattern := repeat (try (left; reflexivity); right).

Ltac class_fact pat :=
  rewrite rm_marker_fold;
  apply (@rm_fold_clean _ _ pat);
  [ first [apply class_like_cls | apply class_like_plus]
  | unfold rm_marker_patterns; simpl; pick_pattern
  | apply Forall_forall; auto ].

Lemma rm_marker_stripped t : stripped (rm_marker t).
Proof.
  assert (H1 : Forall (fun c => N.eqb U.copyright c = false) (rm_marker t)) by class_fact (Chr U.copyright).
  assert (H2 : Forall (fun c => N.eqb U.registered c = false) (rm_marker t)) by class_fact (Chr U.registered).
  assert (H3 : Forall (fun c => N.eqb U.ldquote c = false) (rm_marker t)) by class_fact (Chr U.ldquote).
  assert (H4 : Forall (fun c => N.eqb U.bullet c = false) (rm_marker t)) by class_fact (Chr U.bullet).
  assert (H5 : Forall (fun c => in_range U.tib0 U.tib9 c = false) (rm_marker t)) by class_fact (Range U.tib0 U.tib9).
  assert (H6 : Forall (fun c => in_range 0x61 0x7A c || in_range 0x41 0x5A c = false)
                      (rm_marker t)) by class_fact (Cls (fun c => in_range 0x61 0x7A c || in_range 0x41 0x5A c)).
  assert (H7 : Forall (fun c => N.eqb U.rparen c = false) (rm_marker t)) by class_fact (Chr U.rparen).
  assert (H8 : Forall (fun c => N.eqb U.lparen c = false) (rm_marker t)) by class_fact (Chr U.lparen).
  assert (H9 : Forall (fun c => N.eqb U.space c = false) (rm_marker t)) by class_fact (Plus true (Chr U.space)).
  assert (H10 : Forall (fun c => N.eqb U.at_sign c = false) (rm_marker t)) by class_fact (Chr U.at_sign).
  assert (H11 : Forall (fun c => N.eqb U.tseg c = false) (rm_marker t)) by class_fact (Plus false (Chr U.tseg)).
  assert (H12 : Forall (fun c => is_decimal c = false) (rm_marker t)) by class_fact Digit.
  assert (H13 : Forall (fun c => N.eqb U.shad c = false) (rm_marker t)) by class_fact (Chr U.shad).
  unfold stripped. rewrite Forall_forall in *. intros c Hc.
  unfold rm_classes. cbn [existsb].
  rewrite (H1 c Hc), (H2 c Hc), (H3 c Hc), (H4 c Hc), (H5 c Hc), (H6 c Hc),
    (H7 c Hc), (H8 c Hc), (H9 c Hc), (H10 c Hc), (H11 c Hc), (H12 c Hc), (H13 c Hc).
  reflexivity.
Qed.

Lemma stripped_class u p :
  stripped u -> In p rm_classes -> Forall (fun c => p c = false) u.
Proof.
  unfold stripped. rewrite !Forall_forall. intros H Hp c Hc.
  specialize (H c Hc). destruct (p c) eqn:E; [|reflexivity].
  assert (existsb (fun q => q c) rm_classes = true)
    by (apply existsb_exists; exists p; auto).
  congruence.
Qed.

Lemma rm_step_lit_absent diff result l c :
  In c l -> Forall (fun x => N.eqb c x = false) result ->
  rm_step diff result (Lit l) = result.
Proof.
  intros Hc Hres. unfold rm_step. destruct (found (Lit l) diff); [|reflexivity].
  apply sub_not_found. rewrite found_lit.
  destruct (Py.contains l result) eqn:E; [|reflexivity].
  pose proof (contains_In _ _ c E Hc) as Hin.
  rewrite Forall_forall in Hres. specialize (Hres c Hin).
  now rewrite N.eqb_refl in Hres.
Qed.

(** On a text without noise characters only the last pattern, the glyph
    pair, can still delete something. *)
Lemma rm_marker_on_stripped u :
  stripped u ->
  rm_marker u =
    if Py.contains glyph_pair u then sub (Lit glyph_pair) del u else u.
Proof.
  intros H. rewrite rm_marker_fold. unfold rm_marker_patterns. cbn [fold_left].
  pose proof (fun p Hp => stripped_class (p := p) H Hp) as Hcls.
  assert (Hin : forall p, In p rm_classes -> forall r, class_like p r ->
                 rm_step u u r = u).
  { intros p Hp r Hr. apply (rm_step_class_id Hr). now apply Hcls. }
  rewrite (Hin (N.eqb U.copyright) ltac:(unfold rm_classes; simpl; pick_pattern)
               (Chr U.copyright) (class_like_cls _)).
  rewrite (Hin (N.eqb U.registered) ltac:(unfold rm_classes; simpl; pick_pattern)
               (Chr U.registered) (class_like_cls _)).
  rewrite (Hin (N.eqb U.ldquote) ltac:(unfold rm_classes; simpl; pick_pattern)
               (Chr U.ldquote) (class_like_cls _)).
  rewrite (Hin (N.eqb U.bullet) ltac:(unfold rm_classes; simpl; pick_pattern)
               (Chr U.bullet) (class_like_cls _)).
  rewrite (Hin (in_range U.tib0 U.tib9) ltac:(unfold rm_classes; simpl; pick_pattern)
               (Range U.tib0 U.tib9) (class_like_cls _)).
  rewrite (Hin (fun c => in_range 0x61 0x7A c || in_range 0x41 0x5A c) ltac:(unfold rm_classes; simpl; pick_pattern)
               (Cls (fun c => in_range 0x61 0x7A c || in_range 0x41 0x5A c)) (class_like_cls _)).
  rewrite (Hin (N.eqb U.rparen) ltac:(unfold rm_classes; simpl; pick_pattern)
               (Chr U.rparen) (class_like_cls _)).
  rewrite (Hin (N.eqb U.lparen) ltac:(unfold rm_classes; simpl; pick_pattern)
               (Chr U.lparen) (class_like_cls _)).
  rewrite (Hin (N.eqb U.space) ltac:(unfold rm_classes; simpl; pick_pattern)
               (Plus true (Chr U.space)) (class_like_plus _ _)).
  rewrite (Hin (N.eqb U.at_sign) ltac:(unfold rm_classes; simpl; pick_pattern)
               (Chr U.at_sign) (class_like_cls _)).
  rewrite (Hin (N.eqb U.tseg) ltac:(unfold rm_classes; simpl; pick_pattern)
               (Plus false (Chr U.tseg)) (class_like_plus _ _)).
  rewrite (@rm_step_lit_absent u u [U.shad; U.space; U.shad] U.space
             ltac:(simpl; tauto)
             (Hcls (N.eqb U.space) ltac:(unfold rm_classes; simpl; pick_pattern))).
  rewrite (Hin is_decimal ltac:(unfold rm_classes; simpl; pick_pattern)
               Digit (class_like_cls _)).
  rewrite (Hin (N.eqb U.shad) ltac:(unfold rm_classes; simpl; pick_pattern)
               (Chr U.shad) (class_like_cls _)).
  unfold rm_step. now rewrite found_lit.
Qed.

Lemma lit_match_nonempty l t m :
  l <> [] -> match_at (Lit l) t = Some m -> m_text m <> [].
Proof.
  intros Hl H. apply match_at_sound in H.
  destruct H as (q & s' & -> & M & ->).
  apply matches_lit in M. apply app_inv_tail in M. now subst q.
Qed.

(** C9, as stated, fails: the first pass over the text made of the two
    opening glyphs with a Latin letter between them deletes the letter
    and leaves the glyph pair, which the second pass then deletes. *)
Lemma rm_marker_not_idempotent :
  let t := [U.yig_mgo; 0x61; U.yig_mgo2] in
  rm_marker t = glyph_pair /\
  rm_marker (rm_marker t) = [] /\
  rm_marker (rm_marker t) <> rm_marker t.
Proof. vm_compute. repeat split; discriminate. Qed.

(** C9, amended. For every text [t], applying [rm_marker] to
    [rm_marker t] gives [rm_marker t] again exactly when [rm_marker t]
    does not contain the two opening glyphs next to each other; the pair
    pattern is looked up in the text as it came, so a pair that only the
    first pass brings together is deleted by the second pass. *)
Theorem rm_marker_twice t :
  rm_marker (rm_marker t) = rm_marker t <->
  Py.contains glyph_pair (rm_marker t) = false.
Proof.
  rewrite (rm_marker_on_stripped (rm_marker_stripped t)).
  destruct (Py.contains glyph_pair (rm_marker t)) eqn:E.
  - split; [|discriminate]. intros H. exfalso.
    assert (L : (List.length (sub (Lit glyph_pair) del (rm_marker t))
                 < List.length (rm_marker t))%nat).
    { apply sub_del_shorter.
      - intros u m. apply lit_match_nonempty. discriminate.
      - now rewrite found_lit. }
    rewrite H in L. lia.
  - split; reflexivity.
Qed.

Lemma rm_marker_twice_witness :
  rm_marker (rm_marker (py "(a) 12 b")) = rm_marker (py "(a) 12 b").
Proof. apply rm_marker_twice. vm_compute. reflexivity. Defined.

(** ** Exact runs of the matcher *)

Lemma bt_lit_prefix {A} l s c (k : pystr -> caps -> option A) :
  bt (Lit l) (l ++ s) c k = k s c.
Proof.
  induction l as [|x l IH]; simpl; [reflexivity|].
  now rewrite N.eqb_refl.
Qed.

(** A greedy loop over one class runs to the end of a text made of that
    class, when the continuation accepts the end. *)
Lemma star_greedy_all {A} p (k : pystr -> caps -> option A) v c s :
  forall fuel, (List.length s <= fuel)%nat ->
    forallb p s = true -> k [] c = Some v ->
    loop_of (Cls p) true k fuel s c = Some v.
Proof.
  unfold loop_of.
  induction s as [|x s IH]; intros fuel Hf Hall Hk.
  - destruct fuel; simpl; now rewrite Hk.
  - destruct fuel as [|f]; [simpl in Hf; lia|].
    simpl in Hall. apply andb_true_iff in Hall. destruct Hall as [Hx Hall].
    simpl. rewrite Hx.
    replace (List.length s <? S (List.length s))%nat with true
      by (symmetry; apply Nat.ltb_lt; lia).
    rewrite IH; [reflexivity | simpl in Hf; lia | assumption | assumption].
Qed.

Lemma uint_chars_digits u :
  forallb (in_range 0x30 0x39) (Py.uint_chars u) = true.
Proof. induction u; simpl; auto. Qed.

Lemma ascii_digit_class c :
  in_range 0x30 0x39 c = true ->
  is_decimal c = true /\ is_space c = false /\ (c =? U.nl) = false /\
  (c =? U.gt) = false /\ (c =? U.lt) = false.
Proof.
  unfold in_range. rewrite andb_true_iff, !N.leb_le. intros [Hlo Hhi].
  assert (Hc : exists d, (d <= 9)%nat /\ c = 0x30 + N.of_nat d).
  { exists (N.to_nat (c - 0x30)). split; lia. }
  destruct Hc as (d & Hd & ->). pattern d.
  apply below_cases with (b := 10%nat); [lia|].
  repeat (constructor; [vm_compute; repeat split; reflexivity|]). constructor.
Qed.

Lemma forallb_impl {A} (f g : A -> bool) l :
  (forall x, f x = true -> g x = true) -> forallb f l = true -> forallb g l = true.
Proof.
  intros H. induction l as [|x l IH]; simpl; [reflexivity|].
  rewrite !andb_true_iff. intros [Hx Hl]. split; auto.
Qed.

Lemma str_of_N_nonempty n : Py.str_of_N n <> [].
Proof.
  unfold Py.str_of_N.
  assert (H : N.to_uint n <> Decimal.Nil).
  { destruct n; simpl; [discriminate | apply DecimalPos.Unsigned.to_uint_nonnil]. }
  destruct (N.to_uint n); simpl; congruence.
Qed.

Lemma str_of_N_digits n : forallb (in_range 0x30 0x39) (Py.str_of_N n) = true.
Proof. apply uint_chars_digits. Qed.

Lemma bt_seq {A} a b s c (k : pystr -> caps -> option A) :
  bt (Seq a b) s c k = bt a s c (fun s' c' => bt b s' c' k).
Proof. reflexivity. Qed.

Lemma lazy_star_stop {A} a (k : pystr -> caps -> option A) fuel s c v :
  k s c = Some v -> loop_of a false k fuel s c = Some v.
Proof. intros H. unfold loop_of. destruct fuel; simpl; now rewrite H. Qed.

Lemma lazy_star_skip {A} p (k : pystr -> caps -> option A) f x s c :
  k (x :: s) c = None -> p x = true ->
  loop_of (Cls p) false k (S f) (x :: s) c = loop_of (Cls p) false k f s c.
Proof.
  intros Hk Hp. unfold loop_of. simpl. rewrite Hk, Hp.
  replace (List.length s <? S (List.length s))%nat with true
    by (symmetry; apply Nat.ltb_lt; lia).
  reflexivity.
Qed.

(** A group around [p+], greedy, at the start of a text made of [p] to
    its end. *)
Lemma grp_plus_all {A} g p d n c (k : pystr -> caps -> option A) v :
  p d = true -> forallb p n = true ->
  k [] ((g, d :: n) :: c) = Some v ->
  bt (Grp g (Plus true (Cls p))) (d :: n) c k = Some v.
Proof.
  intros Hd Hn Hk. unfold Plus. cbn [bt]. rewrite Hd.
  apply (star_greedy_all p); [lia | assumption|].
  cbn [List.length]. rewrite Nat.sub_0_r.
  change (S (List.length n)) with (List.length (d :: n)).
  now rewrite firstn_all.
Qed.

Lemma grp_plus_fail {A} g p x s c (k : pystr -> caps -> option A) :
  p x = false -> bt (Grp g (Plus true (Cls p))) (x :: s) c k = None.
Proof. intros Hx. unfold Plus. cbn [bt]. now rewrite Hx. Qed.

Lemma match_pg_no v n :
  forallb (in_range 0x30 0x39) n = true -> n <> [] ->
  match_at (Seqs [Lit v; Star false NonSpace; Grp 1 (Plus true Digit)])
           (v ++ U.minus :: n)
  = Some {| m_text := v ++ U.minus :: n; m_caps := [(1%nat, n)] |}.
Proof.
  intros Hn Hne. destruct n as [|d n]; [congruence|]. clear Hne.
  simpl in Hn. apply andb_true_iff in Hn. destruct Hn as [Hd Hn].
  destruct (ascii_digit_class _ Hd) as (Hdd & _).
  assert (Hnd : forallb is_decimal n = true).
  { revert Hn. apply forallb_impl. intros x Hx. apply (ascii_digit_class _ Hx). }
  unfold match_at. cbn [Seqs].
  rewrite bt_seq, bt_lit_prefix, bt_seq, bt_star.
  unfold NonSpace, Digit.
  change (List.length (U.minus :: d :: n)) with (S (List.length (d :: n))).
  rewrite lazy_star_skip; [| apply grp_plus_fail; reflexivity | reflexivity].
  apply lazy_star_stop. apply grp_plus_all; [assumption | assumption|].
  f_equal. f_equal. cbn [List.length]. rewrite Nat.sub_0_r. apply firstn_all.
Qed.

Lemma search_match_at r s m : match_at r s = Some m -> search r s = Some m.
Proof. intros H. destruct s; simpl; now rewrite H. Qed.

Lemma get_pg_ann_renders vol page :
  get_pg_ann (page_diff_text vol page) vol = Ok (page_token vol page).
Proof.
  unfold get_pg_ann, pg_no_pattern.
  change (page_diff_text vol page)
    with (Py.str_of_N vol ++ U.minus :: Py.str_of_N page).
  rewrite (search_match_at _ _ (match_pg_no (Py.str_of_N vol) (str_of_N_digits page)
                                            (str_of_N_nonempty page))).
  reflexivity.
Qed.

(** ** Boundary tokens in the merger *)

Lemma replace_empty_same cnt s : Py.replace_empty [] cnt s = s.
Proof.
  revert cnt; induction s as [|x s IH]; intros cnt; simpl;
    destruct (Py.budget_left cnt); simpl; try reflexivity.
  now rewrite IH.
Qed.

Lemma replace_scan_same old s :
  old <> [] -> forall skip cnt, Py.replace_scan old old cnt s skip = skipn skip s.
Proof.
  intros Hold. induction s as [|x s IH]; intros skip cnt.
  - simpl. now destruct skip.
  - simpl. destruct skip as [|n]; [|apply IH].
    destruct (Py.budget_left cnt && Py.is_prefix old (x :: s)) eqn:E.
    + apply andb_true_iff in E. destruct E as [_ E].
      apply is_prefix_iff in E. destruct E as [rest E].
      rewrite IH. destruct old as [|y old]; [congruence|].
      simpl in E. inversion E; subst. simpl. rewrite Nat.sub_0_r.
      now rewrite skipn_app, skipn_all, Nat.sub_diag.
    + simpl. f_equal. apply (IH 0%nat).
Qed.

(** Replacing a text by itself changes nothing. *)
Lemma replace_same old cnt s : Py.replace old old cnt s = s.
Proof.
  unfold Py.replace. destruct old as [|x old].
  - apply replace_empty_same.
  - now rewrite replace_scan_same.
Qed.

Lemma matches_star_all g p q s' :
  forallb p q = true -> matches (Star g (Cls p)) (q ++ s') s'.
Proof.
  induction q as [|x q IH]; simpl; intros H; [constructor|].
  apply andb_true_iff in H. destruct H as [Hx Hq].
  apply M_star_more with (s1 := q ++ s'); [now constructor | simpl; lia | auto].
Qed.

Lemma matches_plus_all g p q s' :
  q <> [] -> forallb p q = true -> matches (Plus g (Cls p)) (q ++ s') s'.
Proof.
  destruct q as [|x q]; [congruence|]. intros _ H. simpl in H.
  apply andb_true_iff in H. destruct H as [Hx Hq].
  unfold Plus. apply M_seq with (s1 := q ++ s'); [now constructor|].
  now apply matches_star_all.
Qed.

(** The inside of a boundary token: [p], the volume, a hyphen, the page. *)
Lemma page_token_shape vol page :
  exists body, page_token vol page = U.lt :: 0x70 :: body ++ [U.gt] /\
               body <> [] /\
               forallb (fun c => negb (c =? U.nl)) body = true /\
               Forall (fun c => c <> U.gt /\ c <> U.lt) (0x70 :: body).
Proof.
  exists (Py.str_of_N vol ++ U.minus :: Py.str_of_N page).
  assert (D : forall n c, In c (Py.str_of_N n) ->
              (c =? U.nl) = false /\ c <> U.gt /\ c <> U.lt).
  { intros n c Hc. pose proof (str_of_N_digits n) as H.
    rewrite forallb_forall in H. specialize (H c Hc).
    destruct (ascii_digit_class _ H) as (_ & _ & H1 & H2 & H3).
    apply N.eqb_neq in H2, H3. auto. }
  repeat split.
  - unfold page_token. cbn [of_string app]. rewrite <- !app_assoc. reflexivity.
  - destruct (Py.str_of_N vol); discriminate.
  - rewrite forallb_app. cbn [forallb]. apply andb_true_iff. split;
      [|apply andb_true_iff; split; [reflexivity|]];
      apply forallb_forall; intros c Hc; destruct (D _ _ Hc) as (-> & _); reflexivity.
  - constructor; [split; discriminate|].
    apply Forall_app. split; [|constructor; [split; discriminate|]];
      apply Forall_forall; intros c Hc; destruct (D _ _ Hc) as (_ & ? & ?); auto.
Qed.

Lemma boundary_found vol page : found page_tag_re (page_token vol page) = true.
Proof.
  destruct (page_token_shape vol page) as (body & -> & Hne & Hnl & _).
  apply found_iff. exists [], (U.lt :: 0x70 :: body ++ [U.gt]), [].
  split; [reflexivity|].
  unfold page_tag_re. cbn [Seqs].
  apply M_seq with (s1 := body ++ [U.gt]).
  { apply (proj2 (matches_lit (py "<p") _ _)). reflexivity. }
  apply M_seq with (s1 := [U.gt]).
  { now apply matches_plus_all. }
  constructor. reflexivity.
Qed.

(** The step of the merger on a boundary token: both outputs stay as
    they are. *)
Lemma merge_step_boundary vol page w wo m foot_note :
  m_text m = page_token vol page ->
  merge_step (Ok (w, wo)) (m, foot_note) = Ok (w, wo).
Proof.
  intros E. unfold merge_step, merge_repl. cbn [bind fst snd].
  rewrite E, boundary_found. cbn [bind]. now rewrite !replace_same.
Qed.

Lemma tag_match_shape t s' :
  matches tag_re t s' ->
  exists q, t = U.lt :: q ++ U.gt :: s' /\ q <> [].
Proof.
  unfold tag_re. cbn [Seqs]. intros M.
  inversion M as [| |? ? ? s1 ? M1 M2| | | | |]; subst.
  inversion M1 as [|? x ? Hx| | | | | |]; subst.
  apply N.eqb_eq in Hx. subst x.
  inversion M2 as [| |? ? ? s2 ? M3 M4| | | | |]; subst.
  inversion M4 as [|? y ? Hy| | | | | |]; subst.
  apply N.eqb_eq in Hy. subst y.
  destruct (proj1 (class_like_plus false _) _ _ M3) as (q & -> & Hne & _).
  exists q. split; [reflexivity | assumption].
Qed.

Lemma tag_needs_lt x s : x <> U.lt -> match_at tag_re (x :: s) = None.
Proof.
  intros Hx. destruct (match_at tag_re (x :: s)) as [m|] eqn:E; [|reflexivity].
  apply match_at_sound in E. destruct E as (p & s' & _ & M & _).
  apply tag_match_shape in M. destruct M as (q & E & _).
  inversion E. congruence.
Qed.

Lemma scan_tag_gaps pre rest :
  Forall (fun c => c <> U.gt /\ c <> U.lt) pre ->
  scan tag_re (pre ++ rest) 0 = map Gap pre ++ scan tag_re rest 0.
Proof.
  induction 1 as [|x pre [_ Hx] _ IH]; [reflexivity|].
  cbn [app scan map]. rewrite (tag_needs_lt _ Hx). now rewrite IH.
Qed.

Lemma scan_skip r q rest : scan r (q ++ rest) (List.length q) = scan r rest 0.
Proof. induction q as [|x q IH]; [reflexivity | exact IH]. Qed.

(** An element that occurs once cuts a list in one way only. *)
Lemma cut_unique {A} (x : A) a b a' b' :
  a ++ x :: b = a' ++ x :: b' -> ~ In x a' -> ~ In x b' -> a = a' /\ b = b'.
Proof.
  revert a'; induction a as [|y a IH]; intros [|y' a'] E Ha Hb; simpl in E.
  - inversion E. auto.
  - inversion E; subst. exfalso. apply Ha. now left.
  - inversion E; subst. exfalso. apply Hb. apply in_or_app. right. now left.
  - inversion E; subst. destruct (IH a' H1) as [-> ->]; auto.
    intros H. apply Ha. now right.
Qed.

(** A boundary token followed by text without angle brackets is read as
    one tag, the token itself. *)
Lemma match_at_boundary vol page post :
  Forall (fun c => c <> U.gt /\ c <> U.lt) post ->
  exists m, match_at tag_re (page_token vol page ++ post) = Some m /\
            m_text m = page_token vol page.
Proof.
  intros Hpost.
  destruct (page_token_shape vol page) as (body & E & Hne & Hnl & Hbody).
  rewrite E.
  assert (M : matches tag_re ((U.lt :: 0x70 :: body ++ [U.gt]) ++ post) post).
  { unfold tag_re. cbn [Seqs app]. rewrite <- app_assoc.
    apply M_seq with (s1 := (0x70 :: body) ++ [U.gt] ++ post);
      [constructor; reflexivity|].
    apply M_seq with (s1 := [U.gt] ++ post).
    - apply matches_plus_all; [discriminate|].
      cbn [forallb]. apply andb_true_iff. split; [reflexivity | exact Hnl].
    - constructor. reflexivity. }
  destruct (match_at tag_re ((U.lt :: 0x70 :: body ++ [U.gt]) ++ post)) as [m|] eqn:Em;
    [| exfalso; revert Em; eapply match_at_complete; exact M].
  exists m. split; [reflexivity|].
  apply match_at_sound in Em. destruct Em as (p & s' & Ep & Mp & ->).
  apply tag_match_shape in Mp. destruct Mp as (q & Eq & _).
  assert (Eq2 : q ++ U.gt :: s' = (0x70 :: body) ++ U.gt :: post).
  { cbn [app] in Eq. rewrite <- app_assoc in Eq. cbn [app] in Eq.
    now inversion Eq. }
  apply cut_unique in Eq2.
  - destruct Eq2 as [_ ->]. apply app_inv_tail in Ep. now symmetry.
  - rewrite Forall_forall in Hbody. intros H. now destruct (Hbody _ H).
  - rewrite Forall_forall in Hpost. intros H. now destruct (Hpost _ H).
Qed.

Lemma hits_gaps l rest : hits (map Gap l ++ rest) = hits rest.
Proof. induction l as [|x l IH]; [reflexivity | exact IH]. Qed.

Lemma finditer_single_boundary vol page pre post :
  Forall (fun c => c <> U.gt /\ c <> U.lt) pre ->
  Forall (fun c => c <> U.gt /\ c <> U.lt) post ->
  exists m, finditer tag_re (pre ++ page_token vol page ++ post) = [m] /\
            m_text m = page_token vol page.
Proof.
  intros Hpre Hpost.
  destruct (match_at_boundary vol page Hpost) as (m & Em & Et).
  exists m. split; [|assumption].
  unfold finditer. rewrite (scan_tag_gaps _ Hpre), hits_gaps.
  destruct (page_token vol page) as [|x tok] eqn:Etok.
  { destruct (page_token_shape vol page) as (b & E & _). congruence. }
  cbn [app scan]. cbn [app] in Em. rewrite Em, Et. cbn [List.length hits].
  f_equal. rewrite scan_skip.
  rewrite <- (app_nil_r post), (scan_tag_gaps _ Hpost), hits_gaps.
  reflexivity.
Qed.

(** A page whose only tag is a boundary token comes out of the merger
    as it went in, in both outputs, whatever the footnotes. *)
Lemma merge_keeps_boundary vol page pre post foot_notes :
  Forall (fun c => c <> U.gt /\ c <> U.lt) pre ->
  Forall (fun c => c <> U.gt /\ c <> U.lt) post ->
  merge_footnotes_per_page (pre ++ page_token vol page ++ post) foot_notes
  = Ok (pre ++ page_token vol page ++ post, pre ++ page_token vol page ++ post).
Proof.
  intros Hpre Hpost. unfold merge_footnotes_per_page.
  destruct (finditer_single_boundary vol page Hpre Hpost) as (m & -> & Et).
  destruct foot_notes as [|f rest]; [reflexivity|].
  cbn [combine fold_left]. now apply merge_step_boundary with (vol := vol) (page := page).
Qed.

(** C5, as stated, fails: the boundary token of volume 1, page 2 is
    rendered with a leading [p], not as [<1-2>]. *)
Lemma page_token_has_p_prefix :
  get_pg_ann (page_diff_text 1 2) 1 = Ok (py "<p1-2>") /\
  spec_page_token 1 2 = py "<1-2>" /\
  get_pg_ann (page_diff_text 1 2) 1 <> Ok (spec_page_token 1 2).
Proof. vm_compute. repeat split; discriminate. Qed.

(** ** Repairs of the body classifier *)
























(** The two calls of the witness, evaluated: the first syllable of the
    right neighbour joins the left one, and the tseg joins the left
    neighbour. *)
Example midsyl_call_evaluated :
  handle_mid_syl [mkEntry 0 [U.shad] []; mkEntry 0 [0x0F40; 0x0F72] []]
                 midsyl_diffs (mkDiff 0 [0x0F40; 0x0F72]) 2 (mkDiff (-1) [U.circ1])
                 [0x0F66; U.tseg; 0x0F41] (Some tag_marker)
  = Ok ([mkEntry 0 [U.shad] []; mkEntry 0 [0x0F40; 0x0F72; 0x0F66] [];
         mkEntry 1 [U.circ1] tag_marker],
        [mkDiff 0 [U.shad]; mkDiff 0 [0x0F40; 0x0F72]; mkDiff (-1) [U.circ1];
         mkDiff 0 [U.tseg; 0x0F41]]).
Proof. vm_compute. reflexivity. Qed.

Example tseg_call_evaluated :
  tseg_shifter [mkEntry 0 [0x0F40] []] tseg_diffs [0x0F40] 1 [U.tseg; 0x0F41]
  = Ok ([mkEntry 0 [0x0F40; U.tseg] []],
        [mkDiff 0 [0x0F40]; mkDiff (-1) [U.circ1]; mkDiff 0 [0x0F41]]).
Proof. vm_compute. reflexivity. Qed.

(** ** Reading patterns as shapes of text *)

Lemma matches_seq_iff a b s s2 :
  matches (Seq a b) s s2 <-> exists s1, matches a s s1 /\ matches b s1 s2.
Proof.
  split.
  - intros M. inversion M as [| |? ? ? s1 ? M1 M2| | | | |]; subst. now exists s1.
  - intros (s1 & M1 & M2). now apply M_seq with (s1 := s1).
Qed.

Lemma matches_chr_iff c s s' : matches (Chr c) s s' <-> s = c :: s'.
Proof.
  split.
  - intros M. inversion M as [|? x ? Hx| | | | | |]; subst.
    apply N.eqb_eq in Hx. now subst.
  - intros ->. constructor. apply N.eqb_refl.
Qed.

Lemma matches_grp_iff n a s s' : matches (Grp n a) s s' <-> matches a s s'.
Proof.
  split.
  - intros M. now inversion M.
  - now constructor.
Qed.

Lemma matches_plus_iff g p s s' :
  matches (Plus g (Cls p)) s s' <->
  exists q, q <> [] /\ forallb p q = true /\ s = q ++ s'.
Proof.
  split.
  - intros M. destruct (proj1 (class_like_plus g p) _ _ M) as (q & E & Hne & Hq).
    now exists q.
  - intros (q & Hne & Hq & ->). now apply matches_plus_all.
Qed.

Lemma matches_page_num vol t s' :
  matches (page_num_re vol) t s' <->
  exists n, n <> [] /\ forallb is_decimal n = true /\
            t = py "<p" ++ Py.str_of_N vol ++ py "-" ++ n ++ py ">" ++ s'.
Proof.
  unfold page_num_re. cbn [Seqs]. split.
  - intros M.
    apply matches_seq_iff in M. destruct M as (s1 & M1 & M).
    apply matches_lit in M1. subst t.
    apply matches_seq_iff in M. destruct M as (s2 & M2 & M).
    apply matches_lit in M2. subst s1.
    apply matches_seq_iff in M. destruct M as (s3 & M3 & M).
    apply matches_chr_iff in M3. subst s2.
    apply matches_seq_iff in M. destruct M as (s4 & M4 & M5).
    apply matches_grp_iff, matches_plus_iff in M4.
    destruct M4 as (n & Hne & Hn & ->).
    apply matches_chr_iff in M5. subst s4.
    exists n. repeat split; try assumption.
  - intros (n & Hne & Hn & ->).
    apply matches_seq_iff. eexists. split; [apply matches_lit; reflexivity|].
    apply matches_seq_iff. eexists. split; [apply matches_lit; reflexivity|].
    apply matches_seq_iff. eexists. split; [apply matches_chr_iff; reflexivity|].
    apply matches_seq_iff. exists (py ">" ++ s'). split.
    + apply matches_grp_iff, matches_plus_iff. now exists n.
    + apply matches_chr_iff. reflexivity.
Qed.

Lemma found_page_token vol text :
  found (page_num_re vol) text = true <-> has_page_token vol text.
Proof.
  rewrite found_iff. unfold has_page_token. split.
  - intros (pre & t & s' & -> & M). apply matches_page_num in M.
    destruct M as (n & Hne & Hn & ->). now exists pre, n, s'.
  - intros (pre & n & post & Hne & Hn & ->).
    eexists pre, _, post. split; [reflexivity|].
    apply matches_page_num. now exists n.
Qed.

Lemma matches_page_ref t s' :
  matches page_ref_re t s' <->
  exists q, q <> [] /\ forallb (fun c => negb (c =? U.nl)) q = true /\
            t = py "<r" ++ q ++ py ">" ++ s'.
Proof.
  unfold page_ref_re. cbn [Seqs]. split.
  - intros M.
    apply matches_seq_iff in M. destruct M as (s1 & M1 & M).
    apply matches_lit in M1. subst t.
    apply matches_seq_iff in M. destruct M as (s2 & M2 & M3).
    apply matches_plus_iff in M2. destruct M2 as (q & Hne & Hq & ->).
    apply matches_chr_iff in M3. subst s2.
    now exists q.
  - intros (q & Hne & Hq & ->).
    apply matches_seq_iff. eexists. split; [apply matches_lit; reflexivity|].
    apply matches_seq_iff. exists (py ">" ++ s'). split.
    + apply matches_plus_iff. now exists q.
    + apply matches_chr_iff. reflexivity.
Qed.

Lemma found_page_ref text : found page_ref_re text = true <-> has_page_ref text.
Proof.
  rewrite found_iff. unfold has_page_ref. split.
  - intros (pre & t & s' & -> & M). apply matches_page_ref in M.
    destruct M as (q & Hne & Hq & ->). now exists pre, q, s'.
  - intros (pre & q & post & Hne & Hq & ->).
    eexists pre, _, post. split; [reflexivity|].
    apply matches_page_ref. now exists q.
Qed.

Lemma not_found_iff (P : Prop) b : (b = true <-> P) -> (b = false <-> ~ P).
Proof.
  intros H. destruct b; split; intros H1.
  - discriminate.
  - exfalso. apply H1. now apply H.
  - intros HP. apply H in HP. discriminate.
  - reflexivity.
Qed.

(** ** Footnote reassembly without a page reference *)

(** C10. A formatted footnote string that contains no page-reference
    token [<r...>] makes [postprocess_footnotes] raise the [IndexError]
    of indexing the empty list of page references, whatever else the
    string holds; [reconstruct_footnote], which ends with that call on the
    reformatted text, raises with it. *)
Theorem no_page_ref_raises :
  (forall footnotes vol_num,
      ~ has_page_ref footnotes ->
      postprocess_footnotes footnotes vol_num = Raise IndexError) /\
  (forall new_text vol_num,
      ~ has_page_ref (reformat_footnotes new_text) ->
      reconstruct_footnote_from new_text vol_num = Raise IndexError).
Proof.
  assert (H : forall footnotes vol_num,
             ~ has_page_ref footnotes ->
             postprocess_footnotes footnotes vol_num = Raise IndexError).
  { intros footnotes vol_num Hnone.
    apply (not_found_iff (found_page_ref footnotes)) in Hnone.
    unfold postprocess_footnotes.
    now rewrite (findall_not_found _ _ Hnone). }
  split; [exact H|].
  intros new_text vol_num Hnone. now apply H.
Qed.

Lemma no_page_ref_raises_witness :
  postprocess_footnotes (py "<1,a>first note") 3 = Raise IndexError /\
  reconstruct_footnote_from (py "<1,a>first note") 3 = Raise IndexError.
Proof.
  split.
  - apply (proj1 no_page_ref_raises).
    apply (not_found_iff (found_page_ref _)). vm_compute. reflexivity.
  - apply (proj2 no_page_ref_raises).
    apply (not_found_iff (found_page_ref _)). vm_compute. reflexivity.
Defined.

(** ** Page number *)

(** C4, as stated, fails: on a body text without a boundary token of the
    volume, [get_page_num] raises the [AttributeError] of reading a group
    of the absent match, not a [PageNotFound] condition of its own. *)
Lemma missing_page_is_attribute_error :
  get_page_num (py "body text <p2-15> of another volume") 1 = Raise AttributeError /\
  get_page_num (py "body text <p2-15> of another volume") 1 <> Raise PageNotFound.
Proof. vm_compute. split; [reflexivity | discriminate]. Qed.

(** C4, amended. If the body text holds no rendered boundary token of
    the volume, [get_page_num] fails, and the failure reaches the caller
    (no default page number is returned); the failure is the
    [AttributeError] raised by reading a group of the absent match. *)
Theorem missing_page_fails body_text vol_num :
  ~ has_page_token vol_num body_text ->
  get_page_num body_text vol_num = Raise AttributeError.
Proof.
  intros Hnone. apply (not_found_iff (found_page_token vol_num body_text)) in Hnone.
  revert Hnone. unfold found, get_page_num.
  destruct (search (page_num_re vol_num) body_text); [discriminate | reflexivity].
Qed.

Lemma missing_page_fails_witness :
  get_page_num (py "no page boundary here") 7 = Raise AttributeError.
Proof.
  apply missing_page_fails.
  apply (not_found_iff (found_page_token _ _)). vm_compute. reflexivity.
Defined.


(** * Further properties of the module *)

Unset Implicit Arguments.

(** ** The backward walk of the mid-syllable repair *)

Lemma walk_passes l rest :
  Forall passed_entry l ->
  double_mid_syl_marker_from (l ++ rest) = double_mid_syl_marker_from rest.
Proof.
  induction 1 as [|e l [Hp Ht] _ IH]; [reflexivity|].
  simpl. now rewrite Hp, Ht.
Qed.

(** X1. The walk of [double_mid_syl_marker] goes back from the last
    entry to the nearest entry that is a punctuation text or a marker: it
    answers [True] at a punctuation, [False] at a marker, and runs off the
    front of [result] with an [IndexError] when there is neither - and
    then [handle_mid_syl] raises that error whatever its other
    arguments. *)
Theorem backward_walk_outcomes :
  (forall result, Forall passed_entry result ->
     double_mid_syl_marker result = Raise IndexError) /\
  (forall pre e post, Forall passed_entry post -> is_punct (e_text e) = true ->
     double_mid_syl_marker (pre ++ e :: post) = Ok true) /\
  (forall pre e post, Forall passed_entry post -> is_punct (e_text e) = false ->
     str_eqb (e_tag e) tag_marker = true ->
     double_mid_syl_marker (pre ++ e :: post) = Ok false) /\
  (forall result diffs left_diff i diff right_diff_text marker_type,
     Forall passed_entry result ->
     handle_mid_syl result diffs left_diff i diff right_diff_text marker_type
     = Raise IndexError).
Proof.
  assert (H1 : forall result, Forall passed_entry result ->
                 double_mid_syl_marker result = Raise IndexError).
  { intros result H. unfold double_mid_syl_marker.
    rewrite <- (app_nil_r (rev result)). rewrite walk_passes; [reflexivity|].
    now apply Forall_rev. }
  split; [exact H1|]. split; [|split].
  - intros pre e post H Hp. unfold double_mid_syl_marker.
    rewrite rev_app_distr. cbn [rev]. rewrite <- app_assoc.
    rewrite walk_passes by now apply Forall_rev. simpl. now rewrite Hp.
  - intros pre e post H Hp Ht. unfold double_mid_syl_marker.
    rewrite rev_app_distr. cbn [rev]. rewrite <- app_assoc.
    rewrite walk_passes by now apply Forall_rev. simpl. now rewrite Hp, Ht.
  - intros result diffs left_diff i diff R mt H. unfold handle_mid_syl.
    now rewrite (H1 result H).
Qed.

Lemma backward_walk_outcomes_witness :
  double_mid_syl_marker [mkEntry 0 [0x0F40] []] = Raise IndexError /\
  double_mid_syl_marker ([] ++ mkEntry 0 [U.shad] [] :: [mkEntry 0 [0x0F40] []]) = Ok true /\
  double_mid_syl_marker ([] ++ mkEntry 1 [U.circ1] tag_marker :: [mkEntry 0 [0x0F40] []])
    = Ok false /\
  handle_mid_syl [mkEntry 0 [0x0F40] []]
                 [mkDiff 0 [0x0F40]; mkDiff (-1) [U.circ1]; mkDiff 0 [0x0F41]]
                 (mkDiff 0 [0x0F40]) 1 (mkDiff (-1) [U.circ1]) [0x0F41] (Some tag_marker)
    = Raise IndexError.
Proof.
  assert (P : Forall passed_entry [mkEntry 0 [0x0F40] []])
    by (repeat constructor).
  split; [apply (proj1 backward_walk_outcomes); exact P|].
  split; [apply (proj1 (proj2 backward_walk_outcomes)); [exact P | reflexivity]|].
  split; [apply (proj1 (proj2 (proj2 backward_walk_outcomes)));
          [exact P | reflexivity | reflexivity]|].
  apply (proj2 (proj2 (proj2 backward_walk_outcomes))). exact P.
Defined.

(** ** Diffs that the body classifier settles on their own *)

Lemma index_app_mid {A} (pre : list A) d rest :
  Py.index (pre ++ d :: rest) (List.length pre) = Ok d.
Proof.
  unfold Py.index. rewrite nth_error_app2 by lia. now rewrite Nat.sub_diag.
Qed.

Lemma filter_step_settled vol pre d tail result l r :
  settled_diff vol d ->
  filter_step vol (mkF result (pre ++ d :: tail) l r) (List.length pre)
  = Ok (mkF (result ++ [settled_entry d]) (pre ++ d :: tail) l r).
Proof.
  intros H. unfold filter_step. cbn [st_diffs st_result st_left st_right].
  rewrite index_app_mid. cbn [bind]. unfold settled_entry, untagged.
  destruct H as [[H | H] | [H Hp]]; rewrite H; cbn [Z.eqb]; try reflexivity.
  rewrite Hp. reflexivity.
Qed.

Lemma filter_fold_settled vol rest :
  forall pre tail result l r,
    Forall (settled_diff vol) rest ->
    fold_left (fun acc i => st <- acc ;; filter_step vol st i)
              (seq (List.length pre) (List.length rest))
              (Ok (mkF result (pre ++ rest ++ tail) l r))
    = Ok (mkF (result ++ map settled_entry rest) (pre ++ rest ++ tail) l r).
Proof.
  induction rest as [|d rest IH]; intros pre tail result l r H.
  - simpl. now rewrite app_nil_r.
  - inversion H as [|? ? Hd Hrest]; subst.
    cbn [List.length seq fold_left bind app].
    rewrite (filter_step_settled vol pre d (rest ++ tail) result l r Hd).
    specialize (IH (pre ++ [d]) tail (result ++ [settled_entry d]) l r Hrest).
    rewrite length_app in IH. cbn [List.length] in IH.
    rewrite Nat.add_1_r in IH. rewrite <- !app_assoc in IH. cbn [app] in IH.
    rewrite IH. cbn [map]. reflexivity.
Qed.

Lemma settled_pass diffs vol_num :
  Forall (settled_diff vol_num) diffs ->
  filter_diffs diffs vol_num = Ok (map settled_entry diffs).
Proof.
  intros H. unfold filter_diffs.
  pose proof (filter_fold_settled vol_num diffs [] [] [] None None H) as E.
  cbn [List.length app] in E. rewrite app_nil_r in E. rewrite E. reflexivity.
Qed.

(** X2. A list of diffs without marker candidates - equal diffs,
    target-only diffs and source-only page numbers - goes through
    [filter_diffs] entry by entry and in order: equal and target-only
    diffs keep their op and text and get no tag; a page number becomes an
    insert entry tagged [pedurma-page] that still carries the text of the
    diff. *)
Theorem filter_diffs_settled diffs vol_num :
  Forall (settled_diff vol_num) diffs ->
  filter_diffs diffs vol_num = Ok (map settled_entry diffs).
Proof. exact (settled_pass diffs vol_num). Qed.

Lemma filter_diffs_settled_witness :
  filter_diffs [mkDiff 0 [0x0F40; U.tseg]; mkDiff (-1) (py "3-12"); mkDiff 1 [0x0F41]] 3
  = Ok [mkEntry 0 [0x0F40; U.tseg] []; mkEntry 1 (py "3-12") tag_page;
        mkEntry 1 [0x0F41] []].
Proof.
  apply (filter_diffs_settled
           [mkDiff 0 [0x0F40; U.tseg]; mkDiff (-1) (py "3-12"); mkDiff 1 [0x0F41]] 3).
  constructor; [left; left; reflexivity|].
  constructor; [right; split; [reflexivity | vm_compute; reflexivity]|].
  constructor; [left; right; reflexivity|]. constructor.
Defined.

(** X3. A source-only diff that is not a page number, standing last in
    the list with only settled diffs before it, finds the name
    [right_diff] unbound: [filter_diffs] raises [NameError]. *)
Theorem filter_diffs_last_source_only pre d vol_num :
  Forall (settled_diff vol_num) pre ->
  d_op d = (-1)%Z ->
  found (page_pattern vol_num) (d_text d) = false ->
  filter_diffs (pre ++ [d]) vol_num = Raise NameError.
Proof.
  intros Hpre Hop Hpage. unfold filter_diffs.
  rewrite length_app. cbn [List.length]. rewrite seq_app, fold_left_app.
  pose proof (filter_fold_settled vol_num pre [] [d] [] None None Hpre) as E.
  cbn [List.length app] in E. rewrite E.
  cbn [Nat.add seq fold_left bind].
  unfold filter_step. cbn [st_diffs st_result st_left st_right].
  rewrite index_app_mid. cbn [bind]. rewrite Hop, Hpage. cbn [Z.eqb].
  rewrite length_app. cbn [List.length].
  replace (List.length pre <? List.length pre + 1 - 1)%nat with false
    by (symmetry; apply Nat.ltb_ge; lia).
  unfold classify_source, deref_right. cbn [st_right bind]. reflexivity.
Qed.

Lemma filter_diffs_last_source_only_witness :
  filter_diffs ([mkDiff 0 [0x0F40]] ++ [mkDiff (-1) [U.circ1]]) 3 = Raise NameError.
Proof.
  apply filter_diffs_last_source_only.
  - constructor; [left; left; reflexivity | constructor].
  - reflexivity.
  - vm_compute. reflexivity.
Defined.

(** ** Formatter *)

Lemma format_fold vol l :
  forall r,
    fold_left (fun acc e => result <- acc ;; piece <- format_piece vol e ;;
                            Ok (result ++ piece)) l (Ok r)
    = (x <- format_diff l vol ;; Ok (r ++ x)).
Proof.
  unfold format_diff.
  induction l as [|e l IH]; intros r.
  - simpl. now rewrite app_nil_r.
  - cbn [fold_left bind]. destruct (format_piece vol e) as [p|err]; cbn [bind].
    + rewrite (IH (r ++ p)), (IH ([] ++ p)). cbn [app].
      destruct (fold_left _ l (Ok [])) as [x|err]; cbn [bind]; [|reflexivity].
      now rewrite app_assoc.
    + clear IH. induction l as [|e' l IHl]; [reflexivity | exact IHl].
Qed.

Lemma format_diff_app a b vol :
  format_diff (a ++ b) vol
  = (x <- format_diff a vol ;; y <- format_diff b vol ;; Ok (x ++ y)).
Proof.
  unfold format_diff at 1. rewrite fold_left_app.
  fold (format_diff a vol). destruct (format_diff a vol) as [x|err]; cbn [bind].
  - apply format_fold.
  - induction b as [|e b IH]; [reflexivity | exact IH].
Qed.

Lemma format_diff_cons e l vol :
  format_diff (e :: l) vol
  = (x <- format_piece vol e ;; y <- format_diff l vol ;; Ok (x ++ y)).
Proof.
  change (e :: l) with ([e] ++ l). rewrite format_diff_app.
  unfold format_diff at 1. cbn [fold_left bind].
  destruct (format_piece vol e); reflexivity.
Qed.

Lemma format_untagged l vol :
  Forall (fun e => e_tag e = []) l ->
  format_diff l vol = Ok (List.concat (map e_text (filter copied_op l))).
Proof.
  induction 1 as [|e l He _ IH]; [reflexivity|].
  rewrite format_diff_cons, IH. unfold format_piece. rewrite He.
  cbn [Py.truthy filter]. unfold copied_op.
  destruct ((e_op e =? 1)%Z || (e_op e =? 0)%Z); reflexivity.
Qed.

(** X4. The formatter works entry by entry - the text of two lists in a
    row is the text of the first followed by the text of the second, and
    the first error wins - and of untagged entries it copies the text of
    those with op 0 or 1 and drops the others. *)
Theorem format_diff_concatenates :
  (forall a b vol_num,
      format_diff (a ++ b) vol_num
      = (x <- format_diff a vol_num ;; y <- format_diff b vol_num ;; Ok (x ++ y))) /\
  (forall l vol_num,
      Forall (fun e => e_tag e = []) l ->
      format_diff l vol_num = Ok (List.concat (map e_text (filter copied_op l)))).
Proof.
  split; [exact format_diff_app | exact format_untagged].
Qed.

Lemma format_diff_concatenates_witness :
  format_diff [mkEntry 0 (py "ab") []; mkEntry (-1) (py "x") []; mkEntry 1 (py "c") []] 1
  = Ok (py "abc").
Proof.
  apply (proj2 format_diff_concatenates
               [mkEntry 0 (py "ab") []; mkEntry (-1) (py "x") []; mkEntry 1 (py "c") []] 1%N).
  repeat constructor.
Defined.

(** ** Texts without an opening angle bracket *)

Lemma scan_none_gaps r s : search r s = None -> scan r s 0 = map Gap s.
Proof.
  induction s as [|x s IH]; intros H.
  - simpl in *. destruct (match_at r []); [discriminate | reflexivity].
  - apply search_none_cons in H. destruct H as [Hm Hs].
    simpl. rewrite Hm. now rewrite IH.
Qed.

Lemma pieces_gaps grps s : forall acc, pieces grps acc (map Gap s) = [rev acc ++ s].
Proof.
  induction s as [|x s IH]; intros acc; simpl.
  - now rewrite app_nil_r.
  - rewrite IH. simpl. now rewrite <- app_assoc.
Qed.

Lemma found_false_search r s : found r s = false -> search r s = None.
Proof. unfold found. destruct (search r s); [discriminate | reflexivity]. Qed.

(** A pattern whose every match begins with [c] is not found in a text
    without [c]. *)
Lemma found_needs c r s :
  (forall t s', matches r t s' -> exists rest, t = c :: rest) ->
  ~ In c s -> found r s = false.
Proof.
  intros Hr Hc. destruct (found r s) eqn:F; [|reflexivity].
  apply found_iff in F. destruct F as (pre & t & s' & -> & M).
  destruct (Hr _ _ M) as [rest ->]. exfalso. apply Hc.
  apply in_or_app. right. now left.
Qed.

Lemma page_ann_starts t s' : matches page_ann_re t s' -> exists rest, t = U.lt :: rest.
Proof.
  unfold page_ann_re. cbn [Seqs]. intros M.
  apply matches_seq_iff in M. destruct M as (s1 & M1 & _).
  apply matches_lit in M1. subst t. eexists. reflexivity.
Qed.

Lemma tag_starts t s' : matches tag_re t s' -> exists rest, t = U.lt :: rest.
Proof.
  intros M. apply tag_match_shape in M. destruct M as (q & -> & _).
  eexists. reflexivity.
Qed.

Lemma number_markers_no_tag page : found tag_re page = false -> number_markers page = page.
Proof.
  intros H. unfold number_markers, finditer.
  rewrite (scan_no_hit _ _ (found_false_search _ _ H)). reflexivity.
Qed.

Lemma no_lt_reformat text : ~ In U.lt text -> reformatting_body text = text.
Proof.
  intros H.
  pose proof (found_needs U.lt page_ann_re text page_ann_starts H) as Hp.
  pose proof (found_needs U.lt tag_re text tag_starts H) as Ht.
  unfold reformatting_body, findall, finditer, split.
  rewrite (scan_none_gaps _ _ (found_false_search _ _ Hp)).
  rewrite pieces_gaps. cbn [rev app].
  replace (hits (map Gap text)) with (@nil rmatch)
    by (clear; induction text; [reflexivity | assumption]).
  cbn [map Py.zip_longest fold_left app].
  rewrite number_markers_no_tag by assumption. apply app_nil_r.
Qed.

(** X5. A text without the character [<] holds no page boundary and no
    tag: [reformatting_body] returns it as it came. *)
Theorem reformatting_body_plain text :
  ~ In U.lt text -> reformatting_body text = text.
Proof. exact (no_lt_reformat text). Qed.

Lemma reformatting_body_plain_witness :
  reformatting_body (py "plain body text > no tag") = py "plain body text > no tag".
Proof.
  apply reformatting_body_plain. vm_compute. intuition discriminate.
Defined.

(** X6. When the diff engine reports only equal and target-only diffs
    and their texts hold no [<], the body reconstruction behind the
    engine returns the texts of the diffs in a row: the target text comes
    out untouched. *)
Theorem reconstruct_body_without_markers diffs vol_num :
  Forall plain_diff diffs ->
  ~ In U.lt (List.concat (map d_text diffs)) ->
  reconstruct_body_from diffs vol_num = Ok (List.concat (map d_text diffs)).
Proof.
  intros Hplain Hlt. unfold reconstruct_body_from.
  rewrite settled_pass
    by (revert Hplain; apply Forall_impl; intros d Hd; now left).
  cbn [bind].
  assert (E : map settled_entry diffs = map untagged diffs).
  { clear Hlt. induction Hplain as [|d l Hd _ IH]; [reflexivity|].
    cbn [map]. rewrite IH. f_equal. unfold settled_entry.
    destruct Hd as [Hd | Hd]; rewrite Hd; reflexivity. }
  rewrite E.
  rewrite format_untagged
    by (clear; induction diffs; constructor; [reflexivity | assumption]).
  cbn [bind].
  assert (F : List.concat (map e_text (filter copied_op (map untagged diffs)))
              = List.concat (map d_text diffs)).
  { clear Hlt E. induction Hplain as [|d l Hd _ IH]; [reflexivity|].
    cbn [map filter].
    assert (C : copied_op (untagged d) = true).
    { unfold copied_op, untagged. cbn [e_op].
      destruct Hd as [Hd | Hd]; rewrite Hd; reflexivity. }
    rewrite C. cbn [map List.concat untagged e_text]. now rewrite IH. }
  rewrite F. now rewrite no_lt_reformat.
Qed.

Lemma reconstruct_body_without_markers_witness :
  reconstruct_body_from [mkDiff 0 (py "equal "); mkDiff 1 (py "added")] 2
  = Ok (py "equal added").
Proof.
  apply (reconstruct_body_without_markers
           [mkDiff 0 (py "equal "); mkDiff 1 (py "added")] 2%N).
  - constructor; [left; reflexivity|]. constructor; [right; reflexivity | constructor].
  - vm_compute. intuition discriminate.
Defined.

(** ** Matches of one-class patterns, exactly *)

Lemma search_some r s m :
  search r s = Some m -> exists pre t, s = pre ++ t /\ match_at r t = Some m.
Proof.
  induction s as [|x s IH]; simpl.
  - destruct (match_at r []) eqn:E; [|discriminate].
    intros H. inversion H; subst. now exists [], [].
  - destruct (match_at r (x :: s)) eqn:E.
    + intros H. inversion H; subst. now exists [], (x :: s).
    + intros H. destruct (IH H) as (pre & t & -> & Ht). now exists (x :: pre), t.
Qed.

Lemma one_step (x : char) (s : pystr) :
  firstn (List.length (x :: s) - List.length s) (x :: s) = [x].
Proof.
  cbn [List.length]. replace (S (List.length s) - List.length s)%nat with 1%nat by lia.
  reflexivity.
Qed.

Lemma match_at_cls p x s :
  match_at (Cls p) (x :: s)
  = if p x then Some {| m_text := [x]; m_caps := [] |} else None.
Proof.
  unfold match_at. cbn [bt]. destruct (p x); [|reflexivity]. now rewrite one_step.
Qed.

Lemma bt_cls_cons {A} p x s c (k : pystr -> caps -> option A) :
  bt (Cls p) (x :: s) c k = if p x then k s c else None.
Proof. reflexivity. Qed.

Lemma match_at_lazy_plus p x s :
  match_at (Plus false (Cls p)) (x :: s)
  = if p x then Some {| m_text := [x]; m_caps := [] |} else None.
Proof.
  unfold match_at, Plus. rewrite bt_seq, bt_cls_cons. destruct (p x); [|reflexivity].
  rewrite bt_star. apply lazy_star_stop. now rewrite one_step.
Qed.

Lemma class_match_text p r s m :
  class_like p r -> match_at r s = Some m ->
  m_text m <> [] /\ forallb p (m_text m) = true.
Proof.
  intros Hr H. apply match_at_sound in H. destruct H as (q0 & s' & -> & M & ->).
  destruct (proj1 Hr _ _ M) as (q & E & Hne & Hq).
  apply app_inv_tail in E. subst q0. now split.
Qed.

Lemma search_class_text p r s m :
  class_like p r -> search r s = Some m ->
  m_text m <> [] /\ forallb p (m_text m) = true.
Proof.
  intros Hr H. apply search_some in H. destruct H as (pre & t & _ & Ht).
  exact (class_match_text p r t m Hr Ht).
Qed.

Lemma search_none_class p r s :
  class_like p r -> search r s = None -> forallb (fun c => negb (p c)) s = true.
Proof.
  intros Hr H.
  assert (F : found r s = false) by (unfold found; now rewrite H).
  rewrite (class_found Hr) in F.
  apply forallb_forall. intros c Hc. destruct (p c) eqn:Hp; [|reflexivity].
  assert (existsb p s = true) by (apply existsb_exists; now exists c). congruence.
Qed.

(** The first character of a class in a text is what [re.search] for the
    class returns. *)
Lemma search_cls_first p pre x post :
  forallb (fun c => negb (p c)) pre = true -> p x = true ->
  search (Cls p) (pre ++ x :: post) = Some {| m_text := [x]; m_caps := [] |}.
Proof.
  intros Hpre Hx. induction pre as [|y pre IH].
  - cbn [app search]. now rewrite match_at_cls, Hx.
  - cbn [forallb] in Hpre. apply andb_true_iff in Hpre. destruct Hpre as [Hy Hpre].
    apply negb_true_iff in Hy.
    cbn [app search]. rewrite match_at_cls, Hy. now apply IH.
Qed.

Lemma finditer_cls p s :
  finditer (Cls p) s = map (fun x => {| m_text := [x]; m_caps := [] |}) (filter p s).
Proof.
  unfold finditer. induction s as [|x s IH]; [reflexivity|].
  cbn [scan filter]. rewrite match_at_cls. destruct (p x); cbn [m_text List.length hits map].
  - now rewrite IH.
  - exact IH.
Qed.

(** ** Deleting with [str.replace] *)

Lemma replace_chr c s :
  Py.replace [c] [] None s = filter (fun x => negb (x =? c)) s.
Proof.
  unfold Py.replace.
  induction s as [|x s IH]; [reflexivity|].
  cbn [Py.replace_scan Py.budget_left Py.is_prefix andb List.length Nat.sub
       Py.budget_pred app filter].
  rewrite andb_true_r, N.eqb_sym.
  destruct (x =? c); cbn [negb]; [exact IH | now rewrite IH].
Qed.

Lemma replace_scan_del_keeps (P : char -> Prop) old s :
  Forall P s -> forall cnt skip, Forall P (Py.replace_scan old [] cnt s skip).
Proof.
  induction 1 as [|x s Hx Hs IH]; intros cnt skip; simpl; [constructor|].
  destruct skip; [|apply IH].
  destruct (Py.budget_left cnt && Py.is_prefix old (x :: s)).
  - apply IH.
  - constructor; [assumption | apply IH].
Qed.

Lemma replace_del_keeps (P : char -> Prop) old s :
  Forall P s -> Forall P (Py.replace old [] None s).
Proof.
  intros H. unfold Py.replace. destruct old.
  - now rewrite replace_empty_same.
  - now apply replace_scan_del_keeps.
Qed.

(** ** The noise filter *)

Lemma rm_noise_steps diff :
  rm_noise diff =
  fold_left (fun result pattern =>
               match search pattern diff with
               | Some noise => Py.replace (m_text noise) [] None result
               | None => result
               end)
            [Chr U.nl; Plus true (Chr U.space); Plus false (Chr U.tseg)] diff.
Proof. reflexivity. Qed.

Lemma noise_step_keeps (P : char -> Prop) diff result pattern :
  Forall P result ->
  Forall P match search pattern diff with
           | Some noise => Py.replace (m_text noise) [] None result
           | None => result
           end.
Proof.
  intros H. destruct (search pattern diff); [|assumption]. now apply replace_del_keeps.
Qed.

(** A step of [rm_noise] whose pattern matches one character [c] at a
    time leaves no [c]. *)
Lemma noise_step_cleans c r diff result :
  class_like (N.eqb c) r ->
  (forall t m, match_at r t = Some m -> List.length (m_text m) = 1%nat) ->
  Forall (fun x => In x diff) result ->
  Forall (fun x => x <> c)
         match search r diff with
         | Some noise => Py.replace (m_text noise) [] None result
         | None => result
         end.
Proof.
  intros Hr Hone Hin. destruct (search r diff) as [m|] eqn:E.
  - destruct (search_class_text _ _ _ _ Hr E) as [_ Hall].
    destruct (search_some _ _ _ E) as (pre & t & _ & Ht).
    pose proof (Hone _ _ Ht) as L.
    destruct (m_text m) as [|x [|y l]]; try discriminate.
    cbn [forallb] in Hall. rewrite andb_true_r in Hall. apply N.eqb_eq in Hall. subst x.
    rewrite replace_chr. apply Forall_forall. intros x Hx.
    apply filter_In in Hx. destruct Hx as [_ Hx].
    apply negb_true_iff, N.eqb_neq in Hx. exact Hx.
  - pose proof (search_none_class _ _ _ Hr E) as Hnone.
    rewrite forallb_forall in Hnone. rewrite Forall_forall in *.
    intros x Hx. specialize (Hnone x (Hin x Hx)).
    apply negb_true_iff, N.eqb_neq in Hnone. congruence.
Qed.

Lemma cls_match_one p t m :
  match_at (Cls p) t = Some m -> List.length (m_text m) = 1%nat.
Proof.
  destruct t as [|x t]; [discriminate|]. rewrite match_at_cls.
  destruct (p x); [|discriminate]. intros H. now inversion H.
Qed.

Lemma lazy_plus_match_one p t m :
  match_at (Plus false (Cls p)) t = Some m -> List.length (m_text m) = 1%nat.
Proof.
  destruct t as [|x t]; [discriminate|]. rewrite match_at_lazy_plus.
  destruct (p x); [|discriminate]. intros H. now inversion H.
Qed.

(** X7. Whatever the text, [rm_noise] leaves no newline and no tseg in
    it, and every character it returns is a character of the text. *)
Theorem rm_noise_strips diff :
  ~ In U.nl (rm_noise diff) /\ ~ In U.tseg (rm_noise diff) /\
  (forall c, In c (rm_noise diff) -> In c diff).
Proof.
  rewrite rm_noise_steps. cbn [fold_left].
  assert (I0 : Forall (fun x => In x diff) diff) by (apply Forall_forall; auto).
  assert (N1 := noise_step_cleans U.nl (Chr U.nl) diff diff
                  (class_like_cls _) (cls_match_one _) I0).
  assert (I1 := noise_step_keeps (fun x => In x diff) diff diff (Chr U.nl) I0).
  set (r1 := match search (Chr U.nl) diff with
             | Some noise => Py.replace (m_text noise) [] None diff
             | None => diff
             end) in *.
  assert (N2 := noise_step_keeps _ diff r1 (Plus true (Chr U.space)) N1).
  assert (I2 := noise_step_keeps _ diff r1 (Plus true (Chr U.space)) I1).
  set (r2 := match search (Plus true (Chr U.space)) diff with
             | Some noise => Py.replace (m_text noise) [] None r1
             | None => r1
             end) in *.
  assert (N3 := noise_step_keeps _ diff r2 (Plus false (Chr U.tseg)) N2).
  assert (I3 := noise_step_keeps _ diff r2 (Plus false (Chr U.tseg)) I2).
  assert (T3 := noise_step_cleans U.tseg (Plus false (Chr U.tseg)) diff r2
                  (class_like_plus _ _) (lazy_plus_match_one _) I2).
  rewrite Forall_forall in N3, I3, T3.
  split; [intros H; now apply (N3 _ H)|].
  split; [intros H; now apply (T3 _ H) | exact I3].
Qed.

(** ** Absolute markers *)

Lemma abs_marker_steps diff :
  get_abs_marker diff =
  first_run (Plus true (Cls (in_range U.circ1 U.circ0))) diff
  ++ first_run (Plus true (Cls (in_range U.tib0 U.tib9))) diff
  ++ first_run (Plus true (Cls (in_range 0x30 0x39))) diff.
Proof.
  unfold get_abs_marker, abs_marker_patterns, first_run, Range. cbn [fold_left app].
  destruct (search (Plus true (Cls (in_range U.circ1 U.circ0))) diff),
           (search (Plus true (Cls (in_range U.tib0 U.tib9))) diff),
           (search (Plus true (Cls (in_range 0x30 0x39))) diff);
    cbn [app]; rewrite ?app_nil_r, ?app_assoc; reflexivity.
Qed.

Lemma run_of_class p diff :
  forallb p (first_run (Plus true (Cls p)) diff) = true /\
  (first_run (Plus true (Cls p)) diff = [] <->
   forallb (fun c => negb (p c)) diff = true).
Proof.
  unfold first_run. destruct (search (Plus true (Cls p)) diff) as [m|] eqn:E.
  - destruct (search_class_text p _ _ _ (class_like_plus true p) E) as [Hne Hall].
    split; [exact Hall|]. split; [contradiction|].
    intros Hnone. exfalso.
    assert (F : found (Plus true (Cls p)) diff = true) by (unfold found; now rewrite E).
    rewrite (class_found (class_like_plus true p)) in F.
    apply existsb_exists in F. destruct F as (c & Hc & Hp).
    rewrite forallb_forall in Hnone. specialize (Hnone c Hc). rewrite Hp in Hnone.
    discriminate.
  - split; [reflexivity|]. split; [|reflexivity]. intros _.
    exact (search_none_class p _ _ (class_like_plus true p) E).
Qed.

Lemma abs_marker_class diff :
  forallb abs_class (get_abs_marker diff) = true /\
  (get_abs_marker diff = [] <-> forallb (fun c => negb (abs_class c)) diff = true).
Proof.
  rewrite abs_marker_steps.
  destruct (run_of_class (in_range U.circ1 U.circ0) diff) as [A1 B1].
  destruct (run_of_class (in_range U.tib0 U.tib9) diff) as [A2 B2].
  destruct (run_of_class (in_range 0x30 0x39) diff) as [A3 B3].
  split.
  - rewrite !forallb_app. rewrite !andb_true_iff. repeat split.
    + revert A1. apply forallb_impl. intros x H. unfold abs_class. now rewrite H.
    + revert A2. apply forallb_impl. intros x H. unfold abs_class.
      now rewrite H, orb_true_r.
    + revert A3. apply forallb_impl. intros x H. unfold abs_class.
      now rewrite H, !orb_true_r.
  - split.
    + intros E. apply app_eq_nil in E. destruct E as [E1 E].
      apply app_eq_nil in E. destruct E as [E2 E3].
      apply B1 in E1. apply B2 in E2. apply B3 in E3.
      rewrite forallb_forall in *. intros c Hc. unfold abs_class.
      specialize (E1 c Hc). specialize (E2 c Hc). specialize (E3 c Hc).
      apply negb_true_iff in E1, E2, E3. now rewrite E1, E2, E3.
    + intros H.
      assert (H1 : forallb (fun c => negb (in_range U.circ1 U.circ0 c)) diff = true).
      { revert H. apply forallb_impl. intros x Hx. unfold abs_class in Hx.
        apply negb_true_iff in Hx. apply orb_false_iff in Hx. destruct Hx as [Hx _].
        apply orb_false_iff in Hx. destruct Hx as [Hx _]. now rewrite Hx. }
      assert (H2 : forallb (fun c => negb (in_range U.tib0 U.tib9 c)) diff = true).
      { revert H. apply forallb_impl. intros x Hx. unfold abs_class in Hx.
        apply negb_true_iff in Hx. apply orb_false_iff in Hx. destruct Hx as [Hx _].
        apply orb_false_iff in Hx. destruct Hx as [_ Hx]. now rewrite Hx. }
      assert (H3 : forallb (fun c => negb (in_range 0x30 0x39 c)) diff = true).
      { revert H. apply forallb_impl. intros x Hx. unfold abs_class in Hx.
        apply negb_true_iff in Hx. apply orb_false_iff in Hx. destruct Hx as [_ Hx].
        now rewrite Hx. }
      apply B1 in H1. apply B2 in H2. apply B3 in H3. now rewrite H1, H2, H3.
Qed.

(** X8. [get_abs_marker] returns only circled-range glyphs, Tibetan
    digits and ASCII digits, and it returns the empty string exactly when
    the text holds none of them. *)
Theorem abs_marker_glyphs diff :
  forallb abs_class (get_abs_marker diff) = true /\
  (get_abs_marker diff = [] <-> forallb (fun c => negb (abs_class c)) diff = true).
Proof. exact (abs_marker_class diff). Qed.

(** ** The value of a marker *)

Lemma circled_glyph_entry n :
  (n <= 20)%nat ->
  in_range U.circ1 U.circ0 (circled_glyph n) = true /\
  Py.dict_get circle_num [circled_glyph n] = Some (Py.str_of_N (N.of_nat n)).
Proof.
  intros Hn. pattern n. apply below_cases with (b := 21%nat); [lia|].
  repeat (constructor; [vm_compute; split; reflexivity|]). constructor.
Qed.

(** X9. The value of a marker is decided by its first glyph of the
    circled range: when that glyph is a circled numeral 0 to 20,
    [get_value] returns the numeral's decimal string, whatever comes
    before or after it in the marker. *)
Theorem get_value_first_circled n pre post :
  (n <= 20)%nat ->
  forallb (fun c => negb (in_range U.circ1 U.circ0 c)) pre = true ->
  get_value (pre ++ circled_glyph n :: post) = Ok (Py.str_of_N (N.of_nat n)).
Proof.
  intros Hn Hpre. destruct (circled_glyph_entry n Hn) as [Hg Hd].
  unfold get_value, is_circle_number, Range.
  rewrite (search_cls_first _ pre (circled_glyph n) post Hpre Hg).
  cbn [m_text]. rewrite Hd.
  pose proof (str_of_N_nonempty (N.of_nat n)) as Hne.
  destruct (Py.str_of_N (N.of_nat n)); [congruence | reflexivity].
Qed.

Lemma get_value_first_circled_witness :
  get_value (py "m" ++ circled_glyph 12 :: [U.circ1; 0x0F23]) = Ok (py "12").
Proof.
  apply (get_value_first_circled 12 (py "m") [U.circ1; 0x0F23]).
  - lia.
  - vm_compute. reflexivity.
Defined.

(** ** Translation of digits *)

Lemma tib_num_entry x :
  in_range U.tib0 U.tib9 x = true ->
  Py.dict_get tib_num [x] = Some [tib_to_ascii x].
Proof.
  intros H. unfold tib_to_ascii. rewrite H.
  unfold in_range in H. rewrite andb_true_iff, !N.leb_le in H. destruct H as [Hlo Hhi].
  assert (Hc : exists d, (d <= 9)%nat /\ x = U.tib0 + N.of_nat d).
  { exists (N.to_nat (x - U.tib0)). unfold U.tib0, U.tib9 in *. split; lia. }
  destruct Hc as (d & Hd & ->). pattern d.
  apply below_cases with (b := 10%nat); [lia|].
  repeat (constructor; [vm_compute; reflexivity|]). constructor.
Qed.

Lemma translate_fold l :
  forall acc,
    fold_left
      (fun acc number =>
         value <- acc ;;
         if found (Range U.tib0 U.tib9) (m_text number) then
           match Py.dict_get tib_num (m_text number) with
           | Some v => Ok (value ++ v)
           | None => Raise TypeError
           end
         else Ok (value ++ m_text number))
      (map (fun x => {| m_text := [x]; m_caps := [] |}) l) (Ok acc)
    = Ok (acc ++ map tib_to_ascii l).
Proof.
  induction l as [|x l IH]; intros acc.
  - simpl. now rewrite app_nil_r.
  - cbn [map fold_left bind m_text].
    assert (F : found (Range U.tib0 U.tib9) [x] = in_range U.tib0 U.tib9 x).
    { unfold Range. rewrite (class_found (class_like_cls _)).
      cbn [existsb]. apply orb_false_r. }
    rewrite F.
    destruct (in_range U.tib0 U.tib9 x) eqn:Hx.
    + rewrite (tib_num_entry x Hx). rewrite IH. now rewrite <- app_assoc.
    + assert (T : tib_to_ascii x = x) by (unfold tib_to_ascii; now rewrite Hx).
      rewrite IH, T. now rewrite <- app_assoc.
Qed.

(** X10. [translate_tib_number] never raises.  Unless the guard for two
    numbers is met (then the result is empty), it returns the decimal
    glyphs of the text in order and nothing else: a Tibetan digit as its
    ASCII digit, a decimal glyph of any other script as it is. *)
Theorem translate_tib_number_total footnotes_marker :
  translate_tib_number footnotes_marker
  = Ok (if found two_numbers footnotes_marker then []
        else map tib_to_ascii (filter is_decimal footnotes_marker)).
Proof.
  unfold translate_tib_number.
  destruct (found two_numbers footnotes_marker); [reflexivity|].
  unfold Digit. rewrite finditer_cls. apply (translate_fold _ []).
Qed.

(** ** Page numbers between the classifier and the formatter *)

Lemma get_pg_ann_outcome diff vol :
  if found (pg_no_pattern vol) diff
  then exists text, get_pg_ann diff vol = Ok text
  else get_pg_ann diff vol = Raise AttributeError.
Proof.
  unfold found, get_pg_ann.
  destruct (search (pg_no_pattern vol) diff); [eexists|]; reflexivity.
Qed.

Lemma format_piece_settled vol d :
  settled_diff vol d ->
  format_piece vol (settled_entry d)
  = if (d_op d =? -1)%Z then (page <- get_pg_ann (d_text d) vol ;; Ok page)
    else Ok (d_text d).
Proof.
  intros [[H | H] | [H _]]; unfold settled_entry, untagged, format_piece; rewrite H;
    cbn [Z.eqb e_op e_text e_tag orb Py.truthy]; reflexivity.
Qed.

Lemma format_settled_ok vol diffs :
  Forall (settled_diff vol) diffs ->
  Forall (fun d => d_op d = (-1)%Z -> found (pg_no_pattern vol) (d_text d) = true) diffs ->
  exists text, format_diff (map settled_entry diffs) vol = Ok text.
Proof.
  induction 1 as [|d l Hd _ IH]; intros Hok.
  - now exists [].
  - inversion Hok as [|? ? Hd' Hl]; subst.
    destruct (IH Hl) as [rest Hrest].
    cbn [map]. rewrite format_diff_cons, Hrest, (format_piece_settled vol d Hd).
    destruct (d_op d =? -1)%Z eqn:Eop.
    + apply Z.eqb_eq in Eop. pose proof (get_pg_ann_outcome (d_text d) vol) as G.
      rewrite (Hd' Eop) in G. destruct G as [page ->]. cbn [bind]. eexists. reflexivity.
    + cbn [bind]. eexists. reflexivity.
Qed.

Lemma format_settled_fails vol diffs :
  Forall (settled_diff vol) diffs ->
  Exists (fun d => d_op d = (-1)%Z /\ found (pg_no_pattern vol) (d_text d) = false) diffs ->
  format_diff (map settled_entry diffs) vol = Raise AttributeError.
Proof.
  induction 1 as [|d l Hd Hl IH]; intros Hbad.
  - inversion Hbad.
  - cbn [map]. rewrite format_diff_cons, (format_piece_settled vol d Hd).
    pose proof (get_pg_ann_outcome (d_text d) vol) as G.
    inversion Hbad as [? ? [Hop Hf]|? ? Hrest]; subst.
    + rewrite Hop. cbn [Z.eqb]. rewrite Hf in G. rewrite G. reflexivity.
    + rewrite (IH Hrest).
      destruct (d_op d =? -1)%Z; cbn [bind]; [|reflexivity].
      destruct (found (pg_no_pattern vol) (d_text d)).
      * destruct G as [page ->]. reflexivity.
      * rewrite G. reflexivity.
Qed.

(** X11. The classifier takes a source-only diff for a page number by one
    pattern (the volume, one non-digit, digits) and the formatter reads
    the number by another (the volume, non-space characters, digits).
    For diffs that the classifier settles on their own, the body
    reconstruction returns when every page-number diff also meets the
    formatter's pattern, and raises [AttributeError] as soon as one does
    not - the volume and the page divided by a space or a newline. *)
Theorem page_number_patterns_disagree diffs vol_num :
  Forall (settled_diff vol_num) diffs ->
  (Forall (fun d => d_op d = (-1)%Z ->
                    found (pg_no_pattern vol_num) (d_text d) = true) diffs ->
   exists text, reconstruct_body_from diffs vol_num = Ok text) /\
  (Exists (fun d => d_op d = (-1)%Z /\
                    found (pg_no_pattern vol_num) (d_text d) = false) diffs ->
   reconstruct_body_from diffs vol_num = Raise AttributeError).
Proof.
  intros Hs. unfold reconstruct_body_from. rewrite (settled_pass diffs vol_num Hs).
  cbn [bind]. split.
  - intros Hok. destruct (format_settled_ok vol_num diffs Hs Hok) as [text ->].
    cbn [bind]. eexists. reflexivity.
  - intros Hbad. now rewrite (format_settled_fails vol_num diffs Hs Hbad).
Qed.

Lemma page_number_patterns_disagree_witness :
  reconstruct_body_from [mkDiff 0 [0x0F40; U.tseg]; mkDiff (-1) (py "74 12")] 74
  = Raise AttributeError.
Proof.
  apply (proj2 (page_number_patterns_disagree
                  [mkDiff 0 [0x0F40; U.tseg]; mkDiff (-1) (py "74 12")] 74
                  ltac:(constructor; [left; left; reflexivity|];
                        constructor; [right; split; [reflexivity | vm_compute; reflexivity]|];
                        constructor))).
  apply Exists_cons_tl, Exists_cons_hd. split; [reflexivity | vm_compute; reflexivity].
Defined.

(** ** Reading a page number back *)

(** A greedy run of one class stops where the class stops. *)
Lemma star_greedy_run {A} p (k : pystr -> caps -> option A) v c run rest :
  forall fuel, (List.length (run ++ rest) <= fuel)%nat ->
    forallb p run = true ->
    match rest with [] => True | y :: _ => p y = false end ->
    k rest c = Some v ->
    loop_of (Cls p) true k fuel (run ++ rest) c = Some v.
Proof.
  unfold loop_of.
  induction run as [|x run IH]; intros fuel Hf Hall Hstop Hk.
  - cbn [app]. destruct fuel; simpl; [now rewrite Hk|].
    destruct rest as [|y rest]; [now rewrite Hk|]. now rewrite Hstop, Hk.
  - destruct fuel as [|f]; [simpl in Hf; lia|].
    simpl in Hall. apply andb_true_iff in Hall. destruct Hall as [Hx Hall].
    simpl. rewrite Hx.
    replace (List.length (run ++ rest) <? S (List.length (run ++ rest)))%nat with true
      by (symmetry; apply Nat.ltb_lt; lia).
    pose proof (IH f ltac:(simpl in Hf; lia) Hall Hstop Hk) as E.
    match goal with
    | |- match ?X with Some _ => _ | None => _ end = _ =>
        assert (E' : X = Some v) by exact E; rewrite E'
    end.
    reflexivity.
Qed.

Lemma grp_plus_run {A} g p d n rest c (k : pystr -> caps -> option A) v :
  p d = true -> forallb p n = true ->
  match rest with [] => True | y :: _ => p y = false end ->
  k rest ((g, d :: n) :: c) = Some v ->
  bt (Grp g (Plus true (Cls p))) ((d :: n) ++ rest) c k = Some v.
Proof.
  intros Hd Hn Hstop Hk. unfold Plus. cbn [bt app]. rewrite Hd.
  apply (star_greedy_run p); [lia | assumption | assumption|].
  replace (List.length (d :: n ++ rest) - List.length rest)%nat
    with (List.length (d :: n)) by (cbn [List.length]; rewrite length_app; lia).
  change (d :: n ++ rest) with ((d :: n) ++ rest).
  rewrite firstn_app, Nat.sub_diag, firstn_all. cbn [firstn]. now rewrite app_nil_r.
Qed.

Lemma bt_page_num {A} vol page post c (k : pystr -> caps -> option A) v :
  k post ((1%nat, Py.str_of_N page) :: c) = Some v ->
  bt (page_num_re vol) (page_token vol page ++ post) c k = Some v.
Proof.
  intros Hk.
  pose proof (str_of_N_digits page) as Hd. pose proof (str_of_N_nonempty page) as Hne.
  unfold page_num_re, page_token. cbn [Seqs]. rewrite <- !app_assoc.
  rewrite bt_seq, bt_lit_prefix, bt_seq, bt_lit_prefix.
  change (py "-" ++ Py.str_of_N page ++ py ">" ++ post)
    with (U.minus :: Py.str_of_N page ++ U.gt :: post).
  rewrite bt_seq. unfold Chr at 1. rewrite bt_cls_cons, N.eqb_refl.
  rewrite bt_seq.
  destruct (Py.str_of_N page) as [|d n]; [congruence|].
  cbn [forallb] in Hd. apply andb_true_iff in Hd. destruct Hd as [Hd Hn].
  unfold Digit.
  apply (grp_plus_run 1%nat is_decimal d n (U.gt :: post)).
  - apply (ascii_digit_class _ Hd).
  - revert Hn. apply forallb_impl. intros x Hx. apply (ascii_digit_class _ Hx).
  - reflexivity.
  - unfold Chr. rewrite bt_cls_cons, N.eqb_refl. exact Hk.
Qed.

Lemma match_page_num vol page post :
  match_at (page_num_re vol) (page_token vol page ++ post)
  = Some {| m_text := page_token vol page; m_caps := [(1%nat, Py.str_of_N page)] |}.
Proof.
  unfold match_at. apply bt_page_num.
  replace (List.length (page_token vol page ++ post) - List.length post)%nat
    with (List.length (page_token vol page)) by (rewrite length_app; lia).
  rewrite firstn_app, Nat.sub_diag, firstn_all. cbn [firstn]. now rewrite app_nil_r.
Qed.

Lemma page_num_needs_lt vol x s : x <> U.lt -> match_at (page_num_re vol) (x :: s) = None.
Proof.
  intros Hx. destruct (match_at (page_num_re vol) (x :: s)) as [m|] eqn:E; [|reflexivity].
  apply match_at_sound in E. destruct E as (p & s' & _ & M & _).
  apply matches_page_num in M. destruct M as (n & _ & _ & E').
  inversion E' as [[Hlt Hs]]. exfalso. apply Hx. exact Hlt.
Qed.

Lemma search_page_num vol page pre post :
  ~ In U.lt pre ->
  search (page_num_re vol) (pre ++ page_token vol page ++ post)
  = Some {| m_text := page_token vol page; m_caps := [(1%nat, Py.str_of_N page)] |}.
Proof.
  induction pre as [|x pre IH]; intros H.
  - cbn [app]. apply search_match_at, match_page_num.
  - cbn [app search]. rewrite page_num_needs_lt by (intros ->; apply H; now left).
    apply IH. intros Hin. apply H. now right.
Qed.

(** [int] reads the decimal string of a number as that number. *)
Lemma digits_value_acc u :
  forall a, Py.digits_value (N.pos a) true (Py.uint_chars u)
            = Some (N.pos (Pos.of_uint_acc u a)).
Proof.
  induction u; intros a; cbn [Py.uint_chars Py.digits_value Pos.of_uint_acc];
    [reflexivity | ..]; rewrite <- IHu;
    match goal with
    | |- context [Py.digit_value ?x] =>
        let v := eval vm_compute in (Py.digit_value x) in
        change (Py.digit_value x) with v
    end; cbv iota beta; f_equal; lia.
Qed.

Lemma digits_value_seen u :
  Py.digits_value 0 true (Py.uint_chars u) = Some (Pos.of_uint u).
Proof.
  induction u; cbn [Py.uint_chars Py.digits_value Pos.of_uint];
    [reflexivity | ..];
    match goal with
    | |- context [Py.digit_value ?x] =>
        let v := eval vm_compute in (Py.digit_value x) in
        change (Py.digit_value x) with v
    end; cbv iota beta;
    [exact IHu | ..]; rewrite <- digits_value_acc; f_equal.
Qed.

Lemma digits_value_uint u :
  u <> Decimal.Nil -> Py.digits_value 0 false (Py.uint_chars u) = Some (Pos.of_uint u).
Proof.
  intros H. rewrite <- digits_value_seen.
  destruct u; [congruence | ..]; cbn [Py.uint_chars Py.digits_value];
    match goal with
    | |- context [Py.digit_value ?x] =>
        let v := eval vm_compute in (Py.digit_value x) in
        change (Py.digit_value x) with v
    end; reflexivity.
Qed.

Lemma lstrip_digit x s :
  in_range 0x30 0x39 x = true -> Py.int_lstrip (x :: s) = x :: s.
Proof.
  intros H. cbn [Py.int_lstrip]. unfold Py.int_blank.
  destruct (ascii_digit_class _ H) as (_ & Hs & _). now rewrite Hs.
Qed.

Lemma strip_digits s : forallb (in_range 0x30 0x39) s = true -> Py.int_strip s = s.
Proof.
  intros H. unfold Py.int_strip.
  assert (L : forall t, forallb (in_range 0x30 0x39) t = true -> Py.int_lstrip t = t).
  { intros [|x t] Ht; [reflexivity|]. cbn [forallb] in Ht.
    apply andb_true_iff in Ht. now apply lstrip_digit. }
  rewrite (L s H). rewrite L; [apply rev_involutive|].
  apply forallb_forall. intros x Hx. apply in_rev in Hx.
  rewrite forallb_forall in H. now apply H.
Qed.

Lemma int_str_of_N n : Py.int (Py.str_of_N n) = Ok (Z.of_N n).
Proof.
  unfold Py.int. rewrite (strip_digits _ (str_of_N_digits n)).
  pose proof (str_of_N_nonempty n) as Hne.
  assert (V : Py.digits_value 0 false (Py.str_of_N n) = Some n).
  { unfold Py.str_of_N. rewrite digits_value_uint.
    - f_equal. destruct n as [|p]; [reflexivity|].
      exact (DecimalPos.Unsigned.of_to p).
    - destruct n as [|p]; [discriminate|].
      apply DecimalPos.Unsigned.to_uint_nonnil. }
  unfold Py.str_of_N in *.
  destruct (N.to_uint n); [exfalso; apply Hne; reflexivity | ..];
    cbn [Py.uint_chars] in *; cbv iota beta; rewrite V; reflexivity.
Qed.

(** X12. What [get_pg_ann] writes, [get_page_num] reads back: when the
    token that [get_pg_ann] makes of the page-number text of page [page]
    is the first thing after a [<] in a body text, [get_page_num] finds
    the number [page] there, whatever follows. *)
Theorem page_number_round_trip vol page pre post :
  ~ In U.lt pre ->
  (token <- get_pg_ann (page_diff_text vol page) vol ;;
   get_page_num (pre ++ token ++ post) vol) = Ok (Z.of_N page).
Proof.
  intros H. rewrite get_pg_ann_renders. cbn [bind].
  unfold get_page_num. rewrite (search_page_num vol page pre post H).
  unfold m_group. cbn [m_caps group]. cbn. apply int_str_of_N.
Qed.

Lemma page_number_round_trip_witness :
  (token <- get_pg_ann (page_diff_text 74 12) 74 ;;
   get_page_num (py "body " ++ token ++ py " text <p74-13>") 74) = Ok 12%Z.
Proof.
  apply (page_number_round_trip 74 12 (py "body ") (py " text <p74-13>")).
  vm_compute. intuition discriminate.
Defined.

(** ** Footnote diff classifier *)

Lemma nth_last_app {A} (pre tail : list A) d :
  pre <> [] -> nth (List.length pre - 1) (pre ++ tail) d = last pre d.
Proof.
  intros H. destruct (exists_last H) as (pre' & z & ->).
  rewrite last_last, length_app. cbn [List.length].
  replace (List.length pre' + 1 - 1)%nat with (List.length pre') by lia.
  rewrite <- app_assoc. cbn [app]. apply nth_middle.
Qed.

(** The tag that [left_diff] carries when the loop is at the entry after
    [pre]. *)
Lemma left_tag_at pre d tail l :
  (pre = [] -> l = None) ->
  e_tag match (if (0 <? List.length pre)%nat then Some (List.length pre - 1)%nat else l) with
        | None => mkEntry 0 [] []
        | Some j => nth j (pre ++ d :: tail) (mkEntry 0 [] [])
        end
  = last_tag pre.
Proof.
  intros Hl. unfold last_tag. destruct pre as [|x pre].
  - cbn [List.length Nat.ltb Nat.leb]. now rewrite (Hl eq_refl).
  - replace (0 <? List.length (x :: pre))%nat with true
      by (symmetry; apply Nat.ltb_lt; cbn [List.length]; lia).
    now rewrite nth_last_app.
Qed.

Lemma footnote_step_plain pre d tail filtered l r :
  (e_op d = 1%Z -> has_four d = false) ->
  (pre = [] -> l = None) ->
  exists l' r',
    footnote_step (pre ++ d :: tail) (mkN filtered l r) (List.length pre)
    = Ok (mkN (filtered ++ (if (e_op d =? 1)%Z && blocks_insert (last_tag pre)
                            then [] else [d])) l' r') /\
    (e_op d <> 1%Z -> l' = l /\ r' = r).
Proof.
  intros H4 Hl. unfold footnote_step. rewrite index_app_mid.
  cbn [bind ns_filtered ns_left ns_right].
  destruct (e_op d =? 0)%Z eqn:E0.
  { apply Z.eqb_eq in E0. rewrite E0. cbn [Z.eqb andb]. eexists _, _. split; [reflexivity|].
    intros _. now split. }
  destruct (e_op d =? 1)%Z eqn:E1.
  2:{ cbn [andb]. eexists _, _. split; [reflexivity|]. intros _. now split. }
  apply Z.eqb_eq in E1. rewrite (left_tag_at pre d tail l Hl).
  cbn [andb]. unfold blocks_insert.
  destruct (str_eqb (last_tag pre) tag_marker), (str_eqb (last_tag pre) tag_page);
    cbn [negb andb orb];
    try (rewrite app_nil_r; eexists _, _; split; [reflexivity | intros C; congruence]).
  fold (has_four d). rewrite (H4 E1).
  eexists _, _; split; [reflexivity | intros C; congruence].
Qed.

Lemma footnote_fold_plain diffs tail rest :
  forall pre filtered l r,
    diffs = pre ++ rest ++ tail ->
    Forall (fun e => e_op e = 1%Z -> has_four e = false) rest ->
    (pre = [] -> l = None) ->
    exists l' r',
      fold_left (fun acc i => st <- acc ;; footnote_step diffs st i)
                (seq (List.length pre) (List.length rest))
                (Ok (mkN filtered l r))
      = Ok (mkN (filtered ++ kept_after (last_tag pre) rest) l' r') /\
      (Forall (fun e => e_op e <> 1%Z) rest -> l' = l /\ r' = r).
Proof.
  induction rest as [|d rest IH]; intros pre filtered l r Ed H Hl.
  - cbn [List.length seq fold_left kept_after]. rewrite app_nil_r.
    eexists _, _. split; [reflexivity|]. intros _. now split.
  - inversion H as [|? ? Hd Hrest]; subst.
    destruct (footnote_step_plain pre d (rest ++ tail) filtered l r Hd Hl)
      as (l1 & r1 & E & Hkeep).
    change ((d :: rest) ++ tail) with (d :: rest ++ tail) in *.
    cbn [List.length seq fold_left bind kept_after]. rewrite E.
    destruct (IH (pre ++ [d])
                 (filtered ++ (if (e_op d =? 1)%Z && blocks_insert (last_tag pre)
                               then [] else [d])) l1 r1) as (l2 & r2 & E2 & Hkeep2).
    + now rewrite <- app_assoc.
    + assumption.
    + intros C. destruct pre; discriminate.
    + rewrite length_app in E2. cbn [List.length] in E2. rewrite Nat.add_1_r in E2.
      replace (last_tag (pre ++ [d])) with (e_tag d) in E2
        by (unfold last_tag; now rewrite last_last).
      rewrite E2. rewrite <- app_assoc. eexists _, _. split; [reflexivity|].
      intros Hno. inversion Hno as [|? ? Hd1 Hrest1]; subst.
      destruct (Hkeep Hd1) as [-> ->]. now apply Hkeep2.
Qed.

(** X13. When no insert holds the digit 4, the footnote classifier keeps
    every entry as it came - the text that [rm_marker] strips of an
    insert is not used - save the inserts that stand right after a marker
    or a page entry, which it drops. *)
Theorem footnote_filter_without_four diffs vol_num :
  Forall (fun e => e_op e = 1%Z -> has_four e = false) diffs ->
  filter_footnotes_diffs diffs vol_num = Ok (kept_after [] diffs).
Proof.
  intros H. unfold filter_footnotes_diffs.
  destruct (footnote_fold_plain diffs [] diffs [] [] None None
                                (eq_sym (app_nil_r diffs)) H (fun _ => eq_refl))
    as (l & r & E & _).
  cbn [List.length] in E. rewrite E. reflexivity.
Qed.

Lemma footnote_filter_without_four_witness :
  filter_footnotes_diffs
    [mkEntry 0 (py "<m1>") tag_marker; mkEntry 1 (py "(note) 12") [];
     mkEntry 1 (py "(a) b") []; mkEntry (-1) (py "x") []] 1
  = Ok [mkEntry 0 (py "<m1>") tag_marker; mkEntry 1 (py "(a) b") [];
        mkEntry (-1) (py "x") []].
Proof.
  apply (footnote_filter_without_four
           [mkEntry 0 (py "<m1>") tag_marker; mkEntry 1 (py "(note) 12") [];
            mkEntry 1 (py "(a) b") []; mkEntry (-1) (py "x") []] 1).
  repeat (constructor; [intros _; vm_compute; reflexivity|]). constructor.
Defined.

(** X14. An insert that holds a 4 and is looked at needs the diff to its
    right.  When it stands last and no insert came before it, the name
    [right_diff] was never bound and the classifier raises [NameError]. *)
Theorem footnote_last_four_unbound pre d vol_num :
  Forall (fun e => e_op e <> 1%Z) pre ->
  e_op d = 1%Z -> has_four d = true -> blocks_insert (last_tag pre) = false ->
  filter_footnotes_diffs (pre ++ [d]) vol_num = Raise NameError.
Proof.
  intros Hpre Hop H4 Hleft. unfold filter_footnotes_diffs.
  rewrite length_app. cbn [List.length]. rewrite seq_app, fold_left_app.
  destruct (footnote_fold_plain (pre ++ [d]) [d] pre [] [] None None)
    as (l & r & E & Hkeep).
  - reflexivity.
  - revert Hpre. apply Forall_impl. intros e He C. congruence.
  - reflexivity.
  - cbn [List.length Nat.add] in E.
    destruct (Hkeep Hpre) as [-> ->].
    rewrite E. cbn [Nat.add seq fold_left bind].
    unfold footnote_step. rewrite index_app_mid.
    cbn [bind ns_filtered ns_left ns_right].
    rewrite Hop. cbn [Z.eqb].
    rewrite (left_tag_at pre d [] None (fun _ => eq_refl)).
    unfold blocks_insert in Hleft. apply orb_false_iff in Hleft. destruct Hleft as [-> ->].
    cbn [negb andb]. fold (has_four d). rewrite H4.
    rewrite length_app. cbn [List.length].
    replace (List.length pre <? List.length pre + 1 - 1)%nat with false
      by (symmetry; apply Nat.ltb_ge; lia).
    reflexivity.
Qed.

Lemma footnote_last_four_unbound_witness :
  filter_footnotes_diffs ([mkEntry 0 (py "note ") []] ++ [mkEntry 1 (py "4") []]) 1
  = Raise NameError.
Proof.
  apply footnote_last_four_unbound.
  - repeat constructor. discriminate.
  - reflexivity.
  - reflexivity.
  - reflexivity.
Defined.

Lemma footnote_fold_raise diffs idx e :
  fold_left (fun acc i => st <- acc ;; footnote_step diffs st i) idx (Raise e) = Raise e.
Proof. induction idx as [|i idx IH]; [reflexivity | exact IH]. Qed.

Lemma not_four_cleans text :
  Forall (fun c => c = 0x34 \/ c = 0x7C \/ c = U.nl) (sub not_four del text).
Proof.
  unfold not_four. rewrite (class_sub (class_like_cls _)).
  apply Forall_forall. intros c Hc. apply filter_In in Hc. destruct Hc as [_ Hc].
  rewrite negb_involutive, !orb_true_iff, !N.eqb_eq in Hc. tauto.
Qed.

Lemma footnote_step_entries diffs st i st' :
  footnote_step diffs st i = Ok st' ->
  Forall (fun e => In e diffs \/ four_marker e) (ns_filtered st) ->
  Forall (fun e => In e diffs \/ four_marker e) (ns_filtered st').
Proof.
  unfold footnote_step, Py.index. intros H Hin.
  destruct (nth_error diffs i) as [diff|] eqn:En; [|discriminate].
  apply nth_error_In in En. cbn [bind] in H.
  assert (Happ : Forall (fun e => In e diffs \/ four_marker e) (ns_filtered st ++ [diff])).
  { apply Forall_app. split; [assumption|]. constructor; [now left | constructor]. }
  destruct (e_op diff =? 0)%Z; [inversion H; subst; exact Happ|].
  destruct (e_op diff =? 1)%Z; [|inversion H; subst; exact Happ].
  match type of H with
  | (if ?b then _ else _) = _ => destruct b
  end; [|inversion H; subst; exact Hin].
  destruct (existsb (N.eqb 0x34) (e_text diff)); [|inversion H; subst; exact Happ].
  match type of H with
  | bind ?m _ = _ => destruct m as [right_diff|]; [|discriminate]
  end.
  cbn [bind] in H.
  match type of H with
  | (if ?b then _ else _) = _ => destruct b
  end; inversion H; subst; cbn [ns_filtered]; [exact Hin|].
  apply Forall_app. split; [assumption|]. constructor; [|constructor].
  right. repeat split. apply not_four_cleans.
Qed.

Lemma footnote_fold_entries diffs idx :
  forall st st',
    fold_left (fun acc i => st <- acc ;; footnote_step diffs st i) idx (Ok st) = Ok st' ->
    Forall (fun e => In e diffs \/ four_marker e) (ns_filtered st) ->
    Forall (fun e => In e diffs \/ four_marker e) (ns_filtered st').
Proof.
  induction idx as [|i idx IH]; intros st st' H Hin.
  - inversion H; subst. exact Hin.
  - cbn [fold_left bind] in H.
    destruct (footnote_step diffs st i) as [st1|e] eqn:E.
    + apply (IH st1 st' H). exact (footnote_step_entries diffs st i st1 E Hin).
    + rewrite footnote_fold_raise in H. discriminate.
Qed.

(** X15. Whatever the diffs, every entry that the footnote classifier
    returns is an entry of its input, unchanged, or a marker made of a 4:
    an entry with op 0 and the marker tag whose text holds nothing but
    [4], [|] and newline. *)
Theorem footnote_filter_entries diffs vol_num result :
  filter_footnotes_diffs diffs vol_num = Ok result ->
  Forall (fun e => In e diffs \/ four_marker e) result.
Proof.
  unfold filter_footnotes_diffs. intros H.
  destruct (fold_left _ (seq 0 (List.length diffs)) (Ok (mkN [] None None)))
    as [st|e] eqn:E; [|discriminate].
  cbn [bind] in H. inversion H; subst.
  apply (footnote_fold_entries diffs _ _ st E). constructor.
Qed.

Lemma footnote_filter_entries_witness :
  Forall (fun e => In e [mkEntry 1 (py "a4b|") []; mkEntry 0 (py "note") []]
                   \/ four_marker e)
         [mkEntry 0 (py "4|") tag_marker; mkEntry 0 (py "note") []].
Proof.
  apply (footnote_filter_entries
           [mkEntry 1 (py "a4b|") []; mkEntry 0 (py "note") []] 1).
  vm_compute. reflexivity.
Defined.

(** ** Texts that the rewriting passes leave alone *)

(** A pattern whose every match begins with [l] is not found in a text
    that does not hold [l]; a pattern whose every match holds a character
    of a class is not found in a text without the class. *)
Lemma found_needs_prefix l r s :
  (forall t s', matches r t s' -> exists rest, t = l ++ rest) ->
  Py.contains l s = false -> found r s = false.
Proof.
  intros Hr Hc. destruct (found r s) eqn:F; [|reflexivity].
  apply found_iff in F. destruct F as (pre & t & s' & -> & M).
  destruct (Hr _ _ M) as [rest ->].
  assert (C : Py.contains l (pre ++ l ++ rest) = true)
    by (apply contains_iff; now exists pre, rest).
  congruence.
Qed.

Lemma found_needs_class p r s :
  (forall t s', matches r t s' -> exists x, In x t /\ p x = true) ->
  forallb (fun c => negb (p c)) s = true -> found r s = false.
Proof.
  intros Hr Hc. destruct (found r s) eqn:F; [|reflexivity].
  apply found_iff in F. destruct F as (pre & t & s' & -> & M).
  destruct (Hr _ _ M) as (x & Hx & Hp).
  rewrite forallb_forall in Hc.
  specialize (Hc x (in_or_app _ _ _ (or_intror Hx))). rewrite Hp in Hc. discriminate.
Qed.

Lemma numbered_head_shape t s' :
  matches (Grp 1 numbered_head) t s' -> exists rest, t = [U.nl; U.lt] ++ rest.
Proof.
  intros M. apply matches_grp_iff in M. unfold numbered_head in M. cbn [Seqs] in M.
  apply matches_seq_iff in M. destruct M as (s1 & M1 & _).
  apply matches_lit in M1. subst t. now exists s1.
Qed.

Lemma marker_head_shape t s' :
  matches (Grp 1 (Lit (U.nl :: py "<m"))) t s' -> exists rest, t = [U.nl; U.lt] ++ rest.
Proof.
  intros M. apply matches_grp_iff in M. apply matches_lit in M. subst t.
  now exists (0x6D :: s').
Qed.

(** Every rule of [demultiply_diffs] reads a newline and [<], then - at
    some distance - a glyph of the circled range. *)
Lemma demultiply_rule_shape p :
  In p demultiply_patterns ->
  forall t s', matches (fst p) t s' ->
    (exists rest, t = [U.nl; U.lt] ++ rest) /\
    (exists x, In x t /\ in_range U.circ1 U.circ0 x = true).
Proof.
  assert (Hsub : forall x, in_range U.circ1 U.circ9 x = true ->
                           in_range U.circ1 U.circ0 x = true).
  { intros x. unfold in_range, U.circ1, U.circ9, U.circ0.
    rewrite !andb_true_iff, !N.leb_le. lia. }
  assert (Hgl : forall g lo hi t s', matches (Grp g (Range lo hi)) t s' ->
                                     exists x, t = x :: s' /\ in_range lo hi x = true).
  { intros g lo hi t s' M. apply matches_grp_iff in M.
    inversion M as [|? x ? Hx| | | | | |]; subst. now exists x. }
  intros Hp t s' M.
  unfold demultiply_patterns in Hp. cbn [In] in Hp.
  destruct Hp as [<- | [<- | [<- | [<- | [<- | []]]]]]; cbn [fst Seqs] in M;
    apply matches_seq_iff in M; destruct M as (s1 & M1 & M);
    apply matches_seq_iff in M; destruct M as (s2 & M2 & _);
    pose proof (matches_suffix M1) as [q Eq];
    apply Hgl in M2; destruct M2 as (x & Ex & Hx);
    (split;
     [first [exact (numbered_head_shape _ _ M1) | exact (marker_head_shape _ _ M1)]
     | exists x; split;
       [rewrite Eq, Ex; apply in_or_app; right; now left
       | first [exact Hx | exact (Hsub x Hx)]]]).
Qed.

Lemma demultiply_untouched text :
  Py.contains [U.nl; U.lt] text = false \/
  forallb (fun c => negb (in_range U.circ1 U.circ0 c)) text = true ->
  demultiply_diffs text = text.
Proof.
  intros H. unfold demultiply_diffs.
  assert (F : forall p, In p demultiply_patterns -> found (fst p) text = false).
  { intros p Hp. destruct H as [H | H].
    - apply (found_needs_prefix [U.nl; U.lt]); [|exact H].
      intros t s' M. exact (proj1 (demultiply_rule_shape p Hp t s' M)).
    - apply (found_needs_class (in_range U.circ1 U.circ0)); [|exact H].
      intros t s' M. exact (proj2 (demultiply_rule_shape p Hp t s' M)). }
  induction demultiply_patterns as [|p l IH]; [reflexivity|].
  cbn [fold_left]. rewrite sub_not_found by (apply F; now left).
  apply IH. intros q Hq. apply F. now right.
Qed.

(** X16. [demultiply_diffs] rewrites nothing unless the text holds a
    newline followed by [<] and a glyph of the circled range: without one
    of the two the text comes back as it was. *)
Theorem demultiply_diffs_untouched text :
  Py.contains [U.nl; U.lt] text = false \/
  forallb (fun c => negb (in_range U.circ1 U.circ0 c)) text = true ->
  demultiply_diffs text = text.
Proof. exact (demultiply_untouched text). Qed.

Lemma demultiply_diffs_untouched_witness :
  demultiply_diffs (py "<12," ++ [U.circ1; U.circ1] ++ py ">note") =
  py "<12," ++ [U.circ1; U.circ1] ++ py ">note".
Proof.
  apply demultiply_diffs_untouched. left. vm_compute. reflexivity.
Defined.

Lemma lt_run_starts t s' :
  matches (Grp 1 (Plus true (Chr U.lt))) t s' -> exists rest, t = U.lt :: rest.
Proof.
  intros M. apply matches_grp_iff in M. unfold Chr in M.
  apply matches_plus_iff in M. destruct M as (q & Hne & Hq & ->).
  destruct q as [|x q]; [congruence|]. cbn [forallb] in Hq.
  apply andb_true_iff in Hq. destruct Hq as [Hx _]. apply N.eqb_eq in Hx. subst x.
  eexists. reflexivity.
Qed.

(** X17. On a text without [<], [reformat_footnotes] takes the newlines
    out and does nothing else. *)
Theorem reformat_footnotes_without_tags text :
  ~ In U.lt text ->
  reformat_footnotes text = filter (fun c => negb (c =? U.nl)) text.
Proof.
  intros H. unfold reformat_footnotes. rewrite replace_chr.
  assert (H' : ~ In U.lt (filter (fun c => negb (c =? U.nl)) text)).
  { intros Hin. apply filter_In in Hin. now apply H. }
  rewrite sub_not_found by (apply (found_needs U.lt); [exact lt_run_starts | exact H']).
  apply demultiply_untouched. left.
  destruct (Py.contains [U.nl; U.lt] _) eqn:C; [|reflexivity].
  exfalso. apply H'. apply (contains_In _ _ U.lt C). right. now left.
Qed.

Lemma reformat_footnotes_without_tags_witness :
  reformat_footnotes (py "one" ++ [U.nl] ++ py "two>" ++ [U.nl]) = py "onetwo>".
Proof.
  apply (reformat_footnotes_without_tags (py "one" ++ [U.nl] ++ py "two>" ++ [U.nl])).
  vm_compute. intuition discriminate.
Defined.

(** ** Header of the Google OCR *)

Lemma header_starts t s' :
  matches header_pattern t s' -> exists rest, t = [U.nl; U.nl; U.nl; U.nl] ++ rest.
Proof.
  unfold header_pattern. cbn [Seqs]. intros M.
  apply matches_seq_iff in M. destruct M as (s1 & M1 & M).
  apply matches_lit in M1. subst t.
  apply matches_seq_iff in M. destruct M as (s2 & M2 & _).
  cbn [Upto] in M2. apply matches_seq_iff in M2. destruct M2 as (s3 & M3 & _).
  apply matches_chr_iff in M3. subst s1. now exists s3.
Qed.

(** X18. A text without four newlines in a row has no header for
    [rm_google_ocr_header] to remove: it comes back as it was. *)
Theorem rm_google_ocr_header_plain text :
  Py.contains [U.nl; U.nl; U.nl; U.nl] text = false ->
  rm_google_ocr_header text = text.
Proof.
  intros H. unfold rm_google_ocr_header. apply sub_not_found.
  exact (found_needs_prefix _ _ _ header_starts H).
Qed.

Lemma rm_google_ocr_header_plain_witness :
  rm_google_ocr_header (py "note" ++ [U.nl; U.nl; U.nl] ++ py "next") =
  py "note" ++ [U.nl; U.nl; U.nl] ++ py "next".
Proof.
  apply rm_google_ocr_header_plain. vm_compute. reflexivity.
Defined.

(** ** The first tag of a page *)

(** A lazy run of one class goes on for as long as the continuation
    refuses, and stops where it accepts. *)
Lemma lazy_run {A} p (k : pystr -> caps -> option A) v c body rest :
  forall fuel, (List.length (body ++ rest) <= fuel)%nat ->
    forallb p body = true ->
    (forall x s, In x body -> k (x :: s) c = None) ->
    k rest c = Some v ->
    loop_of (Cls p) false k fuel (body ++ rest) c = Some v.
Proof.
  induction body as [|x body IH]; intros fuel Hf Hall Hno Hk.
  - now apply lazy_star_stop.
  - destruct fuel as [|f]; [simpl in Hf; lia|].
    cbn [forallb] in Hall. apply andb_true_iff in Hall. destruct Hall as [Hx Hall].
    cbn [app]. rewrite lazy_star_skip; [|apply Hno; now left | assumption].
    apply IH; [simpl in Hf; lia | assumption | | assumption].
    intros y s Hy. apply Hno. now right.
Qed.

Lemma match_at_tag body post :
  tag_body body ->
  match_at tag_re (U.lt :: body ++ U.gt :: post)
  = Some {| m_text := U.lt :: body ++ [U.gt]; m_caps := [] |}.
Proof.
  intros [Hne Hbody]. unfold match_at, tag_re. cbn [Seqs].
  rewrite bt_seq. unfold Chr at 1. rewrite bt_cls_cons, N.eqb_refl.
  rewrite bt_seq. unfold Plus. rewrite bt_seq.
  destruct body as [|b body]; [congruence|]. cbn [app].
  inversion Hbody as [|? ? [Hb1 Hb2] Hrest]; subst.
  unfold Dot. rewrite bt_cls_cons.
  replace (negb (b =? U.nl)) with true
    by (symmetry; apply negb_true_iff, N.eqb_neq; assumption).
  rewrite bt_star. apply lazy_run.
  - lia.
  - apply forallb_forall. intros x Hx. rewrite Forall_forall in Hrest.
    apply negb_true_iff, N.eqb_neq. now apply Hrest.
  - intros x s Hx. unfold Chr. rewrite bt_cls_cons.
    rewrite Forall_forall in Hrest. destruct (Hrest x Hx) as [Hgt _].
    replace (U.gt =? x) with false by (symmetry; apply N.eqb_neq; congruence).
    reflexivity.
  - unfold Chr. rewrite bt_cls_cons, N.eqb_refl. f_equal. f_equal.
    replace (List.length (U.lt :: b :: body ++ U.gt :: post) - List.length post)%nat
      with (List.length (U.lt :: b :: body ++ [U.gt]))
      by (cbn [List.length]; rewrite !length_app; cbn [List.length]; lia).
    change (U.lt :: b :: body ++ U.gt :: post)
      with ((U.lt :: b :: body) ++ [U.gt] ++ post).
    rewrite app_assoc. rewrite firstn_app, Nat.sub_diag, firstn_all.
    cbn [firstn]. now rewrite app_nil_r.
Qed.

Lemma scan_no_lt pre rest :
  ~ In U.lt pre -> scan tag_re (pre ++ rest) 0 = map Gap pre ++ scan tag_re rest 0.
Proof.
  induction pre as [|x pre IH]; intros H; [reflexivity|].
  cbn [app scan map]. rewrite tag_needs_lt by (intros ->; apply H; now left).
  rewrite IH; [reflexivity|]. intros Hin. apply H. now right.
Qed.

Lemma finditer_no_lt s : ~ In U.lt s -> finditer tag_re s = [].
Proof.
  intros H. unfold finditer. rewrite <- (app_nil_r s), (scan_no_lt _ _ H), hits_gaps.
  reflexivity.
Qed.

Lemma finditer_first_tag pre body post :
  ~ In U.lt pre -> tag_body body ->
  finditer tag_re (pre ++ U.lt :: body ++ U.gt :: post)
  = {| m_text := U.lt :: body ++ [U.gt]; m_caps := [] |} :: finditer tag_re post.
Proof.
  intros Hpre Hbody. unfold finditer. rewrite (scan_no_lt _ _ Hpre), hits_gaps.
  cbn [scan]. rewrite (match_at_tag body post Hbody).
  cbn [m_text List.length hits]. f_equal.
  replace (body ++ U.gt :: post) with ((body ++ [U.gt]) ++ post)
    by (rewrite <- app_assoc; reflexivity).
  now rewrite scan_skip.
Qed.

(** ** Replacing the first occurrence *)

Lemma replace_scan_spent old new s :
  forall skip, Py.replace_scan old new (Some 0%nat) s skip = skipn skip s.
Proof.
  induction s as [|x s IH]; intros skip.
  - now destruct skip.
  - cbn [Py.replace_scan]. destruct skip as [|n]; [|apply IH].
    cbn [Py.budget_left andb skipn]. f_equal. apply (IH 0%nat).
Qed.

Lemma replace_first c old new pre post :
  ~ In c pre ->
  Py.replace (c :: old) new (Some 1%nat) (pre ++ (c :: old) ++ post) = pre ++ new ++ post.
Proof.
  intros H. unfold Py.replace.
  induction pre as [|x pre IH].
  - cbn [app Py.replace_scan Py.budget_left andb Py.budget_pred Nat.pred].
    assert (P : Py.is_prefix (c :: old) (c :: old ++ post) = true)
      by (apply is_prefix_iff; now exists post).
    rewrite P. rewrite replace_scan_spent.
    replace (List.length (c :: old) - 1)%nat with (List.length old)
      by (cbn [List.length]; lia).
    now rewrite skipn_app, skipn_all, Nat.sub_diag.
  - cbn [app Py.replace_scan Py.budget_left andb Py.is_prefix].
    replace (c =? x) with false
      by (symmetry; apply N.eqb_neq; intros ->; apply H; now left).
    cbn [andb]. f_equal. apply IH. intros Hin. apply H. now right.
Qed.

(** ** Splitting at a separator *)

Lemma split_no_sep sep s : ~ In sep s -> Py.split sep s = [s].
Proof.
  induction s as [|x s IH]; intros H; [reflexivity|].
  cbn [Py.split].
  replace (x =? sep) with false
    by (symmetry; apply N.eqb_neq; intros ->; apply H; now left).
  rewrite IH; [reflexivity|]. intros Hin. apply H. now right.
Qed.

Lemma split_at_sep sep a b :
  ~ In sep a -> Py.split sep (a ++ sep :: b) = a :: Py.split sep b.
Proof.
  induction a as [|x a IH]; intros H.
  - cbn [app Py.split]. now rewrite N.eqb_refl.
  - cbn [app Py.split].
    replace (x =? sep) with false
      by (symmetry; apply N.eqb_neq; intros ->; apply H; now left).
    rewrite IH; [reflexivity|]. intros Hin. apply H. now right.
Qed.

(** ** Page merger *)

Lemma inner_tag body : inner (U.lt :: body ++ [U.gt]) = body.
Proof.
  unfold inner. cbn [tl List.length]. rewrite length_app. cbn [List.length].
  replace (S (List.length body + 1) - 2)%nat with (List.length body) by lia.
  now rewrite firstn_app, Nat.sub_diag, firstn_all, app_nil_r.
Qed.

Lemma page_tag_not_found (body : pystr) :
  ~ starts_with_p body -> ~ In U.lt body ->
  found page_tag_re (U.lt :: body ++ [U.gt]) = false.
Proof.
  intros Hp Hlt. destruct (found page_tag_re _) eqn:F; [|reflexivity]. exfalso.
  apply found_iff in F. destruct F as (pre & t & s' & E & M).
  unfold page_tag_re in M. cbn [Seqs] in M.
  apply matches_seq_iff in M. destruct M as (s1 & M1 & _).
  apply matches_lit in M1. subst t.
  pose proof (f_equal (@tl char) E) as Hb.
  destruct pre as [|y pre]; cbn [app tl of_string] in Hb.
  - destruct body as [|b body]; cbn [app] in Hb; [discriminate|].
    inversion Hb; subst. apply Hp. now exists body.
  - assert (Hin : In U.lt (body ++ [U.gt]))
      by (rewrite Hb; apply in_or_app; right; now left).
    apply in_app_or in Hin. destruct Hin as [Hin | [Hin | []]]; [now apply Hlt | discriminate].
Qed.

Lemma merge_fold_raise l e : fold_left merge_step l (Raise e) = Raise e.
Proof. induction l as [|p l IH]; [reflexivity | exact IH]. Qed.

Lemma merge_repl_no_comma m foot_note (body : pystr) :
  m_text m = U.lt :: body ++ [U.gt] ->
  ~ In U.lt body -> ~ In U.comma body -> ~ starts_with_p body ->
  merge_repl m foot_note = Raise IndexError.
Proof.
  intros E Hlt Hcomma Hp. unfold merge_repl. rewrite E.
  rewrite (page_tag_not_found body Hp Hlt), inner_tag, (split_no_sep _ _ Hcomma).
  reflexivity.
Qed.

(** X19. A page whose first tag is not a page boundary and holds no
    comma has no value part to read: as soon as there is one footnote to
    pair it with, [merge_footnotes_per_page] raises [IndexError]. *)
Theorem merge_marker_without_comma (pre body post foot_note : pystr) rest :
  ~ In U.lt pre -> tag_body body ->
  ~ In U.lt body -> ~ In U.comma body -> ~ starts_with_p body ->
  merge_footnotes_per_page (pre ++ U.lt :: body ++ U.gt :: post) (foot_note :: rest)
  = Raise IndexError.
Proof.
  intros Hpre Hbody Hlt Hcomma Hp. unfold merge_footnotes_per_page.
  rewrite (finditer_first_tag pre body post Hpre Hbody).
  cbn [combine fold_left].
  match goal with
  | |- fold_left merge_step ?l ?acc = _ =>
      assert (E : acc = Raise IndexError); [|rewrite E; apply merge_fold_raise]
  end.
  unfold merge_step. cbn [bind fst snd].
  match goal with
  | |- bind ?X _ = _ =>
      assert (R : X = Raise IndexError)
        by (apply (merge_repl_no_comma _ foot_note body); [reflexivity | assumption..]);
      rewrite R
  end.
  reflexivity.
Qed.

Lemma merge_marker_without_comma_witness :
  merge_footnotes_per_page (py "text " ++ U.lt :: py "m1" ++ U.gt :: py " more")
                           [py "<1,x>note"]
  = Raise IndexError.
Proof.
  apply merge_marker_without_comma.
  - vm_compute. intuition discriminate.
  - split; [discriminate|]. repeat constructor; discriminate.
  - vm_compute. intuition discriminate.
  - vm_compute. intuition discriminate.
  - intros [tl E]. discriminate.
Defined.

Lemma field_not_in (s : pystr) :
  field s -> ~ In U.lt s /\ ~ In U.gt s /\ ~ In U.comma s /\ ~ In U.nl s.
Proof.
  intros H. unfold field in H. rewrite Forall_forall in H.
  repeat split; intros Hin; apply H in Hin; tauto.
Qed.

Lemma merge_repl_fields m (inc val fi fv note : pystr) :
  m_text m = U.lt :: (inc ++ U.comma :: val) ++ [U.gt] ->
  field inc -> field val -> field fi -> field fv -> ~ In U.gt note ->
  ~ starts_with_p inc ->
  merge_repl m (U.lt :: fi ++ U.comma :: fv ++ U.gt :: note)
  = Ok (py "<" ++ inc ++ py "," ++ val ++ py ";" ++ fi ++ py "," ++ fv ++ py ","
          ++ note ++ py ">",
        py "<" ++ note ++ py ">").
Proof.
  intros E Hinc Hval Hfi Hfv Hnote Hp.
  destruct (field_not_in inc Hinc) as (Hi1 & Hi2 & Hi3 & Hi4).
  destruct (field_not_in val Hval) as (Hv1 & Hv2 & Hv3 & Hv4).
  destruct (field_not_in fi Hfi) as (Ha1 & Ha2 & Ha3 & Ha4).
  destruct (field_not_in fv Hfv) as (Hb1 & Hb2 & Hb3 & Hb4).
  unfold merge_repl. rewrite E.
  rewrite page_tag_not_found.
  2:{ intros [rest Er]. destruct inc as [|x inc]; [discriminate|].
      inversion Er; subst. apply Hp. now exists inc. }
  2:{ intros Hin. apply in_app_or in Hin. destruct Hin as [Hin | [Hin | Hin]];
      [now apply Hi1 | discriminate | now apply Hv1]. }
  rewrite inner_tag, (split_at_sep U.comma inc val Hi3), (split_no_sep U.comma val Hv3).
  cbn [Py.index nth_error bind].
  replace (U.lt :: fi ++ U.comma :: fv ++ U.gt :: note)
    with ((U.lt :: fi ++ U.comma :: fv) ++ U.gt :: note)
    by (cbn [app]; rewrite <- app_assoc; reflexivity).
  rewrite split_at_sep, (split_no_sep U.gt note Hnote).
  2:{ intros Hin. destruct Hin as [Hin | Hin]; [discriminate|].
      apply in_app_or in Hin. destruct Hin as [Hin | [Hin | Hin]];
      [now apply Ha2 | discriminate | now apply Hb2]. }
  cbn [Py.index nth_error bind second_or_empty nth].
  change (U.lt :: fi ++ U.comma :: fv) with ((U.lt :: fi) ++ U.comma :: fv).
  rewrite split_at_sep, (split_no_sep U.comma fv Hb3).
  2:{ intros Hin. destruct Hin as [Hin | Hin]; [discriminate | now apply Ha3]. }
  cbn [Py.index nth_error bind second_or_empty nth tl]. reflexivity.
Qed.

(** X20. A page with one marker tag [<inc,val>] and a footnote
    [<fi,fv>note] for it: the first output of the merger carries the tag
    with both pairs and the note, [<inc,val;fi,fv,note>], the second
    carries the note alone, [<note>], each in the place of the tag; the
    text around the tag is kept and further footnotes are ignored. *)
Theorem merge_single_marker (pre inc val post fi fv note : pystr) rest :
  ~ In U.lt pre -> ~ In U.lt post ->
  field inc -> field val -> field fi -> field fv -> ~ In U.gt note ->
  ~ starts_with_p inc ->
  merge_footnotes_per_page (pre ++ U.lt :: (inc ++ U.comma :: val) ++ U.gt :: post)
                           ((U.lt :: fi ++ U.comma :: fv ++ U.gt :: note) :: rest)
  = Ok (pre ++ (py "<" ++ inc ++ py "," ++ val ++ py ";" ++ fi ++ py "," ++ fv ++ py ","
                  ++ note ++ py ">") ++ post,
        pre ++ (py "<" ++ note ++ py ">") ++ post).
Proof.
  intros Hpre Hpost Hinc Hval Hfi Hfv Hnote Hp.
  destruct (field_not_in inc Hinc) as (Hi1 & Hi2 & Hi3 & Hi4).
  destruct (field_not_in val Hval) as (Hv1 & Hv2 & Hv3 & Hv4).
  assert (Hbody : tag_body (inc ++ U.comma :: val)).
  { split; [destruct inc; discriminate|].
    apply Forall_app. split.
    - revert Hinc. apply Forall_impl. tauto.
    - constructor; [split; discriminate|]. revert Hval. apply Forall_impl. tauto. }
  unfold merge_footnotes_per_page.
  rewrite (finditer_first_tag pre _ post Hpre Hbody), (finditer_no_lt post Hpost).
  cbn [combine fold_left]. unfold merge_step. cbn [bind fst snd].
  match goal with
  | |- bind ?X _ = _ =>
      assert (R : X = Ok (py "<" ++ inc ++ py "," ++ val ++ py ";" ++ fi ++ py "," ++ fv
                            ++ py "," ++ note ++ py ">",
                          py "<" ++ note ++ py ">"))
        by (apply (merge_repl_fields _ inc val fi fv note);
            [reflexivity | assumption..]);
      rewrite R
  end.
  cbn [bind m_text].
  pose proof (replace_first U.lt ((inc ++ U.comma :: val) ++ [U.gt])) as RF.
  f_equal. f_equal.
  - rewrite <- (RF _ pre post Hpre). f_equal. cbn [app]. now rewrite <- !app_assoc.
  - rewrite <- (RF _ pre post Hpre). f_equal. cbn [app]. now rewrite <- !app_assoc.
Qed.

Lemma merge_single_marker_witness :
  merge_footnotes_per_page
    (py "ka " ++ U.lt :: (py "1" ++ U.comma :: [U.circ1]) ++ U.gt :: py " kha")
    ((U.lt :: py "1" ++ U.comma :: [U.circ1] ++ U.gt :: py "note") :: [py "<2,x>other"])
  = Ok (py "ka " ++ (py "<" ++ py "1" ++ py "," ++ [U.circ1] ++ py ";" ++ py "1" ++ py ","
                       ++ [U.circ1] ++ py "," ++ py "note" ++ py ">") ++ py " kha",
        py "ka " ++ (py "<" ++ py "note" ++ py ">") ++ py " kha").
Proof.
  apply merge_single_marker.
  - vm_compute. intuition discriminate.
  - vm_compute. intuition discriminate.
  - repeat constructor; discriminate.
  - repeat constructor; discriminate.
  - repeat constructor; discriminate.
  - repeat constructor; discriminate.
  - vm_compute. intuition discriminate.
  - intros [tl E]. discriminate.
Defined.

(** ** Numbering the tag of a page *)

(** A pattern whose matches begin with [<p] is not found in a text whose
    only [<] opens a tag that does not begin with [p]. *)
Lemma lt_p_not_found r (pre body post : pystr) :
  (forall t s', matches r t s' -> exists rest : pystr, t = U.lt :: 0x70 :: rest) ->
  ~ In U.lt pre -> ~ In U.lt body -> ~ In U.lt post -> ~ starts_with_p body ->
  found r (pre ++ U.lt :: body ++ U.gt :: post) = false.
Proof.
  intros Hr Hpre Hbody Hpost Hp.
  destruct (found r _) eqn:F; [|reflexivity]. exfalso.
  apply found_iff in F. destruct F as (a & t & s' & E & M).
  destruct (Hr _ _ M) as [rest ->]. symmetry in E.
  apply cut_unique in E; [|assumption|].
  - destruct E as [_ E]. destruct body as [|b body]; cbn [app] in E.
    + discriminate.
    + inversion E; subst. apply Hp. now exists body.
  - intros Hin. apply in_app_or in Hin.
    destruct Hin as [Hin | [Hin | Hin]]; [now apply Hbody | discriminate | now apply Hpost].
Qed.

Lemma page_ann_lt_p t s' :
  matches page_ann_re t s' -> exists rest : pystr, t = U.lt :: 0x70 :: rest.
Proof.
  unfold page_ann_re. cbn [Seqs]. intros M.
  apply matches_seq_iff in M. destruct M as (s1 & M1 & _).
  apply matches_lit in M1. subst t. now exists s1.
Qed.

Lemma number_single_tag (pre body post : pystr) :
  ~ In U.lt pre -> ~ In U.lt post -> tag_body body ->
  number_markers (pre ++ U.lt :: body ++ U.gt :: post)
  = pre ++ (py "<1," ++ body ++ py ">") ++ post.
Proof.
  intros Hpre Hpost Hbody. unfold number_markers.
  rewrite (finditer_first_tag pre body post Hpre Hbody), (finditer_no_lt post Hpost).
  cbn [List.length seq combine fold_left m_text]. rewrite inner_tag.
  rewrite <- (replace_first U.lt (body ++ [U.gt]) (py "<1," ++ body ++ py ">")
                            pre post Hpre).
  f_equal. cbn [app]. now rewrite <- !app_assoc.
Qed.

Lemma single_tag_reformat (pre body post : pystr) :
  ~ In U.lt pre -> ~ In U.lt body -> ~ In U.lt post ->
  tag_body body -> ~ starts_with_p body ->
  reformatting_body (pre ++ U.lt :: body ++ U.gt :: post)
  = pre ++ (py "<1," ++ body ++ py ">") ++ post.
Proof.
  intros Hpre Hlt Hpost Hbody Hp.
  pose proof (lt_p_not_found page_ann_re pre body post page_ann_lt_p
                             Hpre Hlt Hpost Hp) as F.
  unfold reformatting_body, findall, finditer, split.
  rewrite (scan_none_gaps _ _ (found_false_search _ _ F)).
  rewrite pieces_gaps. cbn [rev app].
  match goal with
  | |- context [hits (map Gap ?s)] =>
      replace (hits (map Gap s)) with (@nil rmatch)
        by (clear; induction s; [reflexivity | assumption])
  end.
  cbn [map Py.zip_longest fold_left app].
  rewrite (number_single_tag pre body post Hpre Hpost Hbody). apply app_nil_r.
Qed.

(** X21. A text whose only [<] opens one tag, not a page boundary, comes
    out of [reformatting_body] with that tag numbered 1 and everything
    else in place. *)
Theorem reformatting_body_single_tag (pre body post : pystr) :
  ~ In U.lt pre -> ~ In U.lt body -> ~ In U.lt post ->
  tag_body body -> ~ starts_with_p body ->
  reformatting_body (pre ++ U.lt :: body ++ U.gt :: post)
  = pre ++ (py "<1," ++ body ++ py ">") ++ post.
Proof. exact (single_tag_reformat pre body post). Qed.

Lemma reformatting_body_single_tag_witness :
  reformatting_body (py "ka " ++ U.lt :: py "12,m" ++ U.gt :: py " kha")
  = py "ka " ++ (py "<1," ++ py "12,m" ++ py ">") ++ py " kha".
Proof.
  apply reformatting_body_single_tag.
  - vm_compute. intuition discriminate.
  - vm_compute. intuition discriminate.
  - vm_compute. intuition discriminate.
  - split; [discriminate|]. repeat constructor; discriminate.
  - intros [tl E]. discriminate.
Defined.

(** ** The footnote table *)

Lemma pieces_count toks :
  forall acc, List.length (pieces [] acc toks) = S (List.length (hits toks)).
Proof.
  induction toks as [|[c|m] toks IH]; intros acc; cbn [pieces hits map app List.length].
  - reflexivity.
  - apply IH.
  - now rewrite IH.
Qed.

Lemma split_count r s :
  List.length (tl (split r [] s)) = List.length (findall r s).
Proof.
  unfold split, findall, finditer. rewrite length_map.
  pose proof (pieces_count (scan r s 0) []) as H.
  destruct (pieces [] [] (scan r s 0)); cbn [List.length tl] in *; lia.
Qed.

Lemma zip_longest_length {A} (fill : A) a :
  forall b, List.length (Py.zip_longest fill a b) = Nat.max (List.length a) (List.length b).
Proof.
  induction a as [|x a IH]; intros b.
  - cbn [Py.zip_longest List.length Nat.max]. apply length_map.
  - destruct b as [|y b]; cbn [Py.zip_longest List.length Nat.max].
    + rewrite IH. cbn [List.length]. now rewrite Nat.max_0_r.
    + now rewrite IH.
Qed.

Lemma number_pages_keys pages :
  forall walker,
    map fst (number_pages walker pages)
    = map (fun k => (walker + Z.of_nat k)%Z) (seq 0 (List.length pages)).
Proof.
  induction pages as [|page pages IH]; intros walker; [reflexivity|].
  cbn [number_pages map fst List.length seq]. f_equal.
  - cbn [Z.of_nat]. lia.
  - rewrite IH, <- seq_shift, map_map. apply map_ext. intros k. lia.
Qed.

(** X22. When the text holds a page reference and the first one reads as
    a number, [postprocess_footnotes] returns a table with one entry for
    each page reference, and its keys count up by one from the number of
    the first reference - the numbers of the later references are not
    read. *)
Theorem postprocess_footnotes_keys footnotes vol_num first_ref others start :
  findall page_ref_re footnotes = first_ref :: others ->
  Py.int (Py.translate tib_digits_1_to_0 (py "1234567890") (py "<r>") first_ref)
  = Ok start ->
  exists table,
    postprocess_footnotes footnotes vol_num = Ok table /\
    map fst table
    = map (fun k => (start + Z.of_nat k)%Z) (seq 0 (S (List.length others))).
Proof.
  intros Hrefs Hint. unfold postprocess_footnotes.
  rewrite Hrefs. cbn [Py.index nth_error bind]. rewrite Hint. cbn [bind].
  eexists. split; [reflexivity|].
  rewrite number_pages_keys, length_map, zip_longest_length, split_count, Hrefs.
  cbn [List.length]. now rewrite Nat.max_id.
Qed.

Lemma postprocess_footnotes_keys_witness :
  exists table,
    postprocess_footnotes (py "<r5>a<r9>b") 1 = Ok table /\
    map fst table = map (fun k => (5 + Z.of_nat k)%Z) (seq 0 (S (List.length [py "<r9>"]))).
Proof.
  apply (postprocess_footnotes_keys (py "<r5>a<r9>b") 1 (py "<r5>") [py "<r9>"] 5%Z).
  - vm_compute. reflexivity.
  - vm_compute. reflexivity.
Defined.

(** A text without a decimal glyph is no number for [int]. *)
Lemma digit_value_none c : is_decimal c = false -> Py.digit_value c = None.
Proof.
  unfold is_decimal, Py.digit_value. intros H.
  destruct (find (fun b => in_range b (b + 9) c) nd_blocks) as [b|] eqn:E; [|reflexivity].
  apply find_some in E. destruct E as [Hin Hb].
  assert (X : existsb (fun b => in_range b (b + 9) c) nd_blocks = true)
    by (apply existsb_exists; now exists b).
  congruence.
Qed.

Lemma digits_value_no_digit acc (s : pystr) :
  forallb (fun c => negb (is_decimal c)) s = true -> Py.digits_value acc false s = None.
Proof.
  destruct s as [|x s]; [reflexivity|]. cbn [forallb Py.digits_value].
  rewrite andb_true_iff, negb_true_iff. intros [Hx _].
  rewrite (digit_value_none x Hx). now rewrite andb_false_r.
Qed.

Lemma lstrip_keeps (P : char -> Prop) s : Forall P s -> Forall P (Py.lstrip s).
Proof.
  induction 1 as [|x s Hx Hs IH]; [constructor|].
  cbn [Py.lstrip]. destruct (is_space x); [assumption | now constructor].
Qed.

Lemma strip_keeps (P : char -> Prop) s : Forall P s -> Forall P (Py.strip s).
Proof.
  intros H. unfold Py.strip.
  apply Forall_rev, lstrip_keeps, Forall_rev, lstrip_keeps, H.
Qed.

Lemma int_lstrip_keeps (P : char -> Prop) s : Forall P s -> Forall P (Py.int_lstrip s).
Proof.
  induction 1 as [|x s Hx Hs IH]; [constructor|].
  cbn [Py.int_lstrip]. destruct (Py.int_blank x); [assumption | now constructor].
Qed.

Lemma int_strip_keeps (P : char -> Prop) s : Forall P s -> Forall P (Py.int_strip s).
Proof.
  intros H. unfold Py.int_strip.
  apply Forall_rev, int_lstrip_keeps, Forall_rev, int_lstrip_keeps, H.
Qed.

Ltac sign_cases D1 D2 :=
  cbv beta iota;
  first [ rewrite D1; reflexivity
        | rewrite D2; reflexivity
        | match goal with
          | p : positive |- _ => destruct p; sign_cases D1 D2
          end ].

Lemma int_no_digit (s : pystr) :
  forallb (fun c => negb (is_decimal c)) s = true -> Py.int s = Raise ValueError.
Proof.
  intros H. unfold Py.int.
  assert (Ht : forallb (fun c => negb (is_decimal c)) (Py.int_strip s) = true).
  { apply forallb_forall. rewrite forallb_forall in H.
    apply Forall_forall. apply int_strip_keeps. apply Forall_forall. exact H. }
  destruct (Py.int_strip s) as [|x t].
  - reflexivity.
  - pose proof (digits_value_no_digit 0 (x :: t) Ht) as D1.
    cbn [forallb] in Ht. apply andb_true_iff in Ht. destruct Ht as [_ Ht].
    pose proof (digits_value_no_digit 0 t Ht) as D2.
    destruct x as [|p]; sign_cases D1 D2.
Qed.

Lemma trans_lookup_other c :
  is_decimal c = false ->
  Py.trans_lookup tib_digits_1_to_0 (py "1234567890") c = c.
Proof.
  intros H. unfold tib_digits_1_to_0. cbn [of_string Py.trans_lookup].
  repeat match goal with
         | |- (if ?x =? c then _ else _) = c =>
             destruct (N.eqb_spec x c) as [E|_];
             [exfalso; rewrite <- E in H; vm_compute in H; discriminate|]
         end.
  reflexivity.
Qed.

Lemma translate_no_digit (s : pystr) :
  forallb (fun c => negb (is_decimal c)) s = true ->
  forallb (fun c => negb (is_decimal c))
          (Py.translate tib_digits_1_to_0 (py "1234567890") (py "<r>") s) = true.
Proof.
  intros H. unfold Py.translate. apply forallb_forall. intros c Hc.
  apply in_map_iff in Hc. destruct Hc as (x & Ex & Hx).
  apply filter_In in Hx. destruct Hx as [Hx _].
  rewrite forallb_forall in H. specialize (H x Hx).
  rewrite trans_lookup_other in Ex by (now apply negb_true_iff). now subst c.
Qed.

(** X23. When the first page reference of the text holds no decimal
    glyph there is no number to start the table from, and
    [postprocess_footnotes] raises [ValueError]. *)
Theorem postprocess_footnotes_ref_without_number footnotes vol_num first_ref others :
  findall page_ref_re footnotes = first_ref :: others ->
  forallb (fun c => negb (is_decimal c)) first_ref = true ->
  postprocess_footnotes footnotes vol_num = Raise ValueError.
Proof.
  intros Hrefs Hnone. unfold postprocess_footnotes.
  rewrite Hrefs. cbn [Py.index nth_error bind].
  now rewrite (int_no_digit _ (translate_no_digit first_ref Hnone)).
Qed.

Lemma postprocess_footnotes_ref_without_number_witness :
  postprocess_footnotes (py "<ref>a note<r2>b") 1 = Raise ValueError.
Proof.
  apply (postprocess_footnotes_ref_without_number (py "<ref>a note<r2>b") 1
                                                  (py "<ref>") [py "<r2>"]).
  - vm_compute. reflexivity.
  - vm_compute. reflexivity.
Defined.

(** ** Note or marker *)

Lemma tib_digit_decimal c : in_range U.tib0 U.tib9 c = true -> is_decimal c = true.
Proof.
  intros H. unfold in_range in H. rewrite andb_true_iff, !N.leb_le in H.
  destruct H as [Hlo Hhi].
  assert (Hc : exists d, (d <= 9)%nat /\ c = U.tib0 + N.of_nat d).
  { exists (N.to_nat (c - U.tib0)). unfold U.tib0, U.tib9 in *. split; lia. }
  destruct Hc as (d & Hd & ->). pattern d.
  apply below_cases with (b := 10%nat); [lia|].
  repeat (constructor; [vm_compute; reflexivity|]). constructor.
Qed.

(** X24. [is_note] answers [True] exactly for the texts that hold no
    circled numeral 0 to 20, no decimal digit of any script and no
    parenthesis. *)
Theorem is_note_no_marker_glyph diff :
  is_note diff = forallb (fun c => negb (marker_glyph c)) diff.
Proof.
  unfold is_note, is_note_patterns, Range, Chr, Digit. cbn [fold_left].
  rewrite !(class_found (class_like_cls _)).
  induction diff as [|x diff IH]; [reflexivity|].
  cbn [existsb forallb]. rewrite <- IH. unfold marker_glyph.
  rewrite (N.eqb_sym x U.circ0), (N.eqb_sym x U.rparen), (N.eqb_sym x U.lparen).
  destruct (in_range U.tib0 U.tib9 x) eqn:Ht.
  - rewrite (tib_digit_decimal x Ht).
    destruct (in_range U.circ1 U.circ20 x), (U.circ0 =? x), (U.rparen =? x),
      (U.lparen =? x); cbn [orb negb andb];
      repeat match goal with |- context [if ?b then _ else _] => destruct b end;
      reflexivity.
  - destruct (in_range U.circ1 U.circ20 x), (U.circ0 =? x), (U.rparen =? x),
      (U.lparen =? x), (is_decimal x); cbn [orb negb andb];
      repeat match goal with |- context [if ?b then _ else _] => destruct b end;
      reflexivity.
Qed.

(** ** A marker from the source to the body *)

Lemma circled_marker_facts n :
  (n <= 20)%nat ->
  Py.truthy (get_marker [circled_glyph n]) = true /\
  rm_noise [circled_glyph n] = [circled_glyph n] /\
  get_abs_marker [circled_glyph n] = [circled_glyph n] /\
  get_value [circled_glyph n] = Ok (Py.str_of_N (N.of_nat n)) /\
  in_range 0x30 0x39 (circled_glyph n) = false /\
  (circled_glyph n =? U.lt) = false /\ (circled_glyph n =? U.gt) = false /\
  (circled_glyph n =? U.nl) = false.
Proof.
  intros Hn. pattern n. apply below_cases with (b := 21%nat); [lia|].
  repeat (constructor; [vm_compute; repeat split; reflexivity|]). constructor.
Qed.

Lemma page_pattern_needs_digit vol t s' :
  matches (page_pattern vol) t s' -> exists x, In x t /\ in_range 0x30 0x39 x = true.
Proof.
  unfold page_pattern. cbn [Seqs]. intros M.
  apply matches_seq_iff in M. destruct M as (s1 & M1 & _).
  apply matches_lit in M1. subst t.
  pose proof (str_of_N_nonempty vol) as Hne. pose proof (str_of_N_digits vol) as Hd.
  destruct (Py.str_of_N vol) as [|x v]; [congruence|].
  cbn [forallb] in Hd. apply andb_true_iff in Hd. destruct Hd as [Hx _].
  exists x. split; [now left | assumption].
Qed.

(** The tag that the formatter writes for a circled numeral. *)
Lemma circled_tag_body n :
  (n <= 20)%nat ->
  let body := Py.str_of_N (N.of_nat n) ++ py "," ++ [circled_glyph n] in
  ~ In U.lt body /\ tag_body body /\ ~ starts_with_p body.
Proof.
  intros Hn body.
  destruct (circled_marker_facts n Hn) as (_ & _ & _ & _ & _ & G1 & G2 & G3).
  apply N.eqb_neq in G1, G2, G3.
  assert (D : forall c, In c (Py.str_of_N (N.of_nat n)) ->
                        c <> U.lt /\ c <> U.gt /\ c <> U.nl /\ c <> 0x70).
  { intros c Hc. pose proof (str_of_N_digits (N.of_nat n)) as H.
    rewrite forallb_forall in H. specialize (H c Hc).
    destruct (ascii_digit_class _ H) as (_ & _ & H1 & H2 & H3).
    apply N.eqb_neq in H1, H2, H3. repeat split; try assumption.
    intros ->. vm_compute in H. discriminate. }
  assert (B : forall c, In c body -> c <> U.lt /\ c <> U.gt /\ c <> U.nl).
  { intros c Hc. unfold body in Hc. apply in_app_or in Hc.
    destruct Hc as [Hc | [Hc | [Hc | []]]].
    - destruct (D c Hc) as (? & ? & ? & _). auto.
    - subst c. repeat split; discriminate.
    - subst c. auto. }
  split; [|split].
  - intros Hin. destruct (B _ Hin) as (H & _). now apply H.
  - split.
    + unfold body. pose proof (str_of_N_nonempty (N.of_nat n)).
      destruct (Py.str_of_N (N.of_nat n)); [congruence | discriminate].
    + apply Forall_forall. intros c Hc. destruct (B c Hc) as (_ & ? & ?). auto.
  - intros [rest E]. unfold body in E.
    pose proof (str_of_N_nonempty (N.of_nat n)) as Hne.
    destruct (Py.str_of_N (N.of_nat n)) as [|x v] eqn:Es; [congruence|].
    cbn [app] in E. inversion E; subst.
    destruct (D 0x70 (or_introl eq_refl)) as (_ & _ & _ & Hp). congruence.
Qed.

Lemma marker_between_equals (a b : pystr) c b' n vol :
  (n <= 20)%nat -> is_midsyl a b = false -> b = c :: b' -> c <> U.tseg ->
  filter_diffs [mkDiff 0 a; mkDiff (-1) [circled_glyph n]; mkDiff 0 b] vol
  = Ok [mkEntry 0 a []; mkEntry 1 [circled_glyph n] tag_marker; mkEntry 0 b []].
Proof.
  intros Hn Hmid Eb Hc.
  destruct (circled_marker_facts n Hn) as (F1 & F2 & _ & _ & F5 & _).
  assert (F3 : found (page_pattern vol) [circled_glyph n] = false).
  { apply (found_needs_class (in_range 0x30 0x39)).
    - apply page_pattern_needs_digit.
    - cbn [forallb]. now rewrite F5. }
  unfold filter_diffs. cbn [List.length seq fold_left bind].
  unfold filter_step at 1. cbn [st_diffs st_result st_left st_right Py.index nth_error bind
                                d_op d_text Z.eqb Pos.eqb Nat.add app].
  unfold filter_step at 1. cbn [st_diffs st_result st_left st_right Py.index nth_error bind
                                d_op d_text Z.eqb Pos.eqb Nat.add app].
  rewrite F3.
  unfold classify_source, deref_left, deref_right.
  cbn [st_diffs st_result st_left st_right Py.index nth_error bind d_op d_text Z.eqb
       Pos.eqb Nat.add app Nat.ltb Nat.leb List.length Nat.sub nth andb].
  rewrite Hmid, F1. cbn [andb].
  unfold shift_and_mark, tseg_shifter. rewrite Eb at 1. cbn [Py.first_char bind].
  replace (c =? U.tseg) with false by (symmetry; now apply N.eqb_neq).
  cbn [andb bind]. rewrite F2.
  unfold double_marker_handler. cbn [List.length app Nat.ltb Nat.leb].
  unfold filter_step. cbn [st_diffs st_result st_left st_right Py.index nth_error bind
                           d_op d_text Z.eqb Pos.eqb Nat.add app].
  reflexivity.
Qed.

Lemma circled_marker_piece n vol :
  (n <= 20)%nat ->
  format_piece vol (mkEntry 1 [circled_glyph n] tag_marker)
  = Ok (py "<" ++ Py.str_of_N (N.of_nat n) ++ py "," ++ [circled_glyph n] ++ py ">").
Proof.
  intros Hn. destruct (circled_marker_facts n Hn) as (_ & _ & F3 & F4 & _).
  unfold format_piece. cbn [e_op e_text e_tag Z.eqb orb].
  change (Py.truthy tag_marker) with true.
  change (str_eqb tag_marker tag_page) with false.
  change (str_eqb tag_marker tag_marker) with true.
  cbv iota. cbn [bind]. rewrite F3. cbn [Py.truthy]. rewrite F4. reflexivity.
Qed.

(** X25. From the diffs to the body: a circled numeral 0 to 20 that only
    the source has, between two texts that both have, not inside a
    syllable and not before a tseg, comes out as the tag of the first
    marker of the page - [<1,n,glyph>] with its decimal value [n] - right
    between the two texts, which are unchanged. *)
Theorem reconstruct_body_transfers_marker (a b : pystr) c b' n vol_num :
  (n <= 20)%nat -> is_midsyl a b = false -> b = c :: b' -> c <> U.tseg ->
  ~ In U.lt a -> ~ In U.lt b ->
  reconstruct_body_from [mkDiff 0 a; mkDiff (-1) [circled_glyph n]; mkDiff 0 b] vol_num
  = Ok (a ++ (py "<1," ++ (Py.str_of_N (N.of_nat n) ++ py "," ++ [circled_glyph n])
                ++ py ">") ++ b).
Proof.
  intros Hn Hmid Eb Hc Ha Hb. unfold reconstruct_body_from.
  rewrite (marker_between_equals a b c b' n vol_num Hn Hmid Eb Hc). cbn [bind].
  rewrite !format_diff_cons, (circled_marker_piece n vol_num Hn).
  unfold format_piece at 1 2. cbn [e_op e_text e_tag Z.eqb orb Py.truthy bind].
  change (format_diff [] vol_num) with (@Ok pystr []). cbn [bind].
  destruct (circled_tag_body n Hn) as (B1 & B2 & B3).
  rewrite <- (single_tag_reformat a _ b Ha B1 Hb B2 B3).
  f_equal. f_equal. cbn [app]. rewrite <- !app_assoc. cbn [app]. now rewrite app_nil_r.
Qed.

Lemma reconstruct_body_transfers_marker_witness :
  reconstruct_body_from
    [mkDiff 0 [0x0F40; U.tseg]; mkDiff (-1) [circled_glyph 12]; mkDiff 0 [0x0F41; U.tseg]] 3
  = Ok ([0x0F40; U.tseg]
        ++ (py "<1," ++ (Py.str_of_N (N.of_nat 12) ++ py "," ++ [circled_glyph 12]) ++ py ">")
        ++ [0x0F41; U.tseg]).
Proof.
  apply (reconstruct_body_transfers_marker
           [0x0F40; U.tseg] [0x0F41; U.tseg] 0x0F41 [U.tseg] 12 3).
  - lia.
  - vm_compute. reflexivity.
  - reflexivity.
  - discriminate.
  - vm_compute. intuition discriminate.
  - vm_compute. intuition discriminate.
Defined.

(** ** What the body classifier returns *)

Ltac step_res H :=
  match type of H with
  | bind ?m _ = Ok _ =>
      let E := fresh "E" in destruct m eqn:E; cbn [bind] in H; [|discriminate H]
  | (if ?b then _ else _) = Ok _ => destruct b
  | (let (_, _) := ?p in _) = Ok _ => destruct p
  | Raise _ = Ok _ => discriminate H
  | Ok _ = Ok _ => inversion H; subst; clear H
  end.

Lemma upd_last_text_keeps f result r :
  upd_last_text f result = Ok r -> Forall body_entry result -> Forall body_entry r.
Proof.
  unfold upd_last_text. intros H Hin.
  apply Forall_rev in Hin. destruct (rev result) as [|e rest]; [discriminate|].
  inversion H; subst. inversion Hin as [|? ? He Hrest]; subst.
  apply Forall_app. split; [now apply Forall_rev|].
  constructor; [exact He | constructor].
Qed.

Lemma marker_entry_ok t : body_entry (mkEntry 1 t tag_marker).
Proof. split; [now right | right; now left]. Qed.

Lemma snoc_keeps result e :
  Forall body_entry result -> body_entry e -> Forall body_entry (result ++ [e]).
Proof. intros H He. apply Forall_app. split; [assumption | now constructor]. Qed.

Lemma tseg_shifter_keeps result diffs l i r result1 diffs1 :
  tseg_shifter result diffs l i r = Ok (result1, diffs1) ->
  Forall body_entry result -> Forall body_entry result1.
Proof.
  unfold tseg_shifter. intros H Hin. repeat step_res H;
    eauto using upd_last_text_keeps.
Qed.

Lemma shift_and_mark_keeps result diffs l i r diff_ result1 diffs1 :
  shift_and_mark result diffs l i r diff_ = Ok (result1, diffs1) ->
  Forall body_entry result -> Forall body_entry result1.
Proof.
  unfold shift_and_mark. intros H Hin. repeat step_res H.
  apply snoc_keeps; [|apply marker_entry_ok].
  eapply tseg_shifter_keeps; eassumption.
Qed.

Lemma move_first_syl_keeps result diffs i r new result1 diffs1 :
  move_first_syl result diffs i r new = Ok (result1, diffs1) ->
  Forall body_entry result -> body_entry new -> Forall body_entry result1.
Proof.
  unfold move_first_syl. intros H Hin Hnew. repeat step_res H.
  apply snoc_keeps; [|assumption]. eapply upd_last_text_keeps; eassumption.
Qed.

Lemma handle_mid_syl_keeps result diffs left_diff i diff r result1 diffs1 :
  handle_mid_syl result diffs left_diff i diff r (Some tag_marker) = Ok (result1, diffs1) ->
  Forall body_entry result -> Forall body_entry result1.
Proof.
  unfold handle_mid_syl. cbn [fmt_marker_type]. intros H Hin.
  repeat step_res H;
    first [ assumption
          | eapply move_first_syl_keeps; [eassumption | assumption | apply marker_entry_ok]
          | apply snoc_keeps; [|apply marker_entry_ok];
            first [assumption | eapply upd_last_text_keeps; eassumption] ].
Qed.

Lemma classify_source_keeps st i diff result1 diffs1 handled :
  classify_source st i diff = Ok (result1, diffs1, handled) ->
  Forall body_entry (st_result st) -> Forall body_entry result1.
Proof.
  unfold classify_source. intros H Hin.
  repeat step_res H;
    first [ assumption
          | eapply handle_mid_syl_keeps; eassumption
          | eapply shift_and_mark_keeps; eassumption ].
Qed.

Lemma removelast_keeps (l : list entry) :
  Forall body_entry l -> Forall body_entry (removelast l).
Proof.
  induction 1 as [|e l He Hl IH]; [constructor|].
  cbn [removelast]. destruct l; [constructor | now constructor].
Qed.

Lemma double_marker_handler_keeps result :
  Forall body_entry result -> Forall body_entry (double_marker_handler result).
Proof.
  intros H. unfold double_marker_handler.
  destruct (3 <? List.length result)%nat; [|assumption].
  destruct (rev result) as [|cur [|prev1 [|prev2 rest]]]; try assumption.
  destruct (_ && _); [now apply removelast_keeps | assumption].
Qed.

Lemma filter_step_keeps vol st i st' :
  filter_step vol st i = Ok st' ->
  Forall body_entry (st_result st) -> Forall body_entry (st_result st').
Proof.
  unfold filter_step. intros H Hin.
  destruct (Py.index (st_diffs st) i) as [diff|] eqn:Ei; cbn [bind] in H; [|discriminate].
  destruct (d_op diff =? 0)%Z eqn:E0.
  { inversion H; subst. cbn [st_result]. apply snoc_keeps; [assumption|].
    apply Z.eqb_eq in E0. split; [now left | now left]. }
  destruct (d_op diff =? 1)%Z eqn:E1.
  { inversion H; subst. cbn [st_result]. apply snoc_keeps; [assumption|].
    apply Z.eqb_eq in E1. split; [now right | now left]. }
  destruct (d_op diff =? -1)%Z; [|inversion H; subst; assumption].
  destruct (found (page_pattern vol) (d_text diff)).
  { inversion H; subst. cbn [st_result]. apply snoc_keeps; [assumption|].
    split; [now right | right; now right]. }
  match type of H with
  | bind ?m _ = _ =>
      destruct m as [[[result1 diffs1] handled]|] eqn:Ec; cbn [bind] in H; [|discriminate]
  end.
  inversion H; subst. cbn [st_result].
  assert (K : Forall body_entry result1)
    by (eapply classify_source_keeps; [eassumption | exact Hin]).
  destruct handled; [now apply double_marker_handler_keeps | assumption].
Qed.

Lemma filter_fold_raise vol idx e :
  fold_left (fun acc i => st <- acc ;; filter_step vol st i) idx (Raise e) = Raise e.
Proof. induction idx as [|i idx IH]; [reflexivity | exact IH]. Qed.

Lemma filter_fold_keeps vol idx :
  forall st st',
    fold_left (fun acc i => st <- acc ;; filter_step vol st i) idx (Ok st) = Ok st' ->
    Forall body_entry (st_result st) -> Forall body_entry (st_result st').
Proof.
  induction idx as [|i idx IH]; intros st st' H Hin.
  - inversion H; subst. exact Hin.
  - cbn [fold_left bind] in H.
    destruct (filter_step vol st i) as [st1|e] eqn:E.
    + apply (IH st1 st' H). exact (filter_step_keeps vol st i st1 E Hin).
    + rewrite filter_fold_raise in H. discriminate.
Qed.

(** X26. Whatever the diffs, every entry that the body classifier
    returns is an equal or an insert entry - a source-only diff is passed
    on as an insert or not at all - and its tag is empty, [marker] or
    [pedurma-page]. *)
Theorem filter_diffs_entries diffs vol_num result :
  filter_diffs diffs vol_num = Ok result -> Forall body_entry result.
Proof.
  unfold filter_diffs. intros H.
  destruct (fold_left _ (seq 0 (List.length diffs)) (Ok (mkF [] diffs None None)))
    as [st|e] eqn:E; [|discriminate].
  cbn [bind] in H. inversion H; subst.
  apply (filter_fold_keeps vol_num _ _ st E). constructor.
Qed.

Lemma filter_diffs_entries_witness :
  Forall body_entry
         [mkEntry 0 [0x0F40; U.tseg] []; mkEntry 1 [U.circ1] tag_marker;
          mkEntry 0 [0x0F41] []].
Proof.
  apply (filter_diffs_entries
           [mkDiff 0 [0x0F40; U.tseg]; mkDiff (-1) [U.circ1]; mkDiff 0 [0x0F41]] 3).
  vm_compute. reflexivity.
Defined.

(** ** Marker or not *)

Lemma excep_tag_starts t s' :
  matches (Seqs [Lit (py "<m"); Grp 1 (Plus false Dot); Chr U.gt]) t s' ->
  exists rest, t = py "<m" ++ rest.
Proof.
  cbn [Seqs]. intros M. apply matches_seq_iff in M. destruct M as (s1 & M1 & _).
  apply matches_lit in M1. subst t. now exists s1.
Qed.

Lemma excep_line_has_hash t s' :
  matches (Grp 1 (Seqs [Star true Dot; Chr U.hash; Star true Dot])) t s' ->
  exists x, In x t /\ (U.hash =? x) = true.
Proof.
  cbn [Seqs]. intros M. apply matches_grp_iff in M.
  apply matches_seq_iff in M. destruct M as (s1 & M1 & M).
  apply matches_seq_iff in M. destruct M as (s2 & M2 & _).
  apply matches_chr_iff in M2. subst s1.
  destruct (matches_suffix M1) as [q ->].
  exists U.hash. split; [apply in_or_app; right; now left | apply N.eqb_refl].
Qed.

Lemma excep_marker_none (diff : pystr) :
  ~ In U.hash diff -> Py.contains (py "<m") diff = false -> get_excep_marker diff = [].
Proof.
  intros Hh Hm. unfold get_excep_marker, excep_marker_patterns. cbn [fold_left].
  rewrite (found_false_search _ _ (found_needs_prefix _ _ _ excep_tag_starts Hm)).
  rewrite (found_false_search _ diff); [reflexivity|].
  apply (found_needs_class (N.eqb U.hash)); [exact excep_line_has_hash|].
  apply forallb_forall. intros c Hc. apply negb_true_iff, N.eqb_neq.
  intros <-. now apply Hh.
Qed.

(** X27. What makes a diff text a marker for the body classifier: a text
    that holds a circled-range glyph, a Tibetan digit or an ASCII digit
    has a marker, the one [get_abs_marker] returns; a text that holds none
    of them, no [#] and no [<m] has none. *)
Theorem get_marker_decides (diff : pystr) :
  (existsb abs_class diff = true ->
   get_marker diff = get_abs_marker diff /\ Py.truthy (get_marker diff) = true) /\
  (existsb abs_class diff = false -> ~ In U.hash diff ->
   Py.contains (py "<m") diff = false -> get_marker diff = []).
Proof.
  destruct (abs_marker_class diff) as [_ Hempty]. unfold get_marker. split.
  - intros H.
    destruct (get_abs_marker diff) as [|x m] eqn:E; [|split; reflexivity].
    exfalso. pose proof (proj1 Hempty eq_refl) as Hnone.
    apply existsb_exists in H. destruct H as (c & Hc & Hp).
    rewrite forallb_forall in Hnone. specialize (Hnone c Hc).
    rewrite Hp in Hnone. discriminate.
  - intros H Hh Hm.
    assert (Hnone : forallb (fun c => negb (abs_class c)) diff = true).
    { apply forallb_forall. intros c Hc. apply negb_true_iff.
      destruct (abs_class c) eqn:Hp; [|reflexivity].
      assert (X : existsb abs_class diff = true) by (apply existsb_exists; now exists c).
      congruence. }
    rewrite (proj2 Hempty Hnone). cbn [Py.truthy].
    now rewrite (excep_marker_none diff Hh Hm).
Qed.

Lemma get_marker_decides_witness :
  (get_marker (py "a" ++ [U.circ1] ++ py "#b") = get_abs_marker (py "a" ++ [U.circ1] ++ py "#b")
   /\ Py.truthy (get_marker (py "a" ++ [U.circ1] ++ py "#b")) = true) /\
  get_marker (py "plain <tag>") = [].
Proof.
  split.
  - apply (proj1 (get_marker_decides (py "a" ++ [U.circ1] ++ py "#b"))).
    vm_compute. reflexivity.
  - apply (proj2 (get_marker_decides (py "plain <tag>"))).
    + vm_compute. reflexivity.
    + vm_compute. intuition discriminate.
    + vm_compute. reflexivity.
Defined.

(** ** One page of footnotes *)

Lemma match_at_page_ref (q post : pystr) :
  tag_body q ->
  match_at page_ref_re (py "<r" ++ q ++ U.gt :: post)
  = Some {| m_text := py "<r" ++ q ++ [U.gt]; m_caps := [] |}.
Proof.
  intros [Hne Hq]. unfold match_at, page_ref_re. cbn [Seqs].
  rewrite bt_seq, bt_lit_prefix. rewrite bt_seq. unfold Plus. rewrite bt_seq.
  destruct q as [|b q]; [congruence|]. cbn [app].
  inversion Hq as [|? ? [Hb1 Hb2] Hrest]; subst.
  unfold Dot. rewrite bt_cls_cons.
  replace (negb (b =? U.nl)) with true
    by (symmetry; apply negb_true_iff, N.eqb_neq; assumption).
  rewrite bt_star. apply lazy_run.
  - lia.
  - apply forallb_forall. intros x Hx. rewrite Forall_forall in Hrest.
    apply negb_true_iff, N.eqb_neq. now apply Hrest.
  - intros x s Hx. unfold Chr. rewrite bt_cls_cons.
    rewrite Forall_forall in Hrest. destruct (Hrest x Hx) as [Hgt _].
    replace (U.gt =? x) with false by (symmetry; apply N.eqb_neq; congruence).
    reflexivity.
  - unfold Chr. rewrite bt_cls_cons, N.eqb_refl. f_equal. f_equal.
    change (of_string "<r" ++ b :: q ++ U.gt :: post)
      with ((U.lt :: 0x72%N :: b :: q) ++ [U.gt] ++ post).
    change (of_string "<r" ++ b :: q ++ [U.gt]) with ((U.lt :: 0x72%N :: b :: q) ++ [U.gt]).
    rewrite app_assoc.
    replace (List.length (((U.lt :: 0x72%N :: b :: q) ++ [U.gt]) ++ post)
             - List.length post)%nat
      with (List.length ((U.lt :: 0x72%N :: b :: q) ++ [U.gt]))
      by (rewrite (length_app _ post); lia).
    rewrite firstn_app, Nat.sub_diag, firstn_all. cbn [firstn]. now rewrite app_nil_r.
Qed.

Lemma page_ref_starts t s' : matches page_ref_re t s' -> exists rest, t = U.lt :: rest.
Proof.
  intros M. apply matches_page_ref in M. destruct M as (q & _ & _ & ->).
  eexists. reflexivity.
Qed.

Lemma scan_single_page_ref (q body : pystr) :
  tag_body q -> ~ In U.lt body ->
  scan page_ref_re (py "<r" ++ q ++ U.gt :: body) 0
  = Hit {| m_text := py "<r" ++ q ++ [U.gt]; m_caps := [] |} :: map Gap body.
Proof.
  intros Hq Hbody.
  pose proof (match_at_page_ref q body Hq) as M.
  change (of_string "<r" ++ q ++ U.gt :: body) with (U.lt :: 0x72%N :: q ++ U.gt :: body) in *.
  cbn [scan]. rewrite M. cbn [m_text of_string app List.length]. f_equal.
  replace (q ++ U.gt :: body) with ((q ++ [U.gt]) ++ body)
    by (rewrite <- app_assoc; reflexivity).
  rewrite scan_skip. apply scan_none_gaps, found_false_search.
  exact (found_needs U.lt page_ref_re body page_ref_starts Hbody).
Qed.

Lemma trans_lookup_ascii c :
  in_range 0x30 0x39 c = true ->
  Py.trans_lookup tib_digits_1_to_0 (py "1234567890") c = c.
Proof.
  intros H. unfold tib_digits_1_to_0. cbn [of_string Py.trans_lookup].
  repeat match goal with
         | |- (if ?x =? c then _ else _) = c =>
             destruct (N.eqb_spec x c) as [E|_];
             [exfalso; rewrite <- E in H; vm_compute in H; discriminate|]
         end.
  reflexivity.
Qed.

Lemma digit_not_deleted c :
  in_range 0x30 0x39 c = true -> negb (existsb (N.eqb c) (py "<r>")) = true.
Proof.
  unfold in_range. rewrite andb_true_iff, !N.leb_le. intros [Hlo Hhi].
  assert (Hc : exists d, (d <= 9)%nat /\ c = 0x30 + N.of_nat d).
  { exists (N.to_nat (c - 0x30)). split; lia. }
  destruct Hc as (d & Hd & ->). pattern d.
  apply below_cases with (b := 10%nat); [lia|].
  repeat (constructor; [vm_compute; reflexivity|]). constructor.
Qed.

Lemma translate_page_ref n :
  Py.translate tib_digits_1_to_0 (py "1234567890") (py "<r>")
               (py "<r" ++ Py.str_of_N n ++ [U.gt])
  = Py.str_of_N n.
Proof.
  unfold Py.translate. pose proof (str_of_N_digits n) as H.
  rewrite forallb_forall in H.
  rewrite !filter_app.
  rewrite (filter_all _ (Py.str_of_N n))
    by (intros c Hc; apply digit_not_deleted; now apply H).
  match goal with
  | |- map _ (?a ++ _ ++ ?b) = _ =>
      change a with (@nil char); change b with (@nil char)
  end.
  cbn [app]. rewrite app_nil_r.
  rewrite (map_ext_in _ (fun c => c)); [apply map_id|].
  intros c Hc. apply trans_lookup_ascii. now apply H.
Qed.

Lemma splitlines_keeps (P : char -> Prop) s :
  forall acc after_cr,
    Forall P acc -> Forall P s -> Forall (Forall P) (Py.splitlines_from acc after_cr s).
Proof.
  induction s as [|x s IH]; intros acc after_cr Hacc Hs; cbn [Py.splitlines_from].
  - destruct acc; [constructor|]. constructor; [now apply Forall_rev | constructor].
  - inversion Hs as [|? ? Hx Hs']; subst.
    destruct (after_cr && (x =? 10)); [now apply IH|].
    destruct (Py.is_linebreak x).
    + constructor; [now apply Forall_rev | apply IH; [constructor | assumption]].
    + apply IH; [now constructor | assumption].
Qed.

Lemma page_footnotes_without_tags (body : pystr) :
  ~ In U.lt body ->
  page_footnotes body = filter Py.truthy (map Py.strip (Py.splitlines body)).
Proof.
  intros H. unfold page_footnotes.
  rewrite (number_markers_no_tag body (found_needs U.lt tag_re body tag_starts H)).
  apply filter_ext_in. intros line Hline.
  apply in_map_iff in Hline. destruct Hline as (raw & <- & Hraw).
  assert (Hno : Forall (fun c => c <> U.lt) (Py.strip raw)).
  { apply strip_keeps.
    assert (A : Forall (Forall (fun c => c <> U.lt)) (Py.splitlines body)).
    { apply splitlines_keeps; [constructor|].
      apply Forall_forall. intros c Hc ->. now apply H. }
    rewrite Forall_forall in A. now apply A. }
  destruct (Py.contains [U.lt] (Py.strip raw)) eqn:C.
  - exfalso. pose proof (contains_In _ _ U.lt C (or_introl eq_refl)) as Hin.
    rewrite Forall_forall in Hno. now apply (Hno U.lt Hin).
  - cbn [negb]. now rewrite orb_true_r, andb_true_r.
Qed.

(** X28. A footnote text that is one page reference [<rN>] followed by
    text without [<] gives a table with the single key [N], and under it
    the lines of that text, each stripped of surrounding white space,
    without the empty ones. *)
Theorem postprocess_footnotes_single_page n (body : pystr) vol_num :
  ~ In U.lt body ->
  postprocess_footnotes (py "<r" ++ Py.str_of_N n ++ U.gt :: body) vol_num
  = Ok [(Z.of_N n, filter Py.truthy (map Py.strip (Py.splitlines body)))].
Proof.
  intros Hbody.
  assert (Hq : tag_body (Py.str_of_N n)).
  { split; [apply str_of_N_nonempty|].
    apply Forall_forall. intros c Hc. pose proof (str_of_N_digits n) as H.
    rewrite forallb_forall in H. specialize (H c Hc).
    destruct (ascii_digit_class _ H) as (_ & _ & H1 & H2 & _).
    apply N.eqb_neq in H1, H2. now split. }
  unfold postprocess_footnotes, findall, finditer, split.
  rewrite (scan_single_page_ref _ body Hq Hbody).
  cbn [hits pieces map app rev tl].
  replace (hits (map Gap body)) with (@nil rmatch)
    by (clear; induction body; [reflexivity | assumption]).
  rewrite pieces_gaps. cbn [map m_text Py.index nth_error bind rev app tl].
  rewrite translate_page_ref, int_str_of_N. cbn [bind Py.zip_longest map fst number_pages].
  now rewrite (page_footnotes_without_tags body Hbody).
Qed.

Lemma postprocess_footnotes_single_page_witness :
  postprocess_footnotes (py "<r" ++ Py.str_of_N 12 ++ U.gt :: py " first note " ++ [U.nl; U.nl]
                            ++ py "second") 1
  = Ok [(Z.of_N 12,
         filter Py.truthy
                (map Py.strip (Py.splitlines (py " first note " ++ [U.nl; U.nl] ++ py "second"))))].
Proof.
  apply (postprocess_footnotes_single_page
           12 (py " first note " ++ [U.nl; U.nl] ++ py "second") 1).
  vm_compute. intuition discriminate.
Defined.

(** ** A tag with two glyphs *)

Lemma plus_greedy_run {A} p d n rest c (k : pystr -> caps -> option A) v :
  p d = true -> forallb p n = true ->
  match rest with [] => True | y :: _ => p y = false end ->
  k rest c = Some v ->
  bt (Plus true (Cls p)) ((d :: n) ++ rest) c k = Some v.
Proof.
  intros Hd Hn Hstop Hk. unfold Plus. rewrite bt_seq. cbn [app].
  rewrite bt_cls_cons, Hd, bt_star.
  apply (star_greedy_run p); [lia | assumption..].
Qed.

Lemma bt_grp {A} g a s c (k : pystr -> caps -> option A) :
  bt (Grp g a) s c k
  = bt a s c (fun s' c' => k s' ((g, firstn (List.length s - List.length s') s) :: c')).
Proof. reflexivity. Qed.

Lemma bt_grp_cls {A} g p x s c (k : pystr -> caps -> option A) :
  bt (Grp g (Cls p)) (x :: s) c k = if p x then k s ((g, [x]) :: c) else None.
Proof. rewrite bt_grp, bt_cls_cons. destruct (p x); [now rewrite one_step | reflexivity]. Qed.

Lemma firstn_front (a b : pystr) :
  firstn (List.length (a ++ b) - List.length b) (a ++ b) = a.
Proof.
  rewrite length_app. replace (List.length a + List.length b - List.length b)%nat
    with (List.length a) by lia.
  now rewrite firstn_app, Nat.sub_diag, firstn_all, app_nil_r.
Qed.

Lemma firstn_cut (a b : pystr) n s :
  s = a ++ b -> n = (List.length s - List.length b)%nat -> firstn n s = a.
Proof. intros -> ->. apply firstn_front. Qed.

Lemma match_pair_rule (digits note : pystr) g1 g2 :
  digits <> [] -> forallb is_decimal digits = true ->
  in_range U.circ1 U.circ0 g1 = true -> in_range U.circ1 U.circ0 g2 = true ->
  note <> [] -> ~ In U.nl note ->
  match_at (Seqs [Grp 1 numbered_head; Grp 2 circled; Grp 3 circled; Grp 4 tag_tail])
           (numbered_tag digits [g1; g2] note)
  = Some {| m_text := numbered_tag digits [g1; g2] note;
            m_caps := [(4%nat, U.gt :: note); (3%nat, [g2]); (2%nat, [g1]);
                       (1%nat, U.nl :: U.lt :: digits ++ [U.comma])] |}.
Proof.
  intros Hne Hd Hg1 Hg2 Hnote Hnl.
  unfold match_at, numbered_tag. cbn [Seqs app].
  rewrite bt_seq, bt_grp. unfold numbered_head at 1. cbn [Seqs].
  rewrite bt_seq.
  change (U.nl :: U.lt :: digits ++ U.comma :: g1 :: g2 :: U.gt :: note)
    with ((U.nl :: of_string "<") ++ digits ++ U.comma :: g1 :: g2 :: U.gt :: note).
  rewrite bt_lit_prefix, bt_seq.
  destruct digits as [|d ds]; [congruence|].
  cbn [forallb] in Hd. apply andb_true_iff in Hd. destruct Hd as [Hd Hds].
  unfold Digit.
  apply (plus_greedy_run is_decimal d ds (U.comma :: g1 :: g2 :: U.gt :: note));
    [assumption | assumption | reflexivity|].
  unfold Chr at 1. rewrite bt_cls_cons, N.eqb_refl.
  unfold circled, Range. rewrite bt_seq, bt_grp_cls, Hg1, bt_seq, bt_grp_cls, Hg2.
  rewrite bt_grp. unfold tag_tail. rewrite bt_seq.
  unfold Chr. rewrite bt_cls_cons, N.eqb_refl.
  destruct note as [|x note]; [congruence|].
  assert (Hx : negb (x =? U.nl) = true)
    by (apply negb_true_iff, N.eqb_neq; intros ->; apply Hnl; now left).
  assert (Hrest : forallb (fun c => negb (c =? U.nl)) note = true).
  { apply forallb_forall. intros c Hc. apply negb_true_iff, N.eqb_neq.
    intros ->. apply Hnl. now right. }
  unfold Dot. rewrite <- (app_nil_r (x :: note)) at 1.
  apply (plus_greedy_run _ x note []); [assumption | assumption | exact I|].
  change (List.length (@nil char)) with 0%nat. rewrite !Nat.sub_0_r, !firstn_all.
  rewrite (firstn_cut (U.nl :: U.lt :: (d :: ds) ++ [U.comma])
                      (g1 :: g2 :: U.gt :: x :: note) _ _);
    [reflexivity | cbn [app of_string]; rewrite <- app_assoc; reflexivity | reflexivity].
Qed.

Lemma numbered_head_reads t s' :
  matches (Grp 1 numbered_head) t s' ->
  exists q, q <> [] /\ forallb is_decimal q = true /\
            t = U.nl :: U.lt :: q ++ U.comma :: s'.
Proof.
  intros M. apply matches_grp_iff in M. unfold numbered_head in M. cbn [Seqs] in M.
  apply matches_seq_iff in M. destruct M as (s1 & M1 & M).
  apply matches_lit in M1. subst t.
  apply matches_seq_iff in M. destruct M as (s2 & M2 & M3).
  unfold Digit in M2. apply matches_plus_iff in M2. destruct M2 as (q & Hne & Hq & ->).
  apply matches_chr_iff in M3. subst s2. now exists q.
Qed.

Lemma glyph_reads g lo hi t s' :
  matches (Grp g (Range lo hi)) t s' -> exists x, t = x :: s' /\ in_range lo hi x = true.
Proof.
  intros M. apply matches_grp_iff in M.
  inversion M as [|? x ? Hx| | | | | |]; subst. now exists x.
Qed.

(** Two runs of one class that end at the same character are the same
    run. *)
Lemma run_unique (p : char -> bool) x (q q' b b' : pystr) :
  forallb p q = true -> forallb p q' = true -> p x = false ->
  q ++ x :: b = q' ++ x :: b' -> q = q' /\ b = b'.
Proof.
  intros Hq Hq' Hx. revert q' Hq'.
  induction q as [|y q IH]; intros [|y' q'] Hq' E; cbn [app] in E.
  - inversion E. now split.
  - inversion E; subst. cbn [forallb] in Hq'. rewrite Hx in Hq'. discriminate.
  - inversion E; subst. cbn [forallb] in Hq. rewrite Hx in Hq. discriminate.
  - inversion E; subst. cbn [forallb] in Hq, Hq'.
    apply andb_true_iff in Hq, Hq'. destruct Hq as [_ Hq]. destruct Hq' as [_ Hq'].
    destruct (IH Hq q' Hq' H1) as [-> ->]. now split.
Qed.

Lemma circled_not_gt : in_range U.circ1 U.circ0 U.gt = false.
Proof. reflexivity. Qed.

(** A rule that wants a third glyph does not read a tag with two. *)
Lemma third_glyph_missing (digits note : pystr) g1 g2 rest t s' :
  forallb is_decimal digits = true ->
  t = numbered_tag digits [g1; g2] note ->
  ~ matches (Seq (Grp 1 numbered_head)
               (Seq (Grp 2 circled) (Seq (Grp 3 circled) (Seq (Grp 4 circled) rest))))
            t s'.
Proof.
  intros Hd -> M.
  apply matches_seq_iff in M. destruct M as (s1 & M1 & M).
  apply numbered_head_reads in M1. destruct M1 as (q & _ & Hq & E).
  unfold numbered_tag in E. inversion E as [E1]. clear E.
  apply (run_unique is_decimal) in E1; [|assumption | assumption | reflexivity].
  destruct E1 as [_ <-].
  apply matches_seq_iff in M. destruct M as (s2 & M2 & M).
  apply glyph_reads in M2. destruct M2 as (x2 & E2 & _). inversion E2; subst.
  apply matches_seq_iff in M. destruct M as (s3 & M3 & M).
  apply glyph_reads in M3. destruct M3 as (x3 & E3 & _). inversion E3; subst.
  apply matches_seq_iff in M. destruct M as (s4 & M4 & _).
  apply glyph_reads in M4. destruct M4 as (x4 & E4 & H4). inversion E4; subst.
  rewrite circled_not_gt in H4. discriminate.
Qed.

Lemma only_rule_for_pair (digits note : pystr) g1 g2 p :
  digits <> [] -> forallb is_decimal digits = true ->
  in_range U.circ1 U.circ0 g1 = true -> in_range U.circ1 U.circ0 g2 = true ->
  ~ In U.nl note ->
  In p (removelast demultiply_patterns) ->
  found (fst p) (numbered_tag digits [g1; g2] note) = false.
Proof.
  intros Hne Hd Hg1 Hg2 Hnl Hp.
  destruct (found (fst p) _) eqn:F; [|reflexivity]. exfalso.
  apply found_iff in F. destruct F as (pre & t & s' & E & M).
  assert (Hin : In p demultiply_patterns).
  { unfold demultiply_patterns in *. cbn [removelast] in Hp. cbn [In] in *. tauto. }
  destruct (proj1 (demultiply_rule_shape p Hin t s' M)) as [rest Et].
  (* the only newline of the text is its first character *)
  assert (Htail : ~ In U.nl (U.lt :: digits ++ U.comma :: g1 :: g2 :: U.gt :: note)).
  { intros [C | C]; [discriminate|]. apply in_app_or in C.
    destruct C as [C | [C | [C | [C | [C | C]]]]]; try discriminate.
    - rewrite forallb_forall in Hd. specialize (Hd _ C). vm_compute in Hd. discriminate.
    - subst g1. vm_compute in Hg1. discriminate.
    - subst g2. vm_compute in Hg2. discriminate.
    - now apply Hnl. }
  assert (Epre : pre = []).
  { destruct pre as [|y pre]; [reflexivity|]. exfalso.
    unfold numbered_tag in E. cbn [app] in E. inversion E as [[Ey Etl]].
    apply Htail. rewrite Etl, Et. apply in_or_app. right. now left. }
  subst pre. cbn [app] in E. symmetry in E.
  unfold demultiply_patterns in Hp. cbn [removelast In] in Hp.
  destruct Hp as [<- | [<- | [<- | [<- | []]]]]; cbn [fst Seqs] in M.
  - exact (third_glyph_missing digits note g1 g2 _ t s' Hd E M).
  - apply matches_seq_iff in M. destruct M as (s1 & M1 & _).
    apply matches_grp_iff in M1. apply matches_lit in M1.
    rewrite E in M1. unfold numbered_tag in M1.
    destruct digits as [|d ds]; [congruence|].
    cbn [app of_string] in M1. inversion M1; subst.
    cbn [forallb] in Hd. vm_compute in Hd. discriminate.
  - exact (third_glyph_missing digits note g1 g2 _ t s' Hd E M).
  - exact (third_glyph_missing digits note g1 g2 _ t s' Hd E M).
Qed.

Lemma scan_skip_all r s : scan r s (List.length s) = scan r [] 0.
Proof. rewrite <- (app_nil_r s) at 1. apply scan_skip. Qed.

Lemma rules_skip (l : list (regex * list nat)) text :
  (forall p, In p l -> found (fst p) text = false) ->
  fold_left (fun text p => sub (fst p) (expand (snd p)) text) l text = text.
Proof.
  induction l as [|p l IH]; intros F; [reflexivity|].
  cbn [fold_left]. rewrite sub_not_found by (apply F; now left).
  apply IH. intros q Hq. apply F. now right.
Qed.

(** X29. A numbered tag with two glyphs of the circled range that starts
    a line and is followed by its note to the end of the text is written
    out twice by [demultiply_diffs], once for each glyph, each copy with
    the number and the note of the original. *)
Theorem demultiply_diffs_pair (digits note : pystr) g1 g2 :
  digits <> [] -> forallb is_decimal digits = true ->
  in_range U.circ1 U.circ0 g1 = true -> in_range U.circ1 U.circ0 g2 = true ->
  note <> [] -> ~ In U.nl note ->
  demultiply_diffs (numbered_tag digits [g1; g2] note)
  = numbered_tag digits [g1] note ++ numbered_tag digits [g2] note.
Proof.
  intros Hne Hd Hg1 Hg2 Hnote Hnl.
  unfold demultiply_diffs.
  assert (S : demultiply_patterns
              = removelast demultiply_patterns
                ++ [(Seqs [Grp 1 numbered_head; Grp 2 circled; Grp 3 circled; Grp 4 tag_tail],
                     [1; 2; 4; 1; 3; 4]%nat)]) by reflexivity.
  rewrite S, fold_left_app.
  rewrite (rules_skip (removelast demultiply_patterns) (numbered_tag digits [g1; g2] note))
    by (intros p Hp; now apply only_rule_for_pair).
  cbn [fold_left fst snd].
  pose proof (match_pair_rule digits note g1 g2 Hne Hd Hg1 Hg2 Hnote Hnl) as M.
  unfold sub. unfold numbered_tag at 1. unfold numbered_tag at 1 in M.
  cbn [scan]. rewrite M. cbn [m_text numbered_tag List.length].
  rewrite scan_skip_all.
  cbn [scan match_at bt Seqs numbered_head Lit Chr subst expand map m_group m_caps group
       Nat.eqb List.concat].
  unfold numbered_tag. cbn [app]. rewrite !app_nil_r, <- !app_assoc. reflexivity.
Qed.

Lemma demultiply_diffs_pair_witness :
  demultiply_diffs (numbered_tag (py "12") [U.circ1; U.circ0] (py "note"))
  = numbered_tag (py "12") [U.circ1] (py "note")
    ++ numbered_tag (py "12") [U.circ0] (py "note").
Proof.
  apply demultiply_diffs_pair.
  - discriminate.
  - vm_compute. reflexivity.
  - vm_compute. reflexivity.
  - vm_compute. reflexivity.
  - discriminate.
  - vm_compute. intuition discriminate.
Defined.

(** * The page merger on pages with several tags *)

(** ** Replacing the first occurrence leaves what follows it *)

Lemma is_prefix_app (old u b : pystr) :
  (List.length old <= List.length u)%nat ->
  Py.is_prefix old (u ++ b) = Py.is_prefix old u.
Proof.
  revert u. induction old as [|c old IH]; intros u H; [reflexivity|].
  destruct u as [|x u]; [cbn [List.length] in H; lia|].
  cbn [app Py.is_prefix]. rewrite IH; [reflexivity|]. cbn [List.length] in H. lia.
Qed.

Lemma skipn_app_front (n : nat) (u b : pystr) :
  (n <= List.length u)%nat -> skipn n (u ++ b) = skipn n u ++ b.
Proof.
  intros H. rewrite skipn_app.
  replace (n - List.length u)%nat with 0%nat by lia. reflexivity.
Qed.

Lemma replace_keeps_tail (old new a b : pystr) :
  old <> [] ->
  Py.replace old new (Some 1%nat) (a ++ old ++ b)
  = Py.replace old new (Some 1%nat) (a ++ old) ++ b.
Proof.
  intros Hne. unfold Py.replace. destruct old as [|c old]; [congruence|]. clear Hne.
  induction a as [|x a IH].
  - cbn [app Py.replace_scan Py.budget_left andb Py.budget_pred Nat.pred].
    assert (P1 : Py.is_prefix (c :: old) (c :: old ++ b) = true)
      by (apply is_prefix_iff; now exists b).
    assert (P2 : Py.is_prefix (c :: old) (c :: old) = true)
      by (apply is_prefix_iff; exists []; now rewrite app_nil_r).
    rewrite P1, P2, !replace_scan_spent.
    replace (List.length (c :: old) - 1)%nat with (List.length old)
      by (cbn [List.length]; lia).
    rewrite skipn_app_front by lia. now rewrite app_assoc.
  - cbn [app Py.replace_scan Py.budget_left andb].
    assert (E : a ++ c :: old ++ b = (a ++ c :: old) ++ b)
      by (rewrite <- app_assoc; reflexivity).
    cbn [app] in IH. rewrite E in *.
    change (x :: (a ++ c :: old) ++ b) with ((x :: a ++ c :: old) ++ b).
    rewrite (is_prefix_app (c :: old) (x :: a ++ c :: old) b)
      by (cbn [List.length]; rewrite length_app; cbn [List.length]; lia).
    destruct (Py.is_prefix (c :: old) (x :: a ++ c :: old)).
    + cbn [Py.budget_pred Nat.pred]. rewrite !replace_scan_spent.
      rewrite skipn_app_front; [now rewrite app_assoc|].
      cbn [List.length]. rewrite length_app. cbn [List.length]. lia.
    + cbn [app]. f_equal. exact IH.
Qed.

(** ** The scan, taken up again after a match *)

Lemma scan_jump r s :
  forall n, (n <= List.length s)%nat -> scan r s n = scan r (skipn n s) 0.
Proof.
  induction s as [|x s IH]; intros n H.
  - destruct n; [reflexivity | cbn [List.length] in H; lia].
  - destruct n as [|n]; [reflexivity|].
    cbn [scan skipn]. apply IH. cbn [List.length] in H. lia.
Qed.

Lemma tag_hit_cut s m :
  match_at tag_re s = Some m ->
  exists c p rest, m_text m = c :: p /\ s = c :: p ++ rest.
Proof.
  intros H. apply match_at_sound in H. destruct H as (p & s' & E & M & Et).
  apply tag_match_shape in M. destruct M as (q & Eq & _).
  rewrite Eq in E. destruct p as [|c p].
  - cbn [app] in E. exfalso.
    assert (L : List.length (U.lt :: q ++ U.gt :: s') = List.length s') by now rewrite E.
    cbn [List.length] in L. rewrite length_app in L. cbn [List.length] in L. lia.
  - exists c, p, s'. split; [assumption|]. now rewrite Eq.
Qed.

Lemma finditer_cons_hit s m c p rest :
  match_at tag_re s = Some m -> m_text m = c :: p -> s = c :: p ++ rest ->
  finditer tag_re s = m :: finditer tag_re rest.
Proof.
  intros H Et ->. unfold finditer. cbn [scan]. rewrite H, Et. cbn [List.length hits].
  f_equal. rewrite scan_jump by (rewrite length_app; lia).
  now rewrite skipn_app, skipn_all, Nat.sub_diag.
Qed.

Lemma finditer_cons_gap x s :
  match_at tag_re (x :: s) = None -> finditer tag_re (x :: s) = finditer tag_re s.
Proof. intros H. unfold finditer. cbn [scan]. now rewrite H. Qed.

(** After the markers that have a footnote, the rest of the page is the
    end of both outputs. *)
Lemma merge_tail :
  forall len s, (List.length s <= len)%nat ->
    forall foot_notes,
    exists head tail,
      s = head ++ tail /\
      finditer tag_re tail = skipn (List.length foot_notes) (finditer tag_re s) /\
      forall x y w wo,
        fold_left merge_step (combine (finditer tag_re s) foot_notes) (Ok (x ++ s, y ++ s))
        = Ok (w, wo) ->
        exists w' wo', w = w' ++ tail /\ wo = wo' ++ tail.
Proof.
  induction len as [|len IH]; intros s Hlen fs.
  - destruct s; [|cbn [List.length] in Hlen; lia].
    exists [], []. split; [reflexivity|]. split.
    + destruct fs; reflexivity.
    + intros x y w wo H. change (finditer tag_re []) with (@nil rmatch) in H.
      cbn [combine fold_left] in H. inversion H; subst. now exists x, y.
  - destruct fs as [|f fs].
    { exists [], s. split; [reflexivity|]. split; [reflexivity|].
      intros x y w wo H. rewrite combine_nil in H. cbn [fold_left] in H.
      inversion H; subst. now exists x, y. }
    destruct s as [|c s].
    { exists [], []. split; [reflexivity|]. split; [reflexivity|].
      intros x y w wo H. change (finditer tag_re []) with (@nil rmatch) in H.
      cbn [combine fold_left] in H. inversion H; subst. now exists x, y. }
    destruct (match_at tag_re (c :: s)) as [m|] eqn:Em.
    + destruct (tag_hit_cut _ _ Em) as (c' & p & rest & Et & Es).
      inversion Es; subst c' s.
      destruct (IH rest) with (foot_notes := fs) as (head & tail & Eh & Ef & Hout).
      { cbn [List.length] in Hlen. rewrite length_app in Hlen. lia. }
      exists ((c :: p) ++ head), tail. split; [rewrite Eh; now rewrite <- app_assoc|].
      rewrite (finditer_cons_hit _ m c p rest Em Et eq_refl). split; [exact Ef|].
      intros x y w wo H. cbn [combine fold_left] in H.
      unfold merge_step at 2 in H. cbn [bind fst snd] in H.
      destruct (merge_repl m f) as [[repl1 repl2]|e]; cbn [bind] in H;
        [|rewrite merge_fold_raise in H; discriminate].
      rewrite Et in H.
      change (c :: p ++ rest) with ((c :: p) ++ rest) in H.
      rewrite !replace_keeps_tail in H by discriminate.
      exact (Hout _ _ w wo H).
    + destruct (IH s) with (foot_notes := f :: fs) as (head & tail & Eh & Ef & Hout).
      { cbn [List.length] in Hlen. lia. }
      exists (c :: head), tail. split; [now rewrite Eh|].
      rewrite (finditer_cons_gap c s Em). split; [exact Ef|].
      intros x y w wo H.
      replace (x ++ c :: s) with ((x ++ [c]) ++ s) in H by now rewrite <- app_assoc.
      replace (y ++ c :: s) with ((y ++ [c]) ++ s) in H by now rewrite <- app_assoc.
      exact (Hout _ _ w wo H).
Qed.

(** C3, amended. When the footnote list and the sequence of marker
    tokens differ in length, the merger pairs them in order up to the
    shorter of the two and substitutes nothing for the missing side:
    footnotes beyond the last marker token are ignored; marker tokens
    beyond the last footnote are not visited and keep their text in both
    outputs - the page ends with a part whose tags are exactly those
    tokens, and both outputs end with that same part; and with no footnote
    at all both outputs are the page as it came. *)
Theorem merge_pairs_up_to_shorter page foot_notes :
  let markers := finditer tag_re page in
  let n := Nat.min (List.length markers) (List.length foot_notes) in
  merge_footnotes_per_page page foot_notes
    = fold_left merge_step (combine (firstn n markers) (firstn n foot_notes))
                (Ok (page, page)) /\
  merge_footnotes_per_page page foot_notes
    = merge_footnotes_per_page page (firstn (List.length markers) foot_notes) /\
  (exists head tail,
      page = head ++ tail /\
      finditer tag_re tail = skipn (List.length foot_notes) markers /\
      forall with_marker without_marker,
        merge_footnotes_per_page page foot_notes = Ok (with_marker, without_marker) ->
        exists w wo, with_marker = w ++ tail /\ without_marker = wo ++ tail) /\
  merge_footnotes_per_page page [] = Ok (page, page).
Proof.
  cbv zeta. unfold merge_footnotes_per_page. repeat split.
  - now rewrite combine_cut.
  - now rewrite combine_cut_right.
  - destruct (merge_tail (List.length page) page (le_n _) foot_notes)
      as (head & tail & Eh & Ef & Hout).
    exists head, tail. split; [assumption|]. split; [assumption|].
    intros w wo H. exact (Hout [] [] w wo H).
  - now rewrite combine_nil.
Qed.

Lemma merge_pairs_up_to_shorter_witness :
  exists head tail,
    py "a<1,x>b<2,y>c" = head ++ tail /\
    finditer tag_re tail = skipn 1 (finditer tag_re (py "a<1,x>b<2,y>c")) /\
    exists w wo, py "a<1,x;1,x,n>b<2,y>c" = w ++ tail /\ py "a<n>b<2,y>c" = wo ++ tail.
Proof.
  destruct (proj1 (proj2 (proj2 (merge_pairs_up_to_shorter (py "a<1,x>b<2,y>c")
                                                          [py "<1,x>n"]))))
    as (head & tail & Eh & Ef & Hout).
  exists head, tail. split; [exact Eh|]. split; [exact Ef|].
  apply Hout. vm_compute. reflexivity.
Defined.

(** ** The shape of a tag that the scan finds *)

(** A lazy run stops at the first place where the continuation accepts. *)
Lemma lazy_loop_inv {A} p (k : pystr -> caps -> option A) v c :
  forall fuel s,
    loop_of (Cls p) false k fuel s c = Some v ->
    exists run rest,
      s = run ++ rest /\ k rest c = Some v /\
      forall run1 x run2, run = run1 ++ x :: run2 -> k (x :: run2 ++ rest) c = None.
Proof.
  unfold loop_of. induction fuel as [|f IH]; intros s H; cbn [star_loop] in H.
  - destruct (k s c) eqn:K; [|discriminate].
    exists [], s. split; [reflexivity|]. split; [congruence|].
    intros [|? ?] x run2 E; discriminate.
  - destruct (k s c) eqn:K.
    + exists [], s. split; [reflexivity|]. split; [congruence|].
      intros [|? ?] x run2 E; discriminate.
    + destruct s as [|x s]; [discriminate|]. cbn [bt] in H.
      destruct (p x); [|discriminate].
      destruct (List.length s <? List.length (x :: s))%nat; [|discriminate].
      destruct (IH s H) as (run & rest & -> & Hk & Hno).
      exists (x :: run), rest. split; [reflexivity|]. split; [assumption|].
      intros [|y run1] x0 run2 E; cbn [app] in E; inversion E; subst.
      * exact K.
      * now apply Hno with (run1 := run1).
Qed.

Lemma tag_hit_shape s m :
  match_at tag_re s = Some m ->
  exists b0 run, m_text m = U.lt :: b0 :: run ++ [U.gt] /\ ~ In U.gt run.
Proof.
  unfold match_at, tag_re. cbn [Seqs]. rewrite bt_seq. intros H.
  destruct s as [|x s1]; [discriminate|].
  unfold Chr at 1 in H. rewrite bt_cls_cons in H.
  destruct (N.eqb_spec U.lt x) as [<-|]; [|discriminate].
  rewrite bt_seq in H. unfold Plus in H. rewrite bt_seq in H.
  destruct s1 as [|b0 s2]; [discriminate|].
  unfold Dot in H. rewrite bt_cls_cons in H.
  destruct (negb (b0 =? U.nl)); [|discriminate].
  rewrite bt_star in H. apply lazy_loop_inv in H.
  destruct H as (run & rest & -> & Hk & Hno). cbv beta in Hk.
  destruct rest as [|y s']; [discriminate|].
  unfold Chr in Hk. rewrite bt_cls_cons in Hk.
  destruct (N.eqb_spec U.gt y) as [<-|]; [|discriminate].
  inversion Hk as [Em]. exists b0, run. cbn [m_text]. split.
  - apply (firstn_cut (U.lt :: b0 :: run ++ [U.gt]) s'); [|reflexivity].
    cbn [app]. now rewrite <- app_assoc.
  - intros Hin. apply in_split in Hin. destruct Hin as (run1 & run2 & E).
    specialize (Hno run1 U.gt run2 E). cbv beta in Hno.
    unfold Chr in Hno. rewrite bt_cls_cons, N.eqb_refl in Hno. discriminate.
Qed.

Lemma hits_from_match r s :
  forall skip m, In m (hits (scan r s skip)) -> exists t, match_at r t = Some m.
Proof.
  induction s as [|x s IH]; intros skip m H; cbn [scan] in H.
  - destruct skip; [|contradiction].
    destruct (match_at r []) as [m0|] eqn:E; [|contradiction].
    destruct H as [<- | []]. now exists [].
  - destruct skip as [|n]; [|now apply IH with (skip := n)].
    destruct (match_at r (x :: s)) as [m0|] eqn:E.
    + destruct (List.length (m_text m0)); cbn [hits] in H;
        (destruct H as [<- | H]; [now exists (x :: s) | now apply IH in H]).
    + cbn [hits] in H. now apply IH in H.
Qed.

(** ** Where the first occurrence is replaced *)

Lemma replace_cases (old new s : pystr) :
  old <> [] ->
  Py.replace old new (Some 1%nat) s = s \/
  exists u v, s = u ++ old ++ v /\ Py.replace old new (Some 1%nat) s = u ++ new ++ v.
Proof.
  intros Hne. unfold Py.replace. destruct old as [|c old]; [congruence|]. clear Hne.
  induction s as [|x s IH]; [now left|].
  cbn [Py.replace_scan Py.budget_left andb].
  destruct (Py.is_prefix (c :: old) (x :: s)) eqn:P.
  - right. apply is_prefix_iff in P. destruct P as [v E].
    exists [], v. split; [exact E|].
    cbn [Py.budget_pred Nat.pred app]. rewrite replace_scan_spent.
    replace (List.length (c :: old) - 1)%nat with (List.length old)
      by (cbn [List.length]; lia).
    cbn [app] in E. inversion E; subst.
    now rewrite skipn_app, skipn_all, Nat.sub_diag.
  - destruct IH as [IH | (u & v & E & IH)].
    + left. now rewrite IH.
    + right. exists (x :: u), v. split; [now rewrite E|]. now rewrite IH.
Qed.

(** ** The boundary token under a replacement *)

Lemma token_parts vol page :
  exists tb : pystr,
    page_token vol page = U.lt :: tb ++ [U.gt] /\
    ~ In U.gt tb /\ ~ In U.lt tb /\ (exists body, tb = 0x70 :: body).
Proof.
  destruct (page_token_shape vol page) as (body & E & _ & _ & Hb).
  exists (0x70 :: body). rewrite Forall_forall in Hb.
  split; [exact E|]. repeat split.
  - intros Hin. now apply (proj1 (Hb _ Hin)).
  - intros Hin. now apply (proj2 (Hb _ Hin)).
  - now exists body.
Qed.

Lemma found_after_prefix r (l t : pystr) : found r t = true -> found r (l ++ t) = true.
Proof.
  intros H. apply found_iff in H. destruct H as (pre & t0 & s' & -> & M).
  apply found_iff. exists (l ++ pre), t0, s'. split; [now rewrite <- app_assoc | exact M].
Qed.

(** A tag that begins where the token begins is the token. *)
Lemma tag_at_token vol page (b0 : char) (q v b : pystr) :
  ~ In U.gt q ->
  (U.lt :: b0 :: q ++ [U.gt]) ++ v = page_token vol page ++ b ->
  U.lt :: b0 :: q ++ [U.gt] = page_token vol page.
Proof.
  intros Hq E. destruct (token_parts vol page) as (tb & Et & Hgt & _ & body & ->).
  rewrite Et in *. cbn [app] in E. rewrite <- !app_assoc in E. cbn [app] in E.
  inversion E as [[Eb Er]]. clear E.
  apply (run_unique (fun c => negb (c =? U.gt))) in Er.
  - destruct Er as [-> _]. reflexivity.
  - apply forallb_forall. intros c Hc. apply negb_true_iff, N.eqb_neq.
    intros ->. now apply Hq.
  - apply forallb_forall. intros c Hc. apply negb_true_iff, N.eqb_neq.
    intros ->. apply Hgt. now right.
  - now rewrite N.eqb_refl.
Qed.

(** The end of a tag that begins with [<] and reaches into the token is
    the token. *)
Lemma tag_end_at_token vol page (b0 : char) (q l l2 v b : pystr) :
  ~ In U.gt q -> l <> [] -> l2 <> [] ->
  U.lt :: b0 :: q ++ [U.gt] = l ++ l2 ->
  page_token vol page ++ b = l2 ++ v ->
  l2 = page_token vol page.
Proof.
  intros Hq Hl Hl2 Eo Et.
  destruct (token_parts vol page) as (tb & Etok & Hgt & _ & _).
  destruct l as [|y l']; [congruence|]. cbn [app] in Eo. inversion Eo as [[Ey Eo']].
  destruct (exists_last Hl2) as (l2i & z & ->).
  change (b0 :: q ++ [U.gt]) with ((b0 :: q) ++ [U.gt]) in Eo'.
  rewrite app_assoc in Eo'. apply app_inj_tail in Eo'. destruct Eo' as [Eq Ez]. subst z.
  rewrite Etok in Et. cbn [app] in Et.
  destruct l2i as [|y2 m].
  { cbn [app] in Et. inversion Et. }
  cbn [app] in Et. inversion Et as [[Ey2 Em]]. subst y2.
  assert (Hm : ~ In U.gt m).
  { intros Hin. destruct l' as [|y3 l'']; cbn [app] in Eq; inversion Eq; subst.
    - now apply Hq.
    - apply Hq. apply in_or_app. right. now right. }
  rewrite <- !app_assoc in Em. cbn [app] in Em.
  apply (run_unique (fun c => negb (c =? U.gt))) in Em.
  - destruct Em as [-> _]. now rewrite Etok.
  - apply forallb_forall. intros c Hc. apply negb_true_iff, N.eqb_neq.
    intros ->. now apply Hgt.
  - apply forallb_forall. intros c Hc. apply negb_true_iff, N.eqb_neq.
    intros ->. now apply Hm.
  - now rewrite N.eqb_refl.
Qed.

Lemma token_suffix_with_lt vol page (l l2 : pystr) :
  page_token vol page = l ++ U.lt :: l2 -> l = [].
Proof.
  intros E. destruct (token_parts vol page) as (tb & Etok & _ & Hlt & _).
  destruct l as [|y l']; [reflexivity|]. exfalso.
  rewrite Etok in E. cbn [app] in E. inversion E as [[Ey E']].
  assert (Hin : In U.lt (tb ++ [U.gt])) by (rewrite E'; apply in_or_app; right; now left).
  apply in_app_or in Hin. destruct Hin as [Hin | [Hin | []]]; [now apply Hlt | discriminate].
Qed.

Lemma token_survives_replace vol page (b0 : char) (q new a b : pystr) :
  ~ In U.gt q ->
  found page_tag_re (U.lt :: b0 :: q ++ [U.gt]) = false ->
  exists a' b',
    Py.replace (U.lt :: b0 :: q ++ [U.gt]) new (Some 1%nat) (a ++ page_token vol page ++ b)
    = a' ++ page_token vol page ++ b'.
Proof.
  intros Hq Hnf.
  assert (Hnot : forall l : pystr, U.lt :: b0 :: q ++ [U.gt] <> l ++ page_token vol page).
  { intros l E. rewrite E in Hnf.
    rewrite (found_after_prefix page_tag_re l _ (boundary_found vol page)) in Hnf.
    discriminate. }
  destruct (replace_cases (U.lt :: b0 :: q ++ [U.gt]) new (a ++ page_token vol page ++ b))
    as [-> | (u & v & E & ->)]; [discriminate | now exists a, b |].
  remember (U.lt :: b0 :: q ++ [U.gt]) as old eqn:Eold.
  symmetry in E. apply app_eq_app in E. destruct E as [l [[Eu E] | [Ea E]]].
  - (* the occurrence starts at or after the start of the token *)
    apply app_eq_app in E. destruct E as [l2 [[Et E] | [El Eb]]].
    + destruct l2 as [|y l2].
      * rewrite app_nil_r in Et. cbn [app] in E. subst.
        exists a, (new ++ v). now rewrite <- !app_assoc.
      * exfalso. assert (y = U.lt) by (rewrite Eold in E; now inversion E). subst y.
        pose proof (token_suffix_with_lt vol page l l2 Et) as ->. cbn [app] in Et.
        rewrite <- Et in E. rewrite Eold in E.
        apply (Hnot []). cbn [app]. rewrite Eold.
        exact (tag_at_token vol page b0 q v b Hq E).
    + subst. exists a, (l2 ++ new ++ v). now rewrite <- !app_assoc.
  - (* the occurrence starts before the token *)
    apply app_eq_app in E. destruct E as [l2 [[Eo E] | [El Ev]]].
    + destruct l2 as [|y l2].
      * rewrite app_nil_r in Eo. cbn [app] in E. subst.
        exists (u ++ new), b. now rewrite <- !app_assoc.
      * exfalso. destruct l as [|y0 l].
        -- cbn [app] in Eo. rewrite <- Eo in E. rewrite Eold in E.
           apply (Hnot []). cbn [app]. rewrite Eold.
           exact (tag_at_token vol page b0 q v b Hq (eq_sym E)).
        -- rewrite Eold in Eo.
           pose proof (tag_end_at_token vol page b0 q (y0 :: l) (y :: l2) v b Hq
                                        ltac:(discriminate) ltac:(discriminate) Eo E) as Et.
           apply (Hnot (y0 :: l)). rewrite <- Et. rewrite Eold. exact Eo.
    + subst. exists (u ++ new ++ l2), b. now rewrite <- !app_assoc.
Qed.

(** ** The merger on a page that holds the token *)

Lemma merge_step_keeps_token vol page m foot_note w wo w1 wo1 :
  (exists t, match_at tag_re t = Some m) ->
  holds_token vol page w -> holds_token vol page wo ->
  merge_step (Ok (w, wo)) (m, foot_note) = Ok (w1, wo1) ->
  holds_token vol page w1 /\ holds_token vol page wo1.
Proof.
  intros [t Hm] Hw Hwo H.
  destruct (tag_hit_shape t m Hm) as (b0 & q & Et & Hq).
  unfold merge_step in H. cbn [bind fst snd] in H.
  unfold merge_repl in H.
  destruct (found page_tag_re (m_text m)) eqn:F.
  - cbn [bind] in H. rewrite !replace_same in H. inversion H; subst. now split.
  - match type of H with
    | bind ?X _ = _ => destruct X as [[repl1 repl2]|]; cbn [bind] in H; [|discriminate]
    end.
    inversion H; subst. rewrite Et in *.
    destruct Hw as (a & b & ->). destruct Hwo as (a2 & b2 & ->).
    split.
    + destruct (token_survives_replace vol page b0 q repl1 a b Hq F) as (a' & b' & ->).
      now exists a', b'.
    + destruct (token_survives_replace vol page b0 q repl2 a2 b2 Hq F) as (a' & b' & ->).
      now exists a', b'.
Qed.

Lemma merge_fold_keeps_token vol page l :
  Forall (fun p => exists t, match_at tag_re t = Some (fst p)) l ->
  forall w wo w1 wo1,
    holds_token vol page w -> holds_token vol page wo ->
    fold_left merge_step l (Ok (w, wo)) = Ok (w1, wo1) ->
    holds_token vol page w1 /\ holds_token vol page wo1.
Proof.
  induction 1 as [|[m f] l Hm _ IH]; intros w wo w1 wo1 Hw Hwo H.
  - inversion H; subst. now split.
  - cbn [fold_left] in H.
    destruct (merge_step (Ok (w, wo)) (m, f)) as [[w2 wo2]|e] eqn:E;
      [|rewrite merge_fold_raise in H; discriminate].
    destruct (merge_step_keeps_token vol page m f w wo w2 wo2 Hm Hw Hwo E) as [Hw2 Hwo2].
    exact (IH w2 wo2 w1 wo1 Hw2 Hwo2 H).
Qed.

Lemma merge_keeps_token vol page pre post foot_notes w wo :
  merge_footnotes_per_page (pre ++ page_token vol page ++ post) foot_notes = Ok (w, wo) ->
  holds_token vol page w /\ holds_token vol page wo.
Proof.
  unfold merge_footnotes_per_page. intros H.
  assert (Hp : holds_token vol page (pre ++ page_token vol page ++ post))
    by now exists pre, post.
  refine (merge_fold_keeps_token vol page _ _ _ _ _ _ Hp Hp H).
  apply Forall_forall. intros [m f] Hin. cbn [fst].
  apply in_combine_l in Hin. unfold finditer in Hin.
  exact (hits_from_match _ _ _ _ Hin).
Qed.

(** C5, amended. For every volume V and page N, [get_pg_ann] renders the
    boundary token of the page-number text V-N as the string [<pV-N>],
    and every such boundary token occurring in a body page is copied
    unchanged into both outputs that the page merger returns, whatever
    other markers the page holds and whatever the footnote list: the
    merger computes for the token the token itself as replacement, so
    that its step never fails and leaves both outputs as they are; no
    step of another marker overwrites the token, so that both outputs of
    a page that holds the token hold it; and a page whose only tag is the
    token is returned unchanged in both outputs. *)
Theorem page_boundary_preserved vol page :
  get_pg_ann (page_diff_text vol page) vol = Ok (page_token vol page) /\
  (forall m foot_note with_marker without_marker,
      m_text m = page_token vol page ->
      merge_repl m foot_note = Ok (page_token vol page, page_token vol page) /\
      merge_step (Ok (with_marker, without_marker)) (m, foot_note)
      = Ok (with_marker, without_marker)) /\
  (forall pre post foot_notes with_marker without_marker,
      merge_footnotes_per_page (pre ++ page_token vol page ++ post) foot_notes
      = Ok (with_marker, without_marker) ->
      holds_token vol page with_marker /\ holds_token vol page without_marker) /\
  (forall pre post foot_notes,
      Forall (fun c => c <> U.gt /\ c <> U.lt) pre ->
      Forall (fun c => c <> U.gt /\ c <> U.lt) post ->
      merge_footnotes_per_page (pre ++ page_token vol page ++ post) foot_notes
      = Ok (pre ++ page_token vol page ++ post,
            pre ++ page_token vol page ++ post)).
Proof.
  split; [apply get_pg_ann_renders|]. split; [|split].
  - intros m foot_note w wo E. split.
    + unfold merge_repl. now rewrite E, boundary_found.
    + now apply merge_step_boundary with (vol := vol) (page := page).
  - intros pre post foot_notes w wo. apply merge_keeps_token.
  - intros pre post foot_notes. apply merge_keeps_boundary.
Qed.

Lemma page_boundary_preserved_witness :
  merge_step (Ok (py "a<p3-14>b", py "a<p3-14>b"))
             ({| m_text := py "<p3-14>"; m_caps := [] |}, py "<1,x>note")
  = Ok (py "a<p3-14>b", py "a<p3-14>b") /\
  (merge_footnotes_per_page (py "a<1,x>b<p3-14>c<2,y>d")
                            [py "<1,x>n"; py "<9,z>skipped"; py "<2,y>m"]
   = Ok (py "a<1,x;1,x,n>b<p3-14>c<2,y;2,y,m>d", py "a<n>b<p3-14>c<m>d") /\
   holds_token 3 14 (py "a<1,x;1,x,n>b<p3-14>c<2,y;2,y,m>d") /\
   holds_token 3 14 (py "a<n>b<p3-14>c<m>d")) /\
  merge_footnotes_per_page (py "word <p3-14> word") [py "<1,x>note"]
  = Ok (py "word <p3-14> word", py "word <p3-14> word").
Proof.
  split; [|split].
  - refine (proj2 (proj1 (proj2 (page_boundary_preserved 3 14)) _ _ _ _ _)).
    reflexivity.
  - split; [vm_compute; reflexivity|].
    refine (proj1 (proj2 (proj2 (page_boundary_preserved 3 14)))
                  (py "a<1,x>b") (py "c<2,y>d")
                  [py "<1,x>n"; py "<9,z>skipped"; py "<2,y>m"] _ _ _).
    vm_compute. reflexivity.
  - refine (proj2 (proj2 (proj2 (page_boundary_preserved 3 14)))
                  (py "word ") (py " word") [py "<1,x>note"] _ _);
      repeat constructor; discriminate.
Defined.
